(** * Recipe Q&A assistant: retrieval, evaluation metrics and data preparation

    A shallow embedding of [src/retrieval.py] (class [RecipeRetriever] and the
    module-level [retrieve_recipes]), of [src/evaluate_retrieval.py]
    ([calculate_ndcg_at_k], [calculate_recall_at_k],
    [identify_relevant_recipes] and the scoring of a query in
    [evaluate_retrieval_performance]), of [src/prepare_data.py]
    ([preprocess_recipes], [create_recipe_text], [save_recipes]) and of
    [src/conversation_handler.py] (class [ConversationalRecipeAssistant]).

    Conventions.
    - A Python [float] is a real number of [R]: rounding is abstracted.  What
      is stated of a score is what rounding to doubles keeps: its sign, exact
      zero, and the order of two scores.  No upper bound is stated for a
      cosine similarity: in doubles a vector against itself can come out as
      the double next above 1.0.  [NaN] is the missing value [None] where
      pandas uses it so.
    - A Python [int] that may be negative (the [k] of a slice) is a [Z].
    - A [dict] is a [gmap string value]; dict objects live in a heap indexed
      by references, so that aliasing and [dict.copy()] are visible.
    - Exceptions are values of [exn].  A library function returns a [result];
      a method of the retriever runs from a state to an [outcome]: it returns
      a value or throws, and leaves a state behind either way.  The scripts
      raise two exceptions more, [KeyError] and [TypeError]: their functions
      return an [attempt].
    - The library routines the code calls (numpy, scikit-learn, pandas) are
      embedded from their documented behaviour.  What numpy leaves open (the
      order that [argsort] gives to equal keys) is an interface, [NpArgsort];
      the primitives of text analysis ([str.lower], the token pattern, the
      stop-word list) are the interface [TextPrims]; the string methods of
      the scripts and [str] of a value are the interface [PyStr].
    - The formatting and printing of results, the reading and writing of
      files and the calls of the language model are left out. *)

From Stdlib Require Import Reals Lra Lia ZArith DecimalString.
From stdpp Require Import gmap strings list sorting.

(** ** Python sequences *)

Module Py.

(** [a[start:]]: a negative [start] counts from the end, and both ends clamp. *)
Definition slice_from {A} (a : list A) (start : Z) : list A :=
  let n := Z.of_nat (length a) in
  let lo := if (start <? 0)%Z then Z.max (start + n) 0 else Z.min start n in
  drop (Z.to_nat lo) a.

(** [a[:stop]], with the same treatment of a negative [stop]. *)
Definition slice_to {A} (a : list A) (stop : Z) : list A :=
  let n := Z.of_nat (length a) in
  let hi := if (stop <? 0)%Z then Z.max (stop + n) 0 else Z.min stop n in
  take (Z.to_nat hi) a.

(** [a[::-1]] *)
Definition reversed {A} (a : list A) : list A := rev a.

(** [enumerate(a, start)] *)
Definition enumerate {A} (a : list A) (start : nat) : list (nat * A) :=
  zip (seq start (length a)) a.

End Py.

(** ** Vectors of floats *)

Definition Rsum (xs : list R) : R := foldr Rplus 0%R xs.

Definition dot (x y : list R) : R := Rsum (zip_with Rmult x y).

(** [a[i]] for an index known to be in range. *)
Definition key (a : list R) (i : nat) : R := nth i a 0%R.

(** Every component is 0.0. *)
Definition all_zero (x : list R) : Prop := Forall (λ w, w = 0%R) x.

(** ** numpy.argsort

    [np.argsort(a)] returns the indices that sort [a] in ascending order.  The
    default kind is an introsort, which numpy documents as not stable: what is
    promised is a permutation of [0 .. len(a)-1] along which the keys ascend. *)

Class NpArgsort := {
  np_argsort : list R → list nat;
  np_argsort_perm : ∀ a, np_argsort a ≡ₚ seq 0 (length a);
  np_argsort_ascending :
    ∀ a, StronglySorted (λ i j, (key a i <= key a j)%R) (np_argsort a)
}.

(** Ascending by key, and by index among equal keys. *)
Definition lex_lt (a : list R) (i j : nat) : Prop :=
  (key a i < key a j)%R ∨ (key a i = key a j ∧ i < j).

(** One [argsort] to run the examples with: the insertion sort with which
    numpy's generic [aquicksort] finishes a partition of at most 16 elements,
<<
    for (pi = pl + 1; pi <= pr; ++pi) {
        vi = *pi; vp = v[vi]; pj = pi; pk = pi - 1;
        while (pj > pl && LT(vp, v[*pk])) { *pj-- = *pk--; }
        *pj = vi;
    }
>>
    [insert_back] is one run of the inner loop on the sorted prefix, held in
    reverse (its head is [*pk]).  This sort keeps equal keys in index order.
    It is not what every numpy returns: a build with vectorised sorting takes
    another path and may order equal keys otherwise, which the interface
    allows.  The general theorems hold for every [NpArgsort]; the examples on
    the corpus of three recipes use this one. *)
Fixpoint insert_back (v : list R) (vi : nat) (prefix_rev : list nat) : list nat :=
  match prefix_rev with
  | [] => [vi]
  | pk :: rest =>
      if Rlt_dec (key v vi) (key v pk)
      then pk :: insert_back v vi rest
      else vi :: pk :: rest
  end.

Definition insertion_argsort (v : list R) : list nat :=
  rev (foldl (λ prefix_rev vi, insert_back v vi prefix_rev) [] (seq 0 (length v))).

(** [np.argsort(similarities)[-k:][::-1]] *)
Definition top_k_indices `{NpArgsort} (similarities : list R) (k : Z) : list nat :=
  Py.reversed (Py.slice_from (np_argsort similarities) (- k)).

(** ** Exceptions and results *)

Inductive exn :=
  | ValueError (msg : string)
  | AttributeError (msg : string)
  | NotFittedError
  | IndexError
  | ZeroDivisionError.

Inductive result (A : Type) :=
  | Ok (a : A)
  | Raise (e : exn).
Arguments Ok {A} a.
Arguments Raise {A} e.

(** ** JSON values and dict objects *)

Inductive value :=
  | VNull
  | VBool (b : bool)
  | VInt (z : Z)
  | VFloat (r : R)
  | VStr (s : string).

Abbreviation dict := (gmap string value).
Abbreviation loc := nat.
Abbreviation heap := (gmap loc dict).

(** [d.get(key, default)] *)
Definition dict_get (d : dict) (k : string) (default : value) : value :=
  match d !! k with Some v => v | None => default end.

(** ** scikit-learn: text analysis

    The three primitives behind [TfidfVectorizer.build_analyzer()]:
    [str.lower], the token pattern [(?u)\b\w\w+\b] and the English stop-word
    set.  The retrieval code never looks inside them. *)

Class TextPrims := {
  str_lower : string → string;
  tokenize : string → list string;
  ENGLISH_STOP_WORDS : gset string
}.

(** [" ".join(original_tokens[i : i + 2])] for every [i] *)
Fixpoint bigrams (tokens : list string) : list string :=
  match tokens with
  | a :: (b :: _) as rest => (a +:+ " " +:+ b) :: bigrams rest
  | _ => []
  end.

(** [_word_ngrams(tokens, stop_words)] with [ngram_range=(1, 2)]: the stop
    words are dropped, then the unigrams are followed by the bigrams. *)
Definition word_ngrams `{TextPrims} (tokens : list string) : list string :=
  let tokens := filter (λ w, w ∉ ENGLISH_STOP_WORDS) tokens in
  tokens ++ bigrams tokens.

(** [build_analyzer()] with [lowercase=True], [stop_words='english']. *)
Definition analyzer `{TextPrims} (doc : string) : list string :=
  word_ngrams (tokenize (str_lower doc)).

(** A raw document must be a [str]: the preprocessor calls [doc.lower()]. *)
Definition decode (doc : value) : result string :=
  match doc with
  | VStr s => Ok s
  | _ => Raise (AttributeError "object has no attribute 'lower'")
  end.

Fixpoint decode_all (docs : list value) : result (list string) :=
  match docs with
  | [] => Ok []
  | d :: rest =>
      match decode d with
      | Raise e => Raise e
      | Ok s => match decode_all rest with
                | Raise e => Raise e
                | Ok ss => Ok (s :: ss)
                end
      end
  end.

(** ** scikit-learn: sparse matrices, as the dense rows they denote *)

Record csr_matrix := {
  shape1 : nat;
  rows : list (list R)
}.

Definition shape0 (X : csr_matrix) : nat := length (rows X).

(** [normalize(X, norm='l2')]: a row whose squares sum to zero is left as it is. *)
Definition l2_normalize_row (row : list R) : list R :=
  let s := Rsum (map (λ w, w * w)%R row) in
  if Req_dec_T s 0 then row else map (λ w, w / sqrt s)%R row.

Definition normalize (X : csr_matrix) : csr_matrix :=
  {| shape1 := shape1 X; rows := map l2_normalize_row (rows X) |}.

(** ** scikit-learn: CountVectorizer.fit_transform, the counting part

    Parameters of the source: [max_features=5000], [min_df=2], and the default
    [max_df=1.0]. *)

Definition max_features : nat := 5000.
Definition min_df : nat := 2.

(** Number of occurrences of a feature among the analysed terms of a document. *)
Definition term_count (t : string) (terms : list string) : nat :=
  length (filter (λ u, u = t) terms).

(** The vocabulary that [_count_vocab] collects: every distinct term.  The
    column numbers it hands out on first sight are replaced by
    [_sort_features], so only the set is kept here. *)
Definition collect_vocabulary (analysed : list (list string)) : gset string :=
  list_to_set (concat analysed).

(** [sorted(vocabulary.items())]: the terms in ascending order. *)
Definition sort_features (vocabulary : gset string) : list string :=
  merge_sort (λ s t, String.leb s t) (elements vocabulary).

(** The count matrix with its columns in the order of [features]. *)
Definition count_matrix (features : list string) (analysed : list (list string))
  : list (list nat) :=
  map (λ terms, map (λ t, term_count t terms) features) analysed.

(** [_document_frequency(X)]: for a column, the number of rows where it is non-zero. *)
Definition document_frequency (X : list (list nat)) (j : nat) : nat :=
  length (filter (λ row, 0 < nth j row 0) X).

(** [X.sum(axis=0)]: total count of a column. *)
Definition term_frequency (X : list (list nat)) (j : nat) : nat :=
  sum_list (map (λ row, nth j row 0) X).

(** [_limit_features(X, vocabulary, high, low, limit)]: the columns kept, in
    ascending order.  Columns outside the document-frequency range go; when
    more than [limit] remain, the [limit] with the largest total count stay
    ([(-tfs[mask]).argsort()[:limit]]). *)
Definition limit_features `{NpArgsort} (X : list (list nat)) (n_features : nat)
    (high low limit : nat) : list nat :=
  let mask := filter (λ j, low ≤ document_frequency X j ∧ document_frequency X j ≤ high)
                     (seq 0 n_features) in
  if decide (limit < length mask) then
    let tfs := map (λ j, (- INR (term_frequency X j))%R) mask in
    let mask_inds := take limit (np_argsort tfs) in
    let chosen := omap (λ i, mask !! i) mask_inds in
    filter (λ j, j ∈ chosen) mask
  else mask.

(** What [CountVectorizer.fit_transform] learns: the kept features in column
    order and the count matrix restricted to them. *)
Definition count_fit_transform `{TextPrims} `{NpArgsort} (raw_documents : list value)
  : result (list string * list (list nat)) :=
  match decode_all raw_documents with
  | Raise e => Raise e
  | Ok docs =>
      let analysed := map analyzer docs in
      let vocabulary := collect_vocabulary analysed in
      if decide (vocabulary = ∅) then
        Raise (ValueError "empty vocabulary; perhaps the documents only contain stop words")
      else
        let n_doc := length docs in
        (* max_doc_count = max_df * n_doc = n_doc, min_doc_count = min_df *)
        if decide (n_doc < min_df) then
          Raise (ValueError "max_df corresponds to < documents than min_df")
        else
          let features := sort_features vocabulary in
          let X := count_matrix features analysed in
          let kept := limit_features X (length features) n_doc min_df max_features in
          if decide (kept = []) then
            Raise (ValueError "After pruning, no terms remain. Try a lower min_df or a higher max_df.")
          else
            Ok (omap (λ j, features !! j) kept,
                map (λ row, map (λ j, nth j row 0) kept) X)
  end.

(** ** scikit-learn: TfidfTransformer and TfidfVectorizer

    Defaults of the source: [norm='l2'], [use_idf=True], [smooth_idf=True],
    [sublinear_tf=False]. *)

(** [idf = ln((1 + n_samples) / (1 + df)) + 1] *)
Definition smooth_idf (n_samples df : nat) : R :=
  (ln (INR (1 + n_samples) / INR (1 + df)) + 1)%R.

Definition tfidf_fit (X : list (list nat)) (n_features : nat) : list R :=
  map (λ j, smooth_idf (length X) (document_frequency X j)) (seq 0 n_features).

(** Counts times idf, then every row scaled to unit length. *)
Definition tfidf_transform (n_features : nat) (idf : list R) (X : list (list nat))
  : csr_matrix :=
  normalize {| shape1 := n_features;
               rows := map (λ row, zip_with (λ c w, INR c * w)%R row idf) X |}.

Inductive TfidfVectorizer :=
  | Unfitted
  | Fitted (vocabulary_ : gmap string nat) (idf_ : list R).

(** The [vocabulary_] of the kept features: term to column number. *)
Definition vocabulary_of (features : list string) : gmap string nat :=
  list_to_map (zip features (seq 0 (length features))).

(** [TfidfVectorizer.fit_transform(raw_documents)] *)
Definition fit_transform `{TextPrims} `{NpArgsort} (raw_documents : list value)
  : result (TfidfVectorizer * csr_matrix) :=
  match count_fit_transform raw_documents with
  | Raise e => Raise e
  | Ok (features, X) =>
      let idf := tfidf_fit X (length features) in
      Ok (Fitted (vocabulary_of features) idf,
          tfidf_transform (length features) idf X)
  end.

(** A row of [_count_vocab] under a fixed vocabulary: a term outside it is
    skipped ([KeyError] caught), the others are counted in their column. *)
Definition count_row (vocabulary_ : gmap string nat) (terms : list string) : list nat :=
  map (λ j, length (filter (λ t, vocabulary_ !! t = Some j) terms))
      (seq 0 (size vocabulary_)).

(** [TfidfVectorizer.transform(raw_documents)] *)
Definition transform `{TextPrims} (v : TfidfVectorizer) (raw_documents : list value)
  : result csr_matrix :=
  match v with
  | Unfitted => Raise NotFittedError
  | Fitted vocabulary_ idf_ =>
      match decode_all raw_documents with
      | Raise e => Raise e
      | Ok docs =>
          Ok (tfidf_transform (size vocabulary_) idf_
                (map (λ doc, count_row vocabulary_ (analyzer doc)) docs))
      end
  end.

(** ** scikit-learn: cosine_similarity *)

(** [check_array]: at least one sample and one feature. *)
Definition check_array (X : csr_matrix) : result unit :=
  if decide (shape0 X = 0) then
    Raise (ValueError "Found array with 0 sample(s) while a minimum of 1 is required.")
  else if decide (shape1 X = 0) then
    Raise (ValueError "Found array with 0 feature(s) while a minimum of 1 is required.")
  else Ok ().

(** [cosine_similarity(X, Y)]: both arguments are normalised again, then
    multiplied; entry [(i, j)] is the dot product of row [i] of [X] and row [j]
    of [Y]. *)
Definition cosine_similarity (X Y : csr_matrix) : result (list (list R)) :=
  match check_array X, check_array Y with
  | Raise e, _ => Raise e
  | Ok _, Raise e => Raise e
  | Ok _, Ok _ =>
      if decide (shape1 X = shape1 Y) then
        Ok (map (λ x, map (λ y, dot x y) (rows (normalize Y))) (rows (normalize X)))
      else Raise (ValueError "Incompatible dimension for X and Y matrices")
  end.

(** [K.flatten()] *)
Definition flatten (K : list (list R)) : list R := concat K.

(** ** retrieval.py: the state of a [RecipeRetriever] *)

Record RecipeRetriever := {
  recipes : list loc;
  vectorizer : option TfidfVectorizer;
  tfidf_matrix : option csr_matrix
}.

(** The retriever's attributes and the dict objects of the process. *)
Record state := {
  self : RecipeRetriever;
  objects : heap
}.

(** How a method ends: it returns a value or throws an exception, and
    either way leaves a state behind. *)
Inductive outcome (A : Type) :=
  | Return (a : A) (st : state)
  | Throw (e : exn) (st : state).
Arguments Return {A} a st.
Arguments Throw {A} e st.

Definition M (A : Type) : Type := state → outcome A.

Definition ret {A} (a : A) : M A := λ st, Return a st.

Definition bind {A B} (m : M A) (f : A → M B) : M B :=
  λ st, match m st with
        | Throw e st' => Throw e st'
        | Return a st' => f a st'
        end.

Notation "'let*' x := m 'in' f" := (bind m (λ x, f))
  (at level 10, x name, m at level 100, f at level 200).

Definition lift {A} (r : result A) : M A :=
  λ st, match r with
        | Raise e => Throw e st
        | Ok a => Return a st
        end.

Definition get_self : M RecipeRetriever := λ st, Return (self st) st.

Definition set_self (s : RecipeRetriever) : M unit :=
  λ st, Return () {| self := s; objects := objects st |}.

(** A new dict object holding [d]. *)
Definition new_dict (d : dict) : M loc :=
  λ st, let l := fresh (dom (objects st)) in
        Return l {| self := self st; objects := <[l := d]> (objects st) |}.

(** The dict a reference points to.  Python has no dangling reference: the
    exception stands for a state that is not one of a Python process. *)
Definition deref (l : loc) : M dict :=
  λ st, match objects st !! l with
        | Some d => Return d st
        | None => Throw (AttributeError "reference to no object") st
        end.

(** [d.copy()]: a new object with the same items. *)
Definition dict_copy (l : loc) : M loc :=
  let* d := deref l in new_dict d.

(** [d[key] = v], in place. *)
Definition dict_setitem (l : loc) (k : string) (v : value) : M unit :=
  λ st, match objects st !! l with
        | Some d => Return () {| self := self st;
                                 objects := <[l := <[k := v]> d]> (objects st) |}
        | None => Throw (AttributeError "reference to no object") st
        end.

(** [a[idx]] on a list, for [idx >= 0]. *)
Definition list_getitem {A} (a : list A) (idx : nat) : result A :=
  match a !! idx with
  | Some x => Ok x
  | None => Raise IndexError
  end.

(** [for x in xs: ...; results.append(...)] *)
Fixpoint for_each {A B} (xs : list A) (body : A → M B) : M (list B) :=
  match xs with
  | [] => ret []
  | x :: rest =>
      let* y := body x in
      let* ys := for_each rest body in
      ret (y :: ys)
  end.

(** ** retrieval.py: the methods of [RecipeRetriever]

    The [print] calls and the reading of the file are left out: a method
    starts from the parsed JSON. *)

(** [_load_recipes]: [self.recipes = json.load(f)].  [file] is the parsed
    content of the JSON file, a list of records; every record becomes a dict
    object of its own. *)
Definition _load_recipes (file : list dict) : M unit :=
  let* loaded := for_each file new_dict in
  let* s := get_self in
  set_self {| recipes := loaded; vectorizer := vectorizer s; tfidf_matrix := tfidf_matrix s |}.

(** [_build_index]: the searchable text of every recipe, a new vectorizer,
    and its [fit_transform]. *)
Definition _build_index `{TextPrims} `{NpArgsort} : M unit :=
  let* s := get_self in
  let* documents :=
    for_each (recipes s) (λ recipe,
      let* d := deref recipe in ret (dict_get d "searchable_text" (VStr ""))) in
  let* _ := set_self {| recipes := recipes s; vectorizer := Some Unfitted;
                        tfidf_matrix := tfidf_matrix s |} in
  let* fitted := lift (fit_transform documents) in
  set_self {| recipes := recipes s; vectorizer := Some (fst fitted);
              tfidf_matrix := Some (snd fitted) |}.

(** [__init__(recipes_path)] on a process whose objects are [h]. *)
Definition __init__ `{TextPrims} `{NpArgsort} (file : list dict) (h : heap)
  : outcome unit :=
  (let* _ := _load_recipes file in _build_index)
    {| self := {| recipes := []; vectorizer := None; tfidf_matrix := None |};
       objects := h |}.

(** The first two statements of [retrieve_recipes]: the query vector and its
    cosine similarity to every row of the index, flattened. *)
Definition query_similarities `{TextPrims} (s : RecipeRetriever) (query : string)
  : result (list R) :=
  match vectorizer s with
  | None => Raise (AttributeError "'NoneType' object has no attribute 'transform'")
  | Some v =>
      match transform v [VStr (str_lower query)] with
      | Raise e => Raise e
      | Ok query_vector =>
          match tfidf_matrix s with
          | None => Raise (ValueError "Expected 2D array, got scalar array instead")
          | Some X =>
              match cosine_similarity query_vector X with
              | Raise e => Raise e
              | Ok K => Ok (flatten K)
              end
          end
      end
  end.

(** [retrieve_recipes(query, k)] *)
Definition retrieve_recipes `{TextPrims} `{NpArgsort} (query : string) (k : Z)
  : M (list loc) :=
  let* s := get_self in
  let* similarities := lift (query_similarities s query) in
  for_each (top_k_indices similarities k) (λ idx,
    let* stored := lift (list_getitem (recipes s) idx) in
    let* recipe := dict_copy stored in
    let* _ := dict_setitem recipe "relevance_score" (VFloat (key similarities idx)) in
    ret recipe).

(** The [relevance_score] of a returned record. *)
Definition relevance_score (h : heap) (l : loc) : option value :=
  d ← h !! l; d !! "relevance_score".

(** What a caller reads in the returned list: the records, in order. *)
Definition contents (h : heap) (results : list loc) : list (option dict) :=
  map (λ l, h !! l) results.

(** The state a method leaves behind, whichever way it ends. *)
Definition final_state {A} (o : outcome A) : state :=
  match o with
  | Return _ st => st
  | Throw _ st => st
  end.

(** [m] touches nothing that exists: run from any state, it leaves the
    retriever's attributes as they were and every object with its content. *)
Definition frame_preserving {A} (m : M A) : Prop :=
  ∀ st, self (final_state (m st)) = self st ∧
        objects st ⊆ objects (final_state (m st)).

(** What [__init__] establishes (lemma [__init___ok]) and every later call
    relies on: a fitted vectorizer, an index with one row per stored recipe
    and one column per vocabulary entry, and every stored recipe an object of
    the heap. *)
Definition retriever_ok (st : state) : Prop :=
  ∃ vocabulary_ idf_ X,
    vectorizer (self st) = Some (Fitted vocabulary_ idf_) ∧
    tfidf_matrix (self st) = Some X ∧
    shape1 X = size vocabulary_ ∧ 0 < shape1 X ∧
    shape0 X = length (recipes (self st)) ∧ 0 < shape0 X ∧
    ∀ l, l ∈ recipes (self st) → is_Some (objects st !! l).

(** The number of stored recipes. *)
Definition corpus_size (st : state) : nat := length (recipes (self st)).

(** The terms of a query, as the vectorizer sees them inside [retrieve_recipes]. *)
Definition query_terms `{TextPrims} (query : string) : list string :=
  analyzer (str_lower query).

(** What one returned record is: a new object, the copy of the stored recipe
    at position [idx] with its score added. *)
Definition scored_copy_of (s : RecipeRetriever) (similarities : list R)
    (before after : heap) (idx : nat) (l : loc) : Prop :=
  ∃ src d,
    recipes s !! idx = Some src ∧
    before !! src = Some d ∧
    before !! l = None ∧
    after !! l = Some (<["relevance_score" := VFloat (key similarities idx)]> d).

(** Two ranked documents with equal scores stand in document-store order. *)
Definition ties_in_store_order (similarities : list R) (ranked : list nat) : Prop :=
  ∀ p q i j, p < q → ranked !! p = Some i → ranked !! q = Some j →
             key similarities i = key similarities j → i < j.

(** [x] stands before [y] in the list [a]. *)
Definition precedes {A} (a : list A) (x y : A) : Prop :=
  ∃ p q, p < q ∧ a !! p = Some x ∧ a !! q = Some y.

(** The vocabulary of the fitted vectorizer. *)
Definition fitted_vocabulary (s : RecipeRetriever) : gmap string nat :=
  match vectorizer s with
  | Some (Fitted vocabulary_ _) => vocabulary_
  | _ => ∅
  end.

(** A stored recipe whose searchable text leaves no token once the stop
    words are filtered out (an absent text is the empty string). *)
Definition empty_after_filtering `{TextPrims} (recipe : dict) : Prop :=
  ∃ text,
    dict_get recipe "searchable_text" (VStr "") = VStr text ∧
    filter (λ w, w ∉ ENGLISH_STOP_WORDS) (tokenize (str_lower text)) = [].

(** What scikit-learn raises when no vocabulary can be formed, and
    [_build_index] lets through. *)
Definition empty_vocabulary_error : exn :=
  ValueError "empty vocabulary; perhaps the documents only contain stop words".

(** ** evaluate_retrieval.py *)

(** [np.log2] *)
Definition log2 (x : R) : R := (ln x / ln 2)%R.

(** [range(lo, hi)] *)
Definition py_range (lo hi : Z) : list Z :=
  map (λ i, (lo + Z.of_nat i)%Z) (seq 0 (Z.to_nat (hi - lo))).

(** [a / b] on two [int]s: true division, which raises on a zero divisor. *)
Definition truediv (a b : nat) : result R :=
  if decide (b = 0) then Raise ZeroDivisionError else Ok (INR a / INR b)%R.

Section Metrics.
Context `{Countable Id}.

(** The loop over [enumerate(retrieved_k, 1)]: a relevant item at rank [i]
    adds [1 / log2(i + 1)]. *)
Definition dcg_at_k (relevant_items : gset Id) (retrieved_items : list Id) (k : Z) : R :=
  let retrieved_k := Py.slice_to retrieved_items k in
  foldl (λ dcg '(i, item_id),
           if decide (item_id ∈ relevant_items)
           then (dcg + 1 / log2 (INR (i + 1)))%R
           else dcg)
        0%R (Py.enumerate retrieved_k 1).

(** [sum(1.0 / np.log2(i + 1) for i in range(1, num_relevant + 1))] *)
Definition idcg_at_k (relevant_items : gset Id) (k : Z) : R :=
  let num_relevant := Z.min (Z.of_nat (size relevant_items)) k in
  foldl Rplus 0%R
        (map (λ i, (1 / log2 (IZR (i + 1)))%R) (py_range 1 (num_relevant + 1))).

Definition calculate_ndcg_at_k (relevant_items : gset Id) (retrieved_items : list Id)
    (k : Z) : R :=
  let dcg := dcg_at_k relevant_items retrieved_items k in
  let idcg := idcg_at_k relevant_items k in
  if Req_dec_T idcg 0 then 0%R else (dcg / idcg)%R.

Definition calculate_recall_at_k (relevant_items : gset Id) (retrieved_items : list Id)
    (k : Z) : result R :=
  if decide (size relevant_items = 0) then Ok 0%R
  else
    let retrieved_k : gset Id := list_to_set (Py.slice_to retrieved_items k) in
    let retrieved_relevant := size (relevant_items ∩ retrieved_k) in
    truediv retrieved_relevant (size relevant_items).

(** The relevant items found among the first [k] retrieved ones. *)
Definition relevant_in_top_k (relevant_items : gset Id) (retrieved_items : list Id)
    (k : Z) : gset Id :=
  filter (λ x, x ∈ Py.slice_to retrieved_items k) relevant_items.

End Metrics.

(** ** prepare_data.py: the health category *)

(** A bin edge: a number or [float('inf')]. *)
Inductive edge :=
  | Finite (r : R)
  | PosInf.

Definition edge_below (x : R) (b : edge) : Prop :=
  match b with
  | Finite r => (r < x)%R
  | PosInf => False
  end.

#[local] Instance edge_below_dec x b : Decision (edge_below x b).
Proof. destruct b; simpl; [apply Rlt_dec | right; tauto]. Defined.

(** [bins.searchsorted(x, side='left')] on ascending [bins]: the number of
    edges strictly below [x]. *)
Definition searchsorted_left (bins : list edge) (x : R) : nat :=
  length (filter (edge_below x) bins).

(** [pd.cut(x, bins, labels=labels)] on one cell, with the defaults
    [right=True], [include_lowest=False]: the cell is missing when the value is
    missing or falls in no bin, and else takes the label of its bin.  [None]
    is pandas' NaN. *)
Definition cut (x : option R) (bins : list edge) (labels : list string) : option string :=
  match x with
  | None => None
  | Some v =>
      let ids := searchsorted_left bins v in
      if decide (ids = length bins ∨ ids = 0) then None
      else labels !! (ids - 1)
  end.

(** [df_processed['health_category']] of a row, from its [calories]. *)
Definition health_category (calories : option R) : option string :=
  cut calories
      [Finite 0; Finite 200; Finite 400; Finite 600; PosInf]
      ["low_calorie"; "moderate"; "high_calorie"; "very_high_calorie"].

(** The buckets as the specification words them: closed on the left. *)
Definition left_closed_buckets : Prop :=
  ∀ c : R,
    ((0 <= c < 200)%R → health_category (Some c) = Some "low_calorie") ∧
    ((200 <= c < 400)%R → health_category (Some c) = Some "moderate") ∧
    ((400 <= c < 600)%R → health_category (Some c) = Some "high_calorie") ∧
    ((600 <= c)%R → health_category (Some c) = Some "very_high_calorie").

(** ** retrieval.py: the module-level function and the terms of a recipe *)

Module Standalone.

(** [retrieve_recipes(query, k, recipes_path)]: a new retriever on the file,
    then its method. *)
Definition retrieve_recipes `{TextPrims} `{NpArgsort} (query : string) (k : Z)
    (file : list dict) (h : heap) : outcome (list loc) :=
  match __init__ file h with
  | Throw e st => Throw e st
  | Return _ st => retrieve_recipes query k st
  end.

End Standalone.

(** The analysed terms of a recipe's searchable text. *)
Definition recipe_terms `{TextPrims} (recipe : dict) : list string :=
  match dict_get recipe "searchable_text" (VStr "") with
  | VStr text => analyzer text
  | _ => []
  end.

(** The number of recipes of a file in which a term occurs. *)
Definition recipes_with_term `{TextPrims} (file : list dict) (t : string) : nat :=
  length (filter (λ recipe, t ∈ recipe_terms recipe) file).

(** The squared length of a vector. *)
Definition sum_squares (x : list R) : R := Rsum (map (λ w, w * w)%R x).

(** No component is negative. *)
Definition non_negative (x : list R) : Prop := Forall (λ w, 0 <= w)%R x.

(** The weights and the index that [fit_transform] returns are not negative. *)
Definition index_non_negative (s : RecipeRetriever) : Prop :=
  ∃ vocabulary_ idf_ X,
    vectorizer s = Some (Fitted vocabulary_ idf_) ∧ tfidf_matrix s = Some X ∧
    non_negative idf_ ∧ Forall non_negative (rows X).

(** ** evaluate_retrieval.py: the gains of a ranking *)

(** The gain of a relevant item at rank [i]: [1 / np.log2(i + 1)]. *)
Definition discount (i : nat) : R := (1 / log2 (INR (i + 1)))%R.

(** The gains that the loop of [calculate_ndcg_at_k] adds, rank by rank,
    from rank [s] on. *)
Definition gains `{Countable Id} (relevant_items : gset Id) (s : nat) (items : list Id)
  : list R :=
  map (λ '(i, item_id), if decide (item_id ∈ relevant_items) then discount i else 0%R)
      (zip (seq s (length items)) items).

(** ** Exceptions of the scripts

    The evaluation and conversation code can raise two exceptions that the
    retriever does not. *)

Inductive py_error :=
  | KeyError (key : string)
  | TypeError (msg : string)
  | Raised (e : exn).

Inductive attempt (A : Type) :=
  | Done (a : A)
  | Failed (e : py_error).
Arguments Done {A} a.
Arguments Failed {A} e.

(** ** Python strings

    [str.split()] without argument, [str.strip()], [str(v)] (which an
    f-string and [astype(str)] apply to a value) and the parsing of a number
    from text.  [str] of a [str] is the string itself. *)

Class PyStr := {
  str_split : string → list string;
  str_strip : string → string;
  py_str : value → string;
  parse_float : string → option R;
  py_str_str : ∀ s, py_str (VStr s) = s
}.

(** [needle in haystack] on two strings *)
Fixpoint str_contains (needle haystack : string) : bool :=
  String.prefix needle haystack ||
  match haystack with
  | EmptyString => false
  | String _ rest => str_contains needle rest
  end.

(** [sep.join(parts)] *)
Fixpoint str_join (sep : string) (parts : list string) : string :=
  match parts with
  | [] => ""
  | [p] => p
  | p :: rest => p +:+ sep +:+ str_join sep rest
  end.

(** [d[key]] *)
Definition dict_getitem (d : dict) (k : string) : attempt value :=
  match d !! k with
  | Some v => Done v
  | None => Failed (KeyError k)
  end.

(** [v >= threshold] for a float [threshold]: numbers compare by value, a
    [bool] as 0 or 1, and [None] or a [str] raise. *)
Definition ge_float (v : value) (threshold : R) : attempt bool :=
  match v with
  | VFloat r => Done (if Rle_dec threshold r then true else false)
  | VInt z => Done (if Rle_dec threshold (IZR z) then true else false)
  | VBool b => Done (if Rle_dec threshold (if b then 1 else 0) then true else false)
  | VNull => Failed (TypeError "'>=' not supported between instances of 'NoneType' and 'float'")
  | VStr _ => Failed (TypeError "'>=' not supported between instances of 'str' and 'float'")
  end.

(** ** evaluate_retrieval.py: the relevance heuristic *)

Definition stop_words : gset string :=
  {["a"; "an"; "the"; "me"; "show"; "give"; "list"; "what"; "is"; "with"; "for"]}.

Section Relevance.
Context `{TextPrims} `{PyStr}.

(** [set(query.lower().split()) - stop_words] *)
Definition keywords (query : string) : gset string :=
  list_to_set (str_split (str_lower query)) ∖ stop_words.

(** [f"{recipe.get('title', '')} {recipe.get('tags', '')}".lower()] *)
Definition recipe_text (recipe : dict) : string :=
  str_lower (py_str (dict_get recipe "title" (VStr "")) +:+ " "
             +:+ py_str (dict_get recipe "tags" (VStr ""))).

(** [sum(1 for kw in keywords if kw in recipe_text)] *)
Definition matches (keywords : gset string) (recipe_text : string) : nat :=
  size (filter (λ kw, str_contains kw recipe_text = true) keywords).

(** A recipe that the heuristic counts as relevant: a keyword of the query
    occurs in its title or tags, and its score reaches the threshold. *)
Definition counted_relevant (keywords : gset string) (threshold : R) (recipe : dict)
  : Prop :=
  0 < matches keywords (recipe_text recipe) ∧
  ge_float (dict_get recipe "relevance_score" (VInt 0)) threshold = Done true.

(** The element that a recipe id is in a [set]: Python compares the elements
    of a set with [==], under which [1], [1.0] and [True] are one element. *)
Context `{Countable Id} (set_key : value → Id).

(** The loop over [recipes], from the set [relevant] collected so far.  The
    [and] evaluates the score only for a recipe that matches, and the id is
    read only for a recipe that passes both tests. *)
Fixpoint relevant_loop (keywords : gset string) (threshold : R) (recipes : list dict)
    (relevant : gset Id) : attempt (gset Id) :=
  match recipes with
  | [] => Done relevant
  | recipe :: rest =>
      if decide (0 < matches keywords (recipe_text recipe)) then
        match ge_float (dict_get recipe "relevance_score" (VInt 0)) threshold with
        | Failed e => Failed e
        | Done false => relevant_loop keywords threshold rest relevant
        | Done true =>
            match dict_getitem recipe "recipe_id" with
            | Failed e => Failed e
            | Done v => relevant_loop keywords threshold rest ({[set_key v]} ∪ relevant)
            end
        end
      else relevant_loop keywords threshold rest relevant
  end.

(** [identify_relevant_recipes(query, recipes, threshold)] *)
Definition identify_relevant_recipes (query : string) (recipes : list dict)
    (threshold : R) : attempt (gset Id) :=
  relevant_loop (keywords query) threshold recipes ∅.

(** [[r['recipe_id'] for r in retrieved_recipes]] *)
Fixpoint retrieved_ids (retrieved_recipes : list dict) : attempt (list Id) :=
  match retrieved_recipes with
  | [] => Done []
  | r :: rest =>
      match dict_getitem r "recipe_id" with
      | Failed e => Failed e
      | Done v => match retrieved_ids rest with
                  | Failed e => Failed e
                  | Done ids => Done (set_key v :: ids)
                  end
      end
  end.

(** One turn of the loop of [evaluate_retrieval_performance], for a test
    result with its [query] and [retrieved_recipes]: the NDCG and the recall
    that are appended to the scores, or [None] when the query is skipped
    ([continue]).  The threshold is the default, 0.15. *)
Definition query_scores (query : string) (retrieved_recipes : list dict) (k : Z)
  : attempt (option (R * R)) :=
  match retrieved_ids retrieved_recipes with
  | Failed e => Failed e
  | Done ids =>
      match identify_relevant_recipes query retrieved_recipes 0.15 with
      | Failed e => Failed e
      | Done relevant_ids =>
          if decide (0 < size relevant_ids) then
            let ndcg := calculate_ndcg_at_k relevant_ids ids k in
            match calculate_recall_at_k relevant_ids ids k with
            | Raise e => Failed (Raised e)
            | Ok recall => Done (Some (ndcg, recall))
            end
          else Done None
      end
  end.

End Relevance.

(** ** prepare_data.py: preprocessing

    A data frame is its column labels and its rows, a row holding a cell for
    every column; a missing cell, pandas' NaN, is [VNull].  The reading of
    the CSV file and the random sample are left out. *)

Record DataFrame := {
  columns : list string;
  records : list dict
}.

Definition field_mapping : list (string * list string) :=
  [("recipe_id", ["recipe_id"; "RecipeId"; "id"]);
   ("title", ["title"; "Name"; "RecipeName"]);
   ("tags", ["tags"; "Tags"; "RecipeCategory"]);
   ("ingredients", ["ingredients"; "Ingredients"; "RecipeIngredientParts"]);
   ("duration", ["duration"; "TotalTime"; "CookTime"; "PrepTime"]);
   ("calories", ["calories"; "Calories"; "calories [cal]"]);
   ("protein", ["protein"; "Protein"; "ProteinContent"]);
   ("sugars", ["sugars"; "Sugar"; "SugarContent"]);
   ("sodium", ["sodium"; "Sodium"; "SodiumContent"])].

(** The loop that fills [selected_cols]: for every field, the first of its
    possible names that is a column. *)
Definition selected_cols (available_cols : list string) : list (string * string) :=
  omap (λ '(field, possible_names),
          match filter (λ name, name ∈ available_cols) possible_names with
          | name :: _ => Some (field, name)
          | [] => None
          end) field_mapping.

Definition text_fields : list string := ["title"; "tags"; "ingredients"].

Definition numeric_fields : list string :=
  ["calories"; "protein"; "sugars"; "sodium"; "duration"].

Definition essential_cols : list string := ["recipe_id"; "title"].

(** [pd.isna] on a cell *)
Definition isna (cell : value) : bool :=
  match cell with VNull => true | _ => false end.

(** The number that a numeric cell holds, for [pd.cut]. *)
Definition as_number (cell : value) : option R :=
  match cell with
  | VInt z => Some (IZR z)
  | VFloat r => Some r
  | VBool b => Some (if b then 1 else 0)%R
  | _ => None
  end.

(** [series.fillna('')] on one cell *)
Definition fillna_empty (cell : value) : value :=
  match cell with VNull => VStr "" | v => v end.

Section Prepare.
Context `{TextPrims} `{PyStr}.

(** [series.fillna('').astype(str).str.lower().str.strip()] on one cell *)
Definition clean_text (cell : value) : value :=
  VStr (str_strip (str_lower (py_str (fillna_empty cell)))).

(** [pd.to_numeric(series, errors='coerce')] on one cell: text that is no
    number becomes NaN. *)
Definition to_numeric (cell : value) : value :=
  match cell with
  | VStr s => match parse_float s with Some r => VFloat r | None => VNull end
  | v => v
  end.

(** One row of [df_processed] before [dropna]: the selected columns under
    their standard names, the text fields cleaned, the numeric fields
    converted, and the health category when there are calories. *)
Definition preprocess_row (selected : list (string * string)) (row : dict) : dict :=
  let copied : dict :=
    (λ actual_name, dict_get row actual_name VNull) <$> list_to_map selected in
  let cleaned := foldr (λ field d, alter clean_text field d) copied text_fields in
  let numeric := foldr (λ field d, alter to_numeric field d) cleaned numeric_fields in
  if decide ("calories" ∈ selected.*1) then
    <["health_category" :=
        match health_category (as_number (dict_get numeric "calories" VNull)) with
        | Some label => VStr label
        | None => VNull
        end]> numeric
  else numeric.

(** [df.dropna(subset=subset)] *)
Definition dropna (subset : list string) (rows : list dict) : list dict :=
  filter (λ row, Forall (λ col, isna (dict_get row col VNull) = false) subset) rows.

(** [preprocess_recipes(df)].  A frame to which no column is assigned has no
    row. *)
Definition preprocess_recipes (df : DataFrame) : DataFrame :=
  let selected := selected_cols (columns df) in
  match selected with
  | [] => {| columns := []; records := [] |}
  | _ =>
      {| columns := selected.*1 ++
                    (if decide ("calories" ∈ selected.*1) then ["health_category"] else []);
         records := dropna (filter (λ col, col ∈ selected.*1) essential_cols)
                           (map (preprocess_row selected) (records df)) |}
  end.

(** [create_recipe_text(row)] *)
Definition create_recipe_text (row : dict) : string :=
  let part (field : string) : list string :=
    match row !! field with
    | Some cell => if isna cell then [] else [py_str cell]
    | None => []
    end in
  str_join " " (part "title" ++ part "tags" ++ part "ingredients").

(** [save_recipes(df, output_path)]: the records that are written to the
    file and returned.  Printing the sample [recipes[0]] raises on an empty
    list. *)
Definition save_recipes (df : DataFrame) : result (list dict) :=
  let recipes :=
    map (λ row, <["searchable_text" := VStr (create_recipe_text row)]> row) (records df) in
  match recipes with
  | [] => Raise IndexError
  | _ => Ok recipes
  end.

(** The column that holds the recipe ids, when there is one. *)
Definition recipe_id_column (df : DataFrame) : option string :=
  (list_to_map (selected_cols (columns df)) : gmap string string) !! "recipe_id".

(** The row has a recipe id, or the frame has no column of recipe ids. *)
Definition has_recipe_id (df : DataFrame) (row : dict) : bool :=
  match recipe_id_column df with
  | Some actual_name => negb (isna (dict_get row actual_name VNull))
  | None => true
  end.

(** The text that a processed row holds in a text column that was selected:
    the cleaned cell, which for a missing cell is the empty string, cleaned. *)
Definition cleaned_cell (selected : list (string * string)) (row : dict) (field : string)
  : option string :=
  actual_name ← (list_to_map selected : gmap string string) !! field;
  Some (str_strip (str_lower (py_str (fillna_empty (dict_get row actual_name VNull))))).

End Prepare.

(** ** conversation_handler.py

    The assistant keeps the last query, the last results and a history.  The
    RAG pipeline behind it calls a language model: it is an interface here,
    [answer_query] running from a state of the pipeline to a new one, and
    failing or returning the answer with the retrieved recipes. *)

Definition clarification_keywords : list string :=
  ["shorter"; "longer"; "faster"; "slower";
   "healthier"; "less healthy"; "more calories"; "fewer calories";
   "with chicken"; "with beef"; "with fish"; "with vegetables";
   "without"; "instead"; "different"; "another";
   "simpler"; "easier"; "harder";
   "vegan"; "vegetarian"; "gluten-free"].

(** The entries of the result of [answer_query] that [ask] reads. *)
Record rag_result := {
  answer : string;
  retrieved_recipes : list dict
}.

(** An entry of [conversation_history]. *)
Record turn := {
  user_input : string;
  actual_query : string;
  turn_answer : string;
  num_recipes : nat
}.

Section Conversation.
Context `{TextPrims} `{PyStr}.

(** [_is_clarification(query)] *)
Definition _is_clarification (query : string) : bool :=
  let query_lower := str_lower query in
  existsb (λ keyword, str_contains keyword query_lower) clarification_keywords
  || (length (str_split query) <=? 3).

(** [_build_clarified_query(original_query, clarification)] *)
Definition _build_clarified_query (original_query clarification : string) : string :=
  let clarification_lower := str_lower clarification in
  let has (word : string) := str_contains word clarification_lower in
  if has "instead" || has "with" then
    original_query +:+ ", but " +:+ clarification
  else if existsb has ["shorter"; "faster"; "quicker"] then
    original_query +:+ " that takes less time"
  else if existsb has ["longer"; "slower"] then
    original_query +:+ " that takes more time"
  else if has "healthier" || has "healthy" then
    original_query +:+ " that is healthier"
  else if has "calorie" then
    if has "fewer" || has "less" || has "low" then
      original_query +:+ " with fewer calories"
    else
      original_query +:+ " with more calories"
  else
    original_query +:+ ", " +:+ clarification.

Context {Rag : Type} (answer_query : string → Z → Rag → Rag * attempt rag_result).

Record ConversationalRecipeAssistant := {
  rag : Rag;
  last_query : option string;
  last_results : option (list dict);
  conversation_history : list turn
}.

(** [__init__], from the pipeline it builds. *)
Definition new_assistant (pipeline : Rag) : ConversationalRecipeAssistant :=
  {| rag := pipeline; last_query := None; last_results := None;
     conversation_history := [] |}.

(** The query that [ask] sends to the pipeline.  In
    [self.last_query and ...], [None] and the empty string are false. *)
Definition actual_query_of (a : ConversationalRecipeAssistant) (query : string) : string :=
  match last_query a with
  | Some previous =>
      if negb (String.eqb previous "") && _is_clarification query
      then _build_clarified_query previous query
      else query
  | None => query
  end.

(** [ask(query, k)]: an exception of the pipeline leaves the attributes of
    the assistant as they were. *)
Definition ask (query : string) (k : Z) (a : ConversationalRecipeAssistant)
  : ConversationalRecipeAssistant * attempt rag_result :=
  let actual := actual_query_of a query in
  match answer_query actual k (rag a) with
  | (pipeline, Failed e) =>
      ({| rag := pipeline; last_query := last_query a; last_results := last_results a;
          conversation_history := conversation_history a |}, Failed e)
  | (pipeline, Done result) =>
      ({| rag := pipeline;
          last_query := Some actual;
          last_results := Some (retrieved_recipes result);
          conversation_history :=
            conversation_history a ++
            [{| user_input := query; actual_query := actual;
                turn_answer := answer result;
                num_recipes := length (retrieved_recipes result) |}] |},
       Done result)
  end.

(** [reset()] *)
Definition reset (a : ConversationalRecipeAssistant) : ConversationalRecipeAssistant :=
  {| rag := rag a; last_query := None; last_results := None;
     conversation_history := conversation_history a |}.

(** The states that an assistant goes through. *)
Inductive reachable : ConversationalRecipeAssistant → Prop :=
  | reachable_new pipeline : reachable (new_assistant pipeline)
  | reachable_ask a query k : reachable a → reachable (ask query k a).1
  | reachable_reset a : reachable a → reachable (reset a).

End Conversation.

(** ** A concrete corpus

    The three recipes of the specification's scenario, an ASCII reading of the
    text primitives, and the state [__init__] reaches on them. *)

Definition ascii_lower (c : Ascii.ascii) : Ascii.ascii :=
  let n := Ascii.nat_of_ascii c in
  if (65 <=? n) && (n <=? 90) then Ascii.ascii_of_nat (n + 32) else c.

Fixpoint lower (s : string) : string :=
  match s with
  | EmptyString => EmptyString
  | String c rest => String (ascii_lower c) (lower rest)
  end.

Definition is_word_char (c : Ascii.ascii) : bool :=
  let n := Ascii.nat_of_ascii c in
  ((48 <=? n) && (n <=? 57)) || ((65 <=? n) && (n <=? 90))
  || ((97 <=? n) && (n <=? 122)) || (n =? 95).

(** The maximal runs of word characters; [run] is the one being read. *)
Fixpoint word_runs (s : string) (run : string) : list string :=
  match s with
  | EmptyString => [run]
  | String c rest =>
      if is_word_char c then word_runs rest (run +:+ String c EmptyString)
      else run :: word_runs rest EmptyString
  end.

(** Runs of two word characters or more. *)
Definition word_tokens (s : string) : list string :=
  filter (λ w, 2 ≤ String.length w) (word_runs s EmptyString).

Definition ascii_text : TextPrims :=
  {| str_lower := lower;
     tokenize := word_tokens;
     ENGLISH_STOP_WORDS := {["the"; "and"; "with"; "for"; "of"]} |}.

Definition recipe_1 : dict :=
  {[ "recipe_id" := VInt 1; "title" := VStr "chicken pasta"; "tags" := VStr "quick dinner";
     "searchable_text" := VStr "chicken pasta quick dinner" ]}.

Definition recipe_2 : dict :=
  {[ "recipe_id" := VInt 2; "title" := VStr "vegan salad"; "tags" := VStr "healthy lunch";
     "searchable_text" := VStr "vegan salad healthy lunch" ]}.

Definition recipe_3 : dict :=
  {[ "recipe_id" := VInt 3; "title" := VStr "chicken soup"; "tags" := VStr "comfort food";
     "searchable_text" := VStr "chicken soup comfort food" ]}.

Definition demo_file : list dict := [recipe_1; recipe_2; recipe_3].

(** Only "chicken" occurs in two documents. *)
Definition demo_counts : list (list nat) := [[1]; [0]; [1]].

Definition demo_idf : list R := tfidf_fit demo_counts 1.

(** The state that [__init__] reaches on [demo_file] from an empty heap. *)
Definition demo_state : state :=
  {| self := {| recipes := [0; 1; 2];
                vectorizer := Some (Fitted {[ "chicken" := 0 ]} demo_idf);
                tfidf_matrix := Some (tfidf_transform 1 demo_idf demo_counts) |};
     objects := <[2 := recipe_3]> (<[1 := recipe_2]> (<[0 := recipe_1]> ∅)) |}.

(** ** Concrete strings, test results, data and pipeline

    An ASCII reading of the string primitives for the examples: [split] and
    [strip] on ASCII white space.  The examples format no float and parse no
    number from text, so [str] of a float and the parser are placeholders. *)

Fixpoint lstrip (s : string) : string :=
  match s with
  | EmptyString => EmptyString
  | String c rest => if Ascii.is_space c then lstrip rest else s
  end.

Definition strip (s : string) : string :=
  String.rev (lstrip (String.rev (lstrip s))).

Definition ascii_py_str (v : value) : string :=
  match v with
  | VNull => "None"
  | VBool true => "True"
  | VBool false => "False"
  | VInt z => NilZero.string_of_int (Z.to_int z)
  | VFloat _ => "0.0"
  | VStr s => s
  end.

Definition ascii_str : PyStr :=
  {| str_split := String.words;
     str_strip := strip;
     py_str := ascii_py_str;
     parse_float := λ _, None;
     py_str_str := λ s, eq_refl |}.

(** The set element of an id, for records whose ids are integers or
    strings. *)
Definition example_key (v : value) : Z + string :=
  match v with
  | VInt z => inl z
  | VBool b => inl (if b then 1 else 0)%Z
  | VStr s => inr s
  | _ => inr ""
  end.

(** What [retrieve_recipes("chicken", 3)] returns on the concrete corpus. *)
Definition demo_retrieved : list dict :=
  [ <["relevance_score" := VFloat 1]> recipe_3;
    <["relevance_score" := VFloat 1]> recipe_1;
    <["relevance_score" := VFloat 0]> recipe_2 ].

(** A frame of two rows: the first has no tags, the second no id. *)
Definition demo_frame : DataFrame :=
  {| columns := ["id"; "Name"; "Tags"];
     records :=
       [ {[ "id" := VStr "r1"; "Name" := VStr "  Chicken Pasta "; "Tags" := VNull ]};
         {[ "id" := VNull; "Name" := VStr "Soup"; "Tags" := VStr "Comfort" ]} ] |}.

(** A pipeline that answers with the query it is asked and retrieves
    nothing. *)
Definition echo_pipeline (query : string) (k : Z) (pipeline : unit)
  : unit * attempt rag_result :=
  (pipeline, Done {| answer := query; retrieved_recipes := [] |}).

(** An assistant that has answered "pasta". *)
Definition demo_assistant : ConversationalRecipeAssistant :=
  {| rag := (); last_query := Some "pasta"; last_results := Some [];
     conversation_history :=
       [{| user_input := "pasta"; actual_query := "pasta"; turn_answer := "pasta";
           num_recipes := 0 |}] |}.

(** * Properties *)

(** ** Sorted lists *)

Lemma elem_of_rev {A} (x : A) (l : list A) : x ∈ rev l ↔ x ∈ l.
Proof. rewrite !list_elem_of_In. symmetry. apply in_rev. Qed.

Lemma StronglySorted_weaken {A} (P Q : A → A → Prop) (l : list A) :
  (∀ x y, P x y → Q x y) → StronglySorted P l → StronglySorted Q l.
Proof.
  intros HPQ Hl. induction Hl as [|x l _ IH Hx]; constructor; [exact IH|].
  eapply Forall_impl; [exact Hx|]. intros y Hy. by apply HPQ.
Qed.

Lemma StronglySorted_rev {A} (P : A → A → Prop) (l : list A) :
  StronglySorted (flip P) l → StronglySorted P (rev l).
Proof.
  induction 1 as [|x l _ IH Hx]; simpl; [constructor|].
  apply StronglySorted_app_2; [|exact IH|repeat constructor].
  intros y z Hy Hz. rewrite elem_of_rev in Hy.
  apply list_elem_of_singleton in Hz as ->.
  rewrite Forall_forall in Hx. by apply Hx.
Qed.

Lemma StronglySorted_map {A B} (f : A → B) (P : A → A → Prop) (Q : B → B → Prop) l :
  (∀ x y, P x y → Q (f x) (f y)) → StronglySorted P l → StronglySorted Q (map f l).
Proof.
  intros HPQ Hl. induction Hl as [|x l _ IH Hx]; simpl; constructor; [exact IH|].
  rewrite Forall_map. eapply Forall_impl; [exact Hx|]. intros y Hy. by apply HPQ.
Qed.

Lemma StronglySorted_drop {A} (P : A → A → Prop) (n : nat) (l : list A) :
  StronglySorted P l → StronglySorted P (drop n l).
Proof.
  intros Hl. rewrite <- (take_drop n l) in Hl.
  by apply StronglySorted_app_1_r in Hl.
Qed.

Lemma list_lookup_map {A B} (f : A → B) (l : list A) (i : nat) :
  map f l !! i = f <$> (l !! i).
Proof. revert i. induction l as [|x l IH]; intros [|i]; simpl; auto. Qed.

Lemma elem_of_drop_1 {A} (x : A) (n : nat) (l : list A) : x ∈ drop n l → x ∈ l.
Proof. intros Hx. rewrite <- (take_drop n l). apply elem_of_app. by right. Qed.

(** Position by position reading of a sorted list. *)
Lemma StronglySorted_lookup {A} (P : A → A → Prop) (l : list A) p q x y :
  StronglySorted P l → p < q → l !! p = Some x → l !! q = Some y → P x y.
Proof.
  intros Hl. revert p q. induction Hl as [|z l _ IH Hz]; intros p q Hpq Hp Hq.
  - by rewrite lookup_nil in Hp.
  - destruct q as [|q]; [lia|]. destruct p as [|p]; simpl in *.
    + injection Hp as ->. rewrite Forall_forall in Hz.
      apply Hz. by eapply list_elem_of_lookup_2.
    + eapply (IH p q); [lia|done..].
Qed.

(** ** The insertion [argsort] *)

Lemma precedes_rev {A} (l : list A) x y : precedes l x y → precedes (rev l) y x.
Proof.
  intros (p & q & Hpq & Hp & Hq).
  pose proof (lookup_lt_Some _ _ _ Hp). pose proof (lookup_lt_Some _ _ _ Hq).
  exists (length l - S q), (length l - S p). split; [lia|].
  rewrite rev_alt. change (rev_append l []) with (reverse l).
  rewrite !reverse_lookup by lia.
  replace (length l - S (length l - S q)) with q by lia.
  by replace (length l - S (length l - S p)) with p by lia.
Qed.

Lemma precedes_app_r {A} (a b : list A) x y : precedes b x y → precedes (a ++ b) x y.
Proof.
  intros (p & q & Hpq & Hp & Hq). exists (length a + p), (length a + q).
  split; [lia|]. by rewrite !lookup_app_r, !Nat.add_sub' by lia.
Qed.

Lemma precedes_app {A} (a b : list A) x y : x ∈ a → y ∈ b → precedes (a ++ b) x y.
Proof.
  intros [p Hp]%list_elem_of_lookup [q Hq]%list_elem_of_lookup.
  pose proof (lookup_lt_Some _ _ _ Hp).
  exists p, (length a + q). split; [lia|]. split.
  - by rewrite lookup_app_l.
  - by rewrite lookup_app_r, Nat.add_sub' by lia.
Qed.

Lemma lex_lt_trans a i j l : lex_lt a i j → lex_lt a j l → lex_lt a i l.
Proof.
  unfold lex_lt. intros [?|[? ?]] [?|[? ?]]; first [left; lra | right; split; [lra|lia]].
Qed.

Lemma lex_lt_le a i j : lex_lt a i j → (key a i <= key a j)%R.
Proof. unfold lex_lt. intros [?|[? ?]]; lra. Qed.

Lemma insert_back_perm v vi l : insert_back v vi l ≡ₚ vi :: l.
Proof.
  induction l as [|pk rest IH]; simpl; [done|].
  destruct (Rlt_dec _ _); [|done].
  rewrite IH. apply perm_swap.
Qed.

Lemma insert_back_sorted v vi l :
  StronglySorted (flip (lex_lt v)) l →
  Forall (λ j, j < vi) l →
  StronglySorted (flip (lex_lt v)) (insert_back v vi l).
Proof.
  induction 1 as [|pk rest Hrest IH Hpk]; intros Hlt; simpl.
  - repeat constructor.
  - apply Forall_cons in Hlt as [Hpkvi Hlt].
    destruct (Rlt_dec (key v vi) (key v pk)) as [Hk|Hk].
    + constructor; [by apply IH|].
      rewrite insert_back_perm. constructor; [by left|done].
    + assert (lex_lt v pk vi) as Hpv.
      { unfold lex_lt. destruct (Rle_lt_or_eq_dec (key v pk) (key v vi)); [lra|by left|by right]. }
      constructor; [by constructor|].
      constructor; [done|].
      eapply Forall_impl; [exact Hpk|]. intros x Hx. unfold flip in *.
      by eapply lex_lt_trans.
Qed.

Lemma insertion_loop_perm v xs acc :
  foldl (λ prefix_rev vi, insert_back v vi prefix_rev) acc xs ≡ₚ xs ++ acc.
Proof.
  revert acc. induction xs as [|x xs IH]; intros acc; simpl; [done|].
  rewrite IH, insert_back_perm. by rewrite Permutation_middle.
Qed.

Lemma insertion_loop_sorted v n s acc :
  StronglySorted (flip (lex_lt v)) acc →
  Forall (λ j, j < s) acc →
  StronglySorted (flip (lex_lt v))
    (foldl (λ prefix_rev vi, insert_back v vi prefix_rev) acc (seq s n)).
Proof.
  revert s acc. induction n as [|n IH]; intros s acc Hs Hlt; simpl; [done|].
  apply IH; [by apply insert_back_sorted|].
  rewrite insert_back_perm. constructor; [lia|].
  eapply Forall_impl; [exact Hlt|]. simpl. lia.
Qed.

Lemma insertion_argsort_perm v : insertion_argsort v ≡ₚ seq 0 (length v).
Proof.
  unfold insertion_argsort. rewrite <- Permutation_rev, insertion_loop_perm.
  by rewrite app_nil_r.
Qed.

Lemma insertion_argsort_lex v : StronglySorted (lex_lt v) (insertion_argsort v).
Proof.
  apply StronglySorted_rev, insertion_loop_sorted; constructor.
Qed.

Lemma insertion_argsort_ascending v :
  StronglySorted (λ i j, (key v i <= key v j)%R) (insertion_argsort v).
Proof.
  eapply StronglySorted_weaken; [|apply insertion_argsort_lex].
  intros i j. apply lex_lt_le.
Qed.

(** The insertion sort as an [argsort]. *)
Definition insertion : NpArgsort :=
  {| np_argsort := insertion_argsort;
     np_argsort_perm := insertion_argsort_perm;
     np_argsort_ascending := insertion_argsort_ascending |}.

(** ** Slices and the ranking *)

Lemma slice_from_length {A} (a : list A) (start : Z) :
  Z.of_nat (length (Py.slice_from a start)) =
  (if (start <? 0)%Z then Z.min (- start) (Z.of_nat (length a))
   else Z.max 0 (Z.of_nat (length a) - start))%Z.
Proof.
  unfold Py.slice_from. rewrite length_drop.
  destruct (start <? 0)%Z eqn:E; [apply Z.ltb_lt in E | apply Z.ltb_ge in E]; lia.
Qed.

Lemma slice_to_nonneg {A} (a : list A) (stop : Z) :
  (0 <= stop)%Z → Py.slice_to a stop = take (Z.to_nat stop) a.
Proof.
  intros Hk. unfold Py.slice_to.
  destruct (stop <? 0)%Z eqn:E; [apply Z.ltb_lt in E; lia|].
  destruct (decide (stop <= Z.of_nat (length a))%Z).
  - by rewrite Z.min_l.
  - rewrite Z.min_r, Nat2Z.id by lia. rewrite !take_ge; [done|lia..].
Qed.

Section Ranking.
Context `{NpArgsort}.

Lemma np_argsort_length a : length (np_argsort a) = length a.
Proof. by rewrite np_argsort_perm, length_seq. Qed.

Lemma elem_of_np_argsort a i : i ∈ np_argsort a ↔ i < length a.
Proof. rewrite np_argsort_perm, elem_of_seq. lia. Qed.

Lemma top_k_indices_length similarities k :
  length (top_k_indices similarities k) =
  Z.to_nat (if (0 <? k)%Z then Z.min k (Z.of_nat (length similarities))
            else Z.max 0 (Z.of_nat (length similarities) + k))%Z.
Proof.
  unfold top_k_indices, Py.reversed. rewrite length_rev.
  apply Nat2Z.inj. rewrite slice_from_length, np_argsort_length.
  destruct (0 <? k)%Z eqn:E; [apply Z.ltb_lt in E | apply Z.ltb_ge in E];
    destruct (- k <? 0)%Z eqn:E'; try apply Z.ltb_lt in E'; try apply Z.ltb_ge in E'; lia.
Qed.

Lemma elem_of_top_k_indices similarities k i :
  i ∈ top_k_indices similarities k → i < length similarities.
Proof.
  unfold top_k_indices, Py.reversed, Py.slice_from. intros Hi.
  rewrite elem_of_rev in Hi.
  apply elem_of_np_argsort. eapply elem_of_drop_1, Hi.
Qed.

(** The ranking descends: an earlier entry has a score at least as high. *)
Lemma top_k_indices_descending similarities k :
  StronglySorted (λ i j, (key similarities j <= key similarities i)%R)
                 (top_k_indices similarities k).
Proof.
  unfold top_k_indices, Py.reversed, Py.slice_from.
  apply StronglySorted_rev, StronglySorted_drop.
  eapply StronglySorted_weaken; [|apply np_argsort_ascending]. done.
Qed.

(** A document outside the ranking scores no higher than any document in it. *)
Lemma top_k_indices_dominate similarities k i j :
  i < length similarities →
  i ∉ top_k_indices similarities k →
  j ∈ top_k_indices similarities k →
  (key similarities i <= key similarities j)%R.
Proof.
  unfold top_k_indices, Py.reversed, Py.slice_from. intros Hi Hout Hj.
  set (m := Z.to_nat _) in *.
  rewrite elem_of_rev in Hj.
  assert (i ∉ drop m (np_argsort similarities)) as Hout'.
  { intros Hin. apply Hout. by rewrite elem_of_rev. }
  apply elem_of_np_argsort in Hi.
  rewrite <- (take_drop m (np_argsort similarities)) in Hi.
  apply elem_of_app in Hi as [Hi|Hi]; [|done].
  pose proof (np_argsort_ascending similarities) as Hs.
  rewrite <- (take_drop m (np_argsort similarities)) in Hs.
  by apply (StronglySorted_app_1_elem_of _ _ _ _ _ Hs Hi Hj).
Qed.

(** The ranking is the end of the ascending order, read backwards. *)
Lemma top_k_indices_tail similarities k :
  ∃ dropped, np_argsort similarities = dropped ++ rev (top_k_indices similarities k).
Proof.
  unfold top_k_indices, Py.reversed, Py.slice_from.
  set (m := Z.to_nat _). exists (take m (np_argsort similarities)).
  by rewrite rev_involutive, take_drop.
Qed.

(** Two ranked documents stand in the reverse of the order that [argsort]
    gave them. *)
Lemma top_k_indices_reverses similarities k i j :
  precedes (top_k_indices similarities k) i j →
  precedes (np_argsort similarities) j i.
Proof.
  intros Hij. destruct (top_k_indices_tail similarities k) as [dropped ->].
  by apply precedes_app_r, precedes_rev.
Qed.

(** A document that is cut stands before every ranked one in the order that
    [argsort] gave. *)
Lemma top_k_indices_cut similarities k i j :
  i ∈ top_k_indices similarities k →
  j < length similarities →
  j ∉ top_k_indices similarities k →
  precedes (np_argsort similarities) j i.
Proof.
  intros Hi Hj Hout. apply elem_of_np_argsort in Hj.
  destruct (top_k_indices_tail similarities k) as [dropped Heq].
  rewrite Heq in Hj |- *.
  apply elem_of_app in Hj as [Hj|Hj]; [|by rewrite elem_of_rev in Hj].
  apply precedes_app; [done|by rewrite elem_of_rev].
Qed.

End Ranking.

(** ** All-zero vectors *)

Lemma Rsum_all_zero x : all_zero x → Rsum x = 0%R.
Proof. induction 1 as [|w x -> _ IH]; simpl; [done|]. rewrite IH. lra. Qed.

Lemma dot_all_zero_l x y : all_zero x → dot x y = 0%R.
Proof.
  intros Hx. unfold dot. apply Rsum_all_zero. revert y.
  induction Hx as [|w x -> _ IH]; intros [|v y]; simpl; try constructor.
  - lra.
  - apply IH.
Qed.

Lemma l2_normalize_row_all_zero x : all_zero x → all_zero (l2_normalize_row x).
Proof.
  intros Hx. unfold l2_normalize_row. destruct (Req_dec_T _ _); [done|].
  unfold all_zero. rewrite Forall_map. eapply Forall_impl; [exact Hx|].
  simpl. intros w ->. unfold Rdiv. lra.
Qed.

Lemma key_all_zero x i : all_zero x → key x i = 0%R.
Proof.
  unfold key. intros Hx. revert i.
  induction Hx as [|w x -> _ IH]; intros [|i]; simpl; auto.
Qed.

Lemma l2_normalize_row_all_zero_id x : all_zero x → l2_normalize_row x = x.
Proof.
  intros Hx. unfold l2_normalize_row. destruct (Req_dec_T _ _) as [_|Hne]; [done|].
  exfalso. apply Hne. apply Rsum_all_zero. unfold all_zero. rewrite Forall_map.
  eapply Forall_impl; [exact Hx|]. simpl. intros w ->. lra.
Qed.

Lemma l2_normalize_row_singleton w : (0 < w)%R → l2_normalize_row [w] = [1%R].
Proof.
  intros Hw. unfold l2_normalize_row. simpl.
  assert (0 < w * w)%R by nra.
  destruct (Req_dec_T _ _) as [Hz|_]; [lra|]. simpl. f_equal.
  replace (w * w + 0)%R with (w * w)%R by lra.
  rewrite sqrt_square by lra. field. lra.
Qed.

Lemma smooth_idf_pos n df : df ≤ n → (0 < smooth_idf n df)%R.
Proof.
  intros Hle. unfold smooth_idf.
  assert (0 < INR (1 + df))%R by (apply lt_0_INR; lia).
  assert (INR (1 + df) <= INR (1 + n))%R by (apply le_INR; lia).
  assert (0 <= ln (INR (1 + n) / INR (1 + df)))%R; [|lra].
  rewrite <- ln_1. destruct (Req_dec_T (INR (1 + n)) (INR (1 + df))) as [->|Hne].
  - right. f_equal. field. lra.
  - left. apply ln_increasing; [lra|].
    apply Rmult_lt_reg_r with (INR (1 + df)); [done|]. field_simplify; lra.
Qed.

(** No term of the document is in the vocabulary: every count is zero. *)
Lemma count_row_no_overlap (vocabulary_ : gmap string nat) terms :
  (∀ t, t ∈ terms → vocabulary_ !! t = None) →
  count_row vocabulary_ terms = replicate (size vocabulary_) 0.
Proof.
  intros Hno. unfold count_row.
  assert (∀ j, length (filter (λ t, vocabulary_ !! t = Some j) terms) = 0) as Hz.
  { intros j. induction terms as [|t terms IH]; [done|].
    rewrite filter_cons. destruct (decide _) as [Ht|_].
    - rewrite Hno in Ht by (by left). done.
    - apply IH. intros u Hu. apply Hno. by right. }
  generalize (size vocabulary_) at 1 2. intros n. generalize 0 at 1.
  induction n as [|n IH]; intros s; simpl; [done|]. by rewrite Hz, IH.
Qed.

Lemma zero_counts_weights n idf :
  all_zero (zip_with (λ (c : nat) w, INR c * w)%R (replicate n 0) idf).
Proof.
  revert idf. induction n as [|n IH]; intros [|w idf]; simpl; try constructor.
  - lra.
  - apply IH.
Qed.

(** ** Running [retrieve_recipes] *)

Section Retrieval.
Context `{TextPrims} `{NpArgsort}.

Lemma query_similarities_ok st query :
  retriever_ok st →
  ∃ similarities,
    query_similarities (self st) query = Ok similarities ∧
    length similarities = corpus_size st.
Proof.
  intros (voc & idf & X & Hv & HX & Hs1 & Hpos1 & Hs0 & Hpos0 & _).
  unfold query_similarities, corpus_size. rewrite Hv, HX. simpl.
  unfold cosine_similarity, check_array, shape0 in *. simpl.
  rewrite (decide_False (P := size voc = 0)) by lia.
  rewrite (decide_False (P := length (rows X) = 0)) by lia.
  rewrite (decide_False (P := shape1 X = 0)) by lia.
  rewrite (decide_True (P := size voc = shape1 X)) by lia.
  eexists. split; [reflexivity|].
  unfold flatten. simpl. rewrite app_nil_r, !length_map. done.
Qed.

Lemma bind_Ok {A B} (m : M A) (f : A → M B) st a st1 :
  m st = Return a st1 → (let* x := m in f x) st = f a st1.
Proof. intros Hm. unfold bind. by rewrite Hm. Qed.

(** One turn of the loop of [retrieve_recipes]. *)
Lemma scored_copy_run (s : RecipeRetriever) (similarities : list R) idx st src d :
  recipes s !! idx = Some src →
  objects st !! src = Some d →
  (let* stored := lift (list_getitem (recipes s) idx) in
   let* recipe := dict_copy stored in
   let* _ := dict_setitem recipe "relevance_score"
               (VFloat (key similarities idx)) in
   ret recipe) st =
  Return (fresh (dom (objects st)))
         {| self := self st;
            objects := <[fresh (dom (objects st)) :=
                           <["relevance_score" := VFloat (key similarities idx)]> d]>
                         (objects st) |}.
Proof.
  intros Hidx Hd.
  erewrite bind_Ok; [|unfold lift, list_getitem; by rewrite Hidx].
  erewrite bind_Ok; [|unfold dict_copy; erewrite bind_Ok;
                      [reflexivity|unfold deref; by rewrite Hd]].
  erewrite bind_Ok; [reflexivity|].
  unfold dict_setitem. simpl. by rewrite lookup_insert_eq, insert_insert_eq.
Qed.

Lemma scoring_loop (s : RecipeRetriever) (similarities : list R) idxs st :
  (∀ src, src ∈ recipes s → is_Some (objects st !! src)) →
  (∀ idx, idx ∈ idxs → idx < length (recipes s)) →
  ∃ results st',
    for_each idxs (λ idx,
      let* stored := lift (list_getitem (recipes s) idx) in
      let* recipe := dict_copy stored in
      let* _ := dict_setitem recipe "relevance_score"
                  (VFloat (key similarities idx)) in
      ret recipe) st = Return results st' ∧
    self st' = self st ∧
    objects st ⊆ objects st' ∧
    Forall2 (scored_copy_of s similarities (objects st) (objects st')) idxs results.
Proof.
  set (body := λ idx : nat, _).
  revert st. induction idxs as [|idx idxs IH]; intros st Hsrc Hidxs.
  - exists [], st. simpl. unfold ret. repeat split; [done|constructor].
  - destruct (lookup_lt_is_Some_2 (recipes s) idx) as [src Hidx].
    { apply Hidxs. by left. }
    destruct (Hsrc src) as [d Hd]; [by eapply list_elem_of_lookup_2|].
    set (l := fresh (dom (objects st))).
    assert (objects st !! l = None) as Hl.
    { apply not_elem_of_dom. apply is_fresh. }
    set (d' := <["relevance_score" := VFloat (key similarities idx)]> d).
    set (st1 := {| self := self st; objects := <[l := d']> (objects st) |}).
    assert (objects st ⊆ objects st1) as Hsub by (by apply insert_subseteq).
    destruct (IH st1) as (results & st' & Hrun & Hself & Hsub' & Hall).
    { intros src' Hsrc'. destruct (Hsrc src' Hsrc') as [d0 Hd0].
      exists d0. by eapply lookup_weaken. }
    { intros i Hi. apply Hidxs. by right. }
    exists (l :: results), st'.
    split; [|split; [done|split; [by etrans|]]].
    + simpl.
      erewrite bind_Ok; [|by apply (scored_copy_run s similarities idx st src d)].
      fold l d' st1. by erewrite bind_Ok.
    + constructor.
      * exists src, d. repeat split; [done..|].
        eapply lookup_weaken; [|exact Hsub']. apply lookup_insert_eq.
      * eapply Forall2_impl; [exact Hall|].
        intros i l' (src' & d0 & Hi & Hd0 & Hnew & Hfin).
        assert (l' ≠ l) as Hne.
        { intros ->. simpl in Hnew. by rewrite lookup_insert_eq in Hnew. }
        simpl in Hd0, Hnew. rewrite lookup_insert_ne in Hnew by done.
        assert (l ≠ src') as Hne'.
        { intros <-. destruct (Hsrc l) as [d1 Hd1]; [by eapply list_elem_of_lookup_2|].
          congruence. }
        rewrite lookup_insert_ne in Hd0 by done.
        by exists src', d0.
Qed.

(** *** Frame, from any state *)

Lemma frame_ret {A} (a : A) : frame_preserving (ret a).
Proof. by intros st. Qed.

Lemma frame_lift {A} (r : result A) : frame_preserving (lift r).
Proof. intros st. unfold lift. by destruct r. Qed.

Lemma frame_get_self : frame_preserving get_self.
Proof. by intros st. Qed.

Lemma frame_bind {A B} (m : M A) (f : A → M B) :
  frame_preserving m → (∀ a, frame_preserving (f a)) →
  frame_preserving (let* x := m in f x).
Proof.
  intros Hm Hf st. unfold bind. specialize (Hm st).
  destruct (m st) as [a st1|e st1]; simpl in Hm; [|done].
  destruct Hm as [Hself Hsub]. destruct (Hf a st1) as [Hself' Hsub'].
  split; [congruence|by etrans].
Qed.

Lemma frame_for_each {A B} (xs : list A) (body : A → M B) :
  (∀ x, frame_preserving (body x)) → frame_preserving (for_each xs body).
Proof.
  intros Hbody. induction xs as [|x xs IH]; simpl; [apply frame_ret|].
  apply frame_bind; [apply Hbody|]. intros y.
  apply frame_bind; [apply IH|]. intros ys. apply frame_ret.
Qed.

(** The copy is a new object, so writing the score into it changes nothing
    that existed. *)
Lemma frame_scored_copy (stored : loc) (k : string) (v : value) :
  frame_preserving
    (let* recipe := dict_copy stored in
     let* _ := dict_setitem recipe k v in
     ret recipe).
Proof.
  intros st. unfold dict_copy, bind, deref, new_dict, dict_setitem, ret.
  destruct (objects st !! stored) as [d|]; [|done]. simpl.
  rewrite lookup_insert_eq. simpl. split; [done|].
  rewrite insert_insert_eq. apply insert_subseteq, not_elem_of_dom, is_fresh.
Qed.

Lemma frame_retrieve_recipes query k : frame_preserving (retrieve_recipes query k).
Proof.
  unfold retrieve_recipes.
  apply frame_bind; [apply frame_get_self|]. intros s.
  apply frame_bind; [apply frame_lift|]. intros similarities.
  apply frame_for_each. intros idx.
  apply frame_bind; [apply frame_lift|]. intros stored.
  apply frame_scored_copy.
Qed.

(** A call on an initialised retriever returns; its results are the scored
    copies of the ranked recipes, and nothing that existed is touched. *)
Lemma retrieve_recipes_run st query k :
  retriever_ok st →
  ∃ similarities results st',
    query_similarities (self st) query = Ok similarities ∧
    length similarities = corpus_size st ∧
    retrieve_recipes query k st = Return results st' ∧
    self st' = self st ∧
    objects st ⊆ objects st' ∧
    Forall2 (scored_copy_of (self st) similarities (objects st) (objects st'))
            (top_k_indices similarities k) results.
Proof.
  intros Hok.
  destruct (query_similarities_ok st query Hok) as (sims & Hsims & Hlen).
  destruct (scoring_loop (self st) sims (top_k_indices sims k) st)
    as (results & st' & Hrun & Hself & Hsub & Hall).
  { by destruct Hok as (? & ? & ? & ? & ? & ? & ? & ? & ? & ?). }
  { intros idx Hidx. apply elem_of_top_k_indices in Hidx.
    unfold corpus_size in Hlen. lia. }
  exists sims, results, st'. repeat split; try done.
  unfold retrieve_recipes.
  erewrite bind_Ok; [|reflexivity].
  erewrite bind_Ok; [|unfold lift; by rewrite Hsims].
  exact Hrun.
Qed.

Lemma retriever_ok_preserved st st' :
  retriever_ok st → self st' = self st → objects st ⊆ objects st' →
  retriever_ok st'.
Proof.
  intros (voc & idf & X & ? & ? & ? & ? & ? & ? & Halloc) Hself Hsub.
  exists voc, idf, X. rewrite Hself. repeat split; try done.
  intros l Hl. destruct (Halloc l Hl) as [d Hd]. exists d.
  by eapply lookup_weaken.
Qed.

(** The scores a caller reads in the results are those of the ranked indices. *)
Lemma scored_copies_scores s similarities before after idxs results :
  Forall2 (scored_copy_of s similarities before after) idxs results →
  map (relevance_score after) results =
  map (λ idx, Some (VFloat (key similarities idx))) idxs.
Proof.
  induction 1 as [|idx l idxs results (src & d & _ & _ & _ & Hl) _ IH]; simpl; [done|].
  rewrite IH. f_equal. unfold relevance_score. rewrite Hl. simpl.
  apply lookup_insert_eq.
Qed.

(** The number of results, for every [k]. *)
Lemma retrieve_recipes_length st query k :
  retriever_ok st →
  ∃ results st',
    retrieve_recipes query k st = Return results st' ∧
    length results =
    Z.to_nat (if (0 <? k)%Z then Z.min k (Z.of_nat (corpus_size st))
              else Z.max 0 (Z.of_nat (corpus_size st) + k))%Z.
Proof.
  intros Hok.
  destruct (retrieve_recipes_run st query k Hok)
    as (sims & results & st' & _ & Hlen & Hrun & _ & _ & Hall).
  exists results, st'. split; [done|].
  apply Forall2_length in Hall. rewrite <- Hall, top_k_indices_length.
  by rewrite Hlen.
Qed.

End Retrieval.

(** * Building the index *)

Section Build.
Context `{TextPrims} `{NpArgsort}.

Lemma load_run (file : list dict) st :
  ∃ loaded st',
    for_each file new_dict st = Return loaded st' ∧
    self st' = self st ∧
    objects st ⊆ objects st' ∧
    Forall2 (λ d l, objects st' !! l = Some d) file loaded.
Proof.
  revert st. induction file as [|d file IH]; intros st.
  - exists [], st. repeat split; [done|constructor].
  - set (l := fresh (dom (objects st))).
    assert (objects st !! l = None) as Hl by (apply not_elem_of_dom, is_fresh).
    set (st1 := {| self := self st; objects := <[l := d]> (objects st) |}).
    destruct (IH st1) as (loaded & st' & Hrun & Hself & Hsub & Hall).
    exists (l :: loaded), st'. repeat split.
    + simpl. erewrite bind_Ok; [|reflexivity]. fold l st1. by erewrite bind_Ok.
    + done.
    + etrans; [|exact Hsub]. by apply insert_subseteq.
    + constructor; [|done]. eapply lookup_weaken; [|exact Hsub].
      apply lookup_insert_eq.
Qed.

Lemma read_documents (file : list dict) (stored : list loc) st :
  Forall2 (λ d l, objects st !! l = Some d) file stored →
  for_each stored (λ recipe,
    let* d := deref recipe in ret (dict_get d "searchable_text" (VStr ""))) st
  = Return (map (λ d, dict_get d "searchable_text" (VStr "")) file) st.
Proof.
  induction 1 as [|d l file stored Hl _ IH]; [done|].
  simpl. erewrite bind_Ok; [|erewrite bind_Ok; [reflexivity|]; unfold deref; by rewrite Hl].
  by erewrite bind_Ok.
Qed.

(** [_build_index] is [fit_transform] on the searchable texts. *)
Lemma _build_index_run (file : list dict) st :
  Forall2 (λ d l, objects st !! l = Some d) file (recipes (self st)) →
  _build_index st =
  match fit_transform (map (λ d, dict_get d "searchable_text" (VStr "")) file) with
  | Raise e =>
      Throw e {| self := {| recipes := recipes (self st);
                            vectorizer := Some Unfitted;
                            tfidf_matrix := tfidf_matrix (self st) |};
                 objects := objects st |}
  | Ok fitted =>
      Return () {| self := {| recipes := recipes (self st);
                              vectorizer := Some (fst fitted);
                              tfidf_matrix := Some (snd fitted) |};
                   objects := objects st |}
  end.
Proof.
  intros Hfile. unfold _build_index.
  erewrite bind_Ok; [|reflexivity].
  erewrite bind_Ok; [|by apply read_documents].
  erewrite bind_Ok; [|reflexivity].
  unfold bind, lift. simpl. by destruct (fit_transform _).
Qed.

Lemma fit_transform_empty_vocabulary (file : list dict) :
  Forall empty_after_filtering file →
  fit_transform (map (λ d, dict_get d "searchable_text" (VStr "")) file)
  = Raise empty_vocabulary_error.
Proof.
  intros Hempty. unfold fit_transform, count_fit_transform.
  assert (∃ docs, decode_all (map (λ d, dict_get d "searchable_text" (VStr "")) file)
                  = Ok docs ∧ Forall (λ doc, analyzer doc = []) docs)
    as (docs & -> & Hdocs).
  { induction Hempty as [|d file (text & Hd & Htext) _ (docs & IH & Hdocs)].
    - by exists [].
    - exists (text :: docs). simpl. rewrite Hd, IH. split; [done|].
      constructor; [|done]. unfold analyzer, word_ngrams. by rewrite Htext. }
  assert (collect_vocabulary (map analyzer docs) = ∅) as ->; [|done].
  unfold collect_vocabulary.
  assert (concat (map analyzer docs) = []) as ->; [|done].
  induction Hdocs as [|doc docs Hdoc _ IH]; simpl; [done|]. by rewrite Hdoc, IH.
Qed.

(** C6.  Index building fails, with the exception scikit-learn raises for
    an empty vocabulary (the specification's [IndexBuildError]), when there is
    no document or when every document is empty once tokenised and filtered of
    stop words: [_build_index] throws it on such a store and assigns no index,
    and [__init__] throws it on such a file, leaving [tfidf_matrix] at [None]:
    no retriever is returned and no index exists, partial or whole. *)
Theorem build_index_empty_vocabulary :
  (∀ (file : list dict) st,
     Forall2 (λ d l, objects st !! l = Some d) file (recipes (self st)) →
     file = [] ∨ Forall empty_after_filtering file →
     ∃ st', _build_index st = Throw empty_vocabulary_error st' ∧
            tfidf_matrix (self st') = tfidf_matrix (self st)) ∧
  (∀ (file : list dict) (h : heap),
     file = [] ∨ Forall empty_after_filtering file →
     ∃ st', __init__ file h = Throw empty_vocabulary_error st' ∧
            tfidf_matrix (self st') = None).
Proof.
  assert (∀ file : list dict, file = [] ∨ Forall empty_after_filtering file →
            Forall empty_after_filtering file) as Hcases.
  { intros file [->|?]; [constructor|done]. }
  split.
  - intros file st Hfile Hempty.
    rewrite (_build_index_run file st Hfile).
    rewrite fit_transform_empty_vocabulary by auto. by eexists.
  - intros file h Hempty. unfold __init__.
    set (st0 := {| self := _; objects := h |}).
    destruct (load_run file st0) as (loaded & st1 & Hload & Hself & _ & Hall).
    erewrite bind_Ok.
    2:{ unfold _load_recipes. erewrite bind_Ok; [|exact Hload].
        erewrite bind_Ok; reflexivity. }
    rewrite (_build_index_run file); [|done].
    rewrite fit_transform_empty_vocabulary by auto.
    eexists. split; [reflexivity|]. simpl. by rewrite Hself.
Qed.

(** ** What [__init__] establishes *)

Lemma decode_all_length docs strs :
  decode_all docs = Ok strs → length strs = length docs.
Proof.
  revert strs. induction docs as [|d docs IH]; intros strs; simpl.
  - by intros [= <-].
  - destruct (decode d); [|done]. destruct (decode_all docs); [|done].
    intros [= <-]. simpl. f_equal. by apply IH.
Qed.

Lemma limit_features_range X n high low limit j :
  j ∈ limit_features X n high low limit → j < n.
Proof.
  unfold limit_features. destruct (decide _); intros Hj.
  - apply list_elem_of_filter in Hj as [_ Hj].
    apply list_elem_of_filter in Hj as [_ Hj]. apply elem_of_seq in Hj. lia.
  - apply list_elem_of_filter in Hj as [_ Hj]. apply elem_of_seq in Hj. lia.
Qed.

Lemma limit_features_NoDup X n high low limit :
  NoDup (limit_features X n high low limit).
Proof.
  unfold limit_features. destruct (decide _); repeat apply NoDup_filter; apply NoDup_seq.
Qed.

Lemma omap_lookup_NoDup {A} (fs : list A) (kept : list nat) :
  NoDup fs → NoDup kept → (∀ j, j ∈ kept → j < length fs) →
  NoDup (omap (λ j, fs !! j) kept) ∧
  length (omap (λ j, fs !! j) kept) = length kept.
Proof.
  intros Hfs Hkept. induction Hkept as [|j kept Hj _ IH]; intros Hrange; simpl.
  - split; [constructor|done].
  - destruct (lookup_lt_is_Some_2 fs j) as [x Hx]; [apply Hrange; by left|].
    rewrite Hx. destruct IH as [IHn IHl]; [intros; apply Hrange; by right|].
    split; [|cbn [length]; by f_equal].
    constructor; [|done]. intros Hin.
    apply list_elem_of_omap in Hin as (j' & Hj' & Hx').
    by rewrite (NoDup_lookup fs j j' x Hfs Hx Hx') in Hj.
Qed.

Lemma count_fit_transform_shape raw features X :
  count_fit_transform raw = Ok (features, X) →
  NoDup features ∧ 0 < length features ∧ length X = length raw ∧ 0 < length raw.
Proof.
  unfold count_fit_transform.
  destruct (decode_all raw) as [docs|] eqn:Hdocs; [|done].
  apply decode_all_length in Hdocs.
  destruct (decide (collect_vocabulary _ = ∅)); [done|].
  destruct (decide (length docs < min_df)) as [|Hn]; [done|].
  set (features0 := sort_features _).
  set (X0 := count_matrix _ _).
  set (kept := limit_features _ _ _ _ _).
  destruct (decide (kept = [])) as [|Hkept]; [done|].
  intros [= <- <-].
  destruct (omap_lookup_NoDup features0 kept) as [Hnd Hlen].
  - unfold features0, sort_features. rewrite merge_sort_Permutation.
    apply NoDup_elements.
  - apply limit_features_NoDup.
  - intros j. apply limit_features_range.
  - split; [done|]. rewrite Hlen. split; [by destruct kept; [|simpl; lia]|].
    unfold X0, count_matrix, min_df in *. rewrite !length_map. lia.
Qed.

Lemma fit_transform_shape raw v X :
  fit_transform raw = Ok (v, X) →
  ∃ vocabulary_ idf_,
    v = Fitted vocabulary_ idf_ ∧
    shape1 X = size vocabulary_ ∧ 0 < shape1 X ∧
    shape0 X = length raw ∧ 0 < shape0 X.
Proof.
  unfold fit_transform.
  destruct (count_fit_transform raw) as [[features C]|] eqn:Hfit; [|done].
  apply count_fit_transform_shape in Hfit as (Hnd & Hpos & Hrows & Hraw).
  intros [= <- <-]. eexists _, _. split; [reflexivity|].
  unfold shape0, tfidf_transform, normalize. simpl. rewrite !length_map.
  repeat split; try done; try lia.
  unfold vocabulary_of. rewrite map_size_list_to_map.
  - by rewrite length_zip, length_seq, Nat.min_id.
  - rewrite fst_zip; [done|]. by rewrite length_seq.
Qed.

(** A retriever that [__init__] returns is initialised, on any corpus: it
    holds the records of the file, in order, and an index with a row for
    each. *)
Lemma __init___ok (file : list dict) (h : heap) st :
  __init__ file h = Return () st →
  retriever_ok st ∧
  corpus_size st = length file ∧
  contents (objects st) (recipes (self st)) = map Some file ∧
  h ⊆ objects st.
Proof.
  unfold __init__. set (st0 := {| self := _; objects := h |}).
  destruct (load_run file st0) as (loaded & st1 & Hload & Hself & Hsub & Hall).
  erewrite bind_Ok.
  2:{ unfold _load_recipes. erewrite bind_Ok; [|exact Hload].
      erewrite bind_Ok; reflexivity. }
  rewrite (_build_index_run file); [|done]. simpl.
  destruct (fit_transform _) as [[v X]|] eqn:Hfit; [|done].
  apply fit_transform_shape in Hfit
    as (voc & idf & -> & Hs1 & Hpos1 & Hs0 & Hpos0).
  rewrite length_map in Hs0.
  pose proof (Forall2_length _ _ _ Hall) as Hlen.
  intros [= <-]. unfold corpus_size, retriever_ok. simpl.
  split; [|split; [done|split; [|done]]].
  - exists voc, idf, X. repeat split; try done; try lia.
    intros l Hl. apply list_elem_of_lookup in Hl as [i Hi].
    destruct (Forall2_lookup_r _ _ _ _ _ Hall Hi) as (d & _ & Hd). by exists d.
  - unfold contents. clear -Hall.
    induction Hall as [|d l file loaded Hd _ IH]; simpl; [done|]. by rewrite Hd, IH.
Qed.

End Build.

(** C6, on an empty file, and on a file whose first record holds stop words
    only and whose second has no searchable text. *)
Lemma build_index_empty_vocabulary_witness :
  (∃ st', __init__ (H := ascii_text) (H0 := insertion) [] ∅
          = Throw empty_vocabulary_error st' ∧
          tfidf_matrix (self st') = None) ∧
  (∃ st', __init__ (H := ascii_text) (H0 := insertion)
            [ {[ "searchable_text" := VStr "The and of" ]}; {[ "recipe_id" := VInt 7 ]} ] ∅
          = Throw empty_vocabulary_error st' ∧
          tfidf_matrix (self st') = None).
Proof.
  destruct (build_index_empty_vocabulary (H := ascii_text) (H0 := insertion))
    as [_ Hinit].
  split.
  - apply Hinit. by left.
  - apply Hinit. right.
    repeat constructor; eexists; (split; [vm_compute; reflexivity|vm_compute; reflexivity]).
Defined.

(** ** The concrete corpus, initialised

    With the ASCII text primitives and the insertion sort for [argsort]. *)

Lemma demo_count_fit :
  count_fit_transform (H := ascii_text) (H0 := insertion)
    (map (λ d, dict_get d "searchable_text" (VStr "")) demo_file)
  = Ok (["chicken"], demo_counts).
Proof. vm_compute. reflexivity. Qed.

(** [__init__] runs on the concrete corpus and reaches [demo_state]. *)
Lemma demo_init :
  __init__ (H := ascii_text) (H0 := insertion) demo_file ∅ = Return () demo_state.
Proof. vm_compute. reflexivity. Qed.

Lemma demo_state_ok : retriever_ok demo_state.
Proof. exact (proj1 (__init___ok demo_file ∅ demo_state demo_init)). Qed.

Lemma demo_document_frequency : document_frequency demo_counts 0 = 2.
Proof. reflexivity. Qed.

Lemma demo_index :
  tfidf_transform 1 demo_idf demo_counts
  = {| shape1 := 1; rows := [[1]; [0]; [1]]%R |}.
Proof.
  pose proof (smooth_idf_pos 3 2 ltac:(lia)) as Hc.
  unfold tfidf_transform, normalize, demo_idf, tfidf_fit.
  cbn [map seq length shape1 rows]. rewrite demo_document_frequency.
  unfold demo_counts. cbn [map zip_with length INR].
  rewrite (l2_normalize_row_singleton (1 * smooth_idf 3 2)) by lra.
  rewrite l2_normalize_row_all_zero_id by (repeat constructor; lra).
  by replace (0 * smooth_idf 3 2)%R with 0%R by lra.
Qed.

Lemma demo_query_vector_chicken :
  transform (H := ascii_text) (Fitted {[ "chicken" := 0 ]} demo_idf)
    [VStr (str_lower (TextPrims := ascii_text) "chicken")]
  = Ok {| shape1 := 1; rows := [[1%R]] |}.
Proof.
  pose proof (smooth_idf_pos 3 2 ltac:(lia)) as Hc.
  unfold transform. cbn [decode_all decode].
  replace (map _ [_]) with [[1]] by (vm_compute; reflexivity).
  replace (size _) with 1 by (vm_compute; reflexivity).
  unfold tfidf_transform, normalize, demo_idf, tfidf_fit.
  cbn [map seq length shape1 rows]. rewrite demo_document_frequency.
  cbn [map zip_with length INR].
  change (length demo_counts) with 3.
  rewrite l2_normalize_row_singleton by lra. done.
Qed.

(** The scenario's query: "chicken" scores 1.0 against recipes 1 and 3, and
    0.0 against recipe 2. *)
Lemma demo_similarities_chicken :
  query_similarities (H := ascii_text) (self demo_state) "chicken" = Ok [1; 0; 1]%R.
Proof.
  unfold query_similarities, demo_state. cbn [self vectorizer tfidf_matrix].
  rewrite demo_query_vector_chicken, demo_index.
  unfold cosine_similarity, check_array, shape0. cbn [rows shape1 length].
  rewrite !decide_False by lia. rewrite decide_True by done.
  unfold normalize, flatten. cbn [rows map concat app].
  rewrite l2_normalize_row_singleton by lra.
  rewrite l2_normalize_row_all_zero_id by (repeat constructor).
  unfold dot, Rsum. cbn [zip_with foldr]. do 2 f_equal; [lra|]. f_equal; [lra|].
  f_equal. lra.
Qed.

Lemma insertion_argsort_chicken : insertion_argsort [1; 0; 1]%R = [1; 0; 2].
Proof.
  unfold insertion_argsort. simpl.
  repeat (cbn [insert_back key nth]; destruct (Rlt_dec _ _); try lra). done.
Qed.

(** * The retrieval contract *)

Section Contract.
Context `{TextPrims} {argsort : NpArgsort}.

(** A query without a term of the vocabulary is vectorised to zeros and
    scores zero against every document. *)
Lemma zero_overlap_similarities st query :
  retriever_ok st →
  (∀ t, t ∈ query_terms query → fitted_vocabulary (self st) !! t = None) →
  ∃ v query_vector zeros similarities,
    vectorizer (self st) = Some v ∧
    transform v [VStr (str_lower query)] = Ok query_vector ∧
    rows query_vector = [zeros] ∧ all_zero zeros ∧
    query_similarities (self st) query = Ok similarities ∧
    all_zero similarities.
Proof.
  intros Hok Hno.
  destruct (query_similarities_ok st query Hok) as (sims & Hsims & _).
  destruct Hok as (voc & idf & X & Hv & HX & Hs1 & Hpos1 & Hs0 & Hpos0 & _).
  unfold fitted_vocabulary in Hno. rewrite Hv in Hno.
  set (zeros := l2_normalize_row
                  (zip_with (λ (c : nat) w, INR c * w)%R
                     (count_row voc (analyzer (str_lower query))) idf)).
  assert (all_zero zeros) as Hz.
  { apply l2_normalize_row_all_zero. rewrite count_row_no_overlap by done.
    apply zero_counts_weights. }
  exists (Fitted voc idf), (tfidf_transform (size voc) idf
           [count_row voc (analyzer (str_lower query))]), zeros, sims.
  repeat split; try done.
  revert Hsims. unfold query_similarities. rewrite Hv, HX. simpl.
  unfold cosine_similarity. destruct (check_array _); [|done].
  destruct (check_array X); [|done]. destruct (decide _); [|done].
  intros [= <-]. unfold flatten. simpl. rewrite app_nil_r.
  unfold all_zero. rewrite Forall_map. apply Forall_forall. intros y _.
  apply dot_all_zero_l. by apply l2_normalize_row_all_zero.
Qed.

(** C3.  On an initialised retriever, for every query and every [k > 0]:
    [retrieve_recipes] returns [min(k, corpus_size)] records, at least one,
    the scored copies of the ranked documents; the relevance scores read in
    the returned list, in order, are non-increasing, so the last of them is
    the lowest; and a document that is not returned has a similarity no
    higher than that lowest returned score. *)
Theorem retrieve_recipes_top_k st query k :
  retriever_ok st →
  (0 < k)%Z →
  ∃ similarities results st' scores lowest,
    query_similarities (self st) query = Ok similarities ∧
    retrieve_recipes query k st = Return results st' ∧
    Forall2 (scored_copy_of (self st) similarities (objects st) (objects st'))
            (top_k_indices similarities k) results ∧
    length results = Z.to_nat (Z.min k (Z.of_nat (corpus_size st))) ∧
    0 < length results ∧
    map (relevance_score (objects st')) results = map (λ x, Some (VFloat x)) scores ∧
    StronglySorted (λ x y, (y <= x)%R) scores ∧
    last scores = Some lowest ∧
    Forall (λ x, (lowest <= x)%R) scores ∧
    ∀ i, i < corpus_size st → i ∉ top_k_indices similarities k →
         (key similarities i <= lowest)%R.
Proof.
  intros Hok Hk.
  destruct (retrieve_recipes_run st query k Hok)
    as (sims & results & st' & Hsims & Hlen & Hrun & _ & _ & Hall).
  assert (0 < corpus_size st) as Hsize.
  { destruct Hok as (? & ? & X & _ & _ & _ & _ & Hs0 & Hpos & _).
    unfold corpus_size. lia. }
  assert (length (top_k_indices sims k)
          = Z.to_nat (Z.min k (Z.of_nat (corpus_size st)))) as Hcount.
  { rewrite top_k_indices_length, Hlen.
    by destruct (0 <? k)%Z eqn:E; [|apply Z.ltb_ge in E; lia]. }
  set (scores := map (key sims) (top_k_indices sims k)).
  assert (StronglySorted (λ x y, (y <= x)%R) scores) as Hsorted.
  { eapply StronglySorted_map; [|apply (top_k_indices_descending sims k)]. done. }
  destruct (last scores) as [lowest|] eqn:Hlast.
  2:{ apply last_None in Hlast. apply (f_equal length) in Hlast.
      unfold scores in Hlast. rewrite length_map, Hcount in Hlast. simpl in Hlast. lia. }
  exists sims, results, st', scores, lowest.
  split; [done|]. split; [done|]. split; [done|].
  split; [by rewrite <- (Forall2_length _ _ _ Hall)|].
  split; [rewrite <- (Forall2_length _ _ _ Hall); lia|].
  split; [unfold scores; by rewrite (scored_copies_scores _ _ _ _ _ _ Hall), map_map|].
  split; [done|]. split; [done|].
  apply last_Some in Hlast as [front Hfront]. split.
  - rewrite Hfront in Hsorted |- *. apply Forall_app. split.
    + apply Forall_forall. intros x Hx.
      apply (StronglySorted_app_1_elem_of _ _ _ _ _ Hsorted Hx). by left.
    + constructor; [simpl; lra|constructor].
  - intros i Hi Hout.
    assert (lowest ∈ scores) as Hin by (rewrite Hfront, elem_of_app; right; by left).
    unfold scores in Hin. apply list_elem_of_In, in_map_iff in Hin as (j & <- & Hj).
    apply (top_k_indices_dominate sims k); [lia|done|by apply list_elem_of_In].
Qed.

(** C5.  [retrieve_recipes] touches nothing that exists, from any state and
    whichever way the call ends: the retriever's attributes (recipe list,
    vectorizer, index) are the same after the call, every object of the heap
    holds what it held, so the stored recipes read the same.  On an initialised
    retriever the call returns, and the returned records are objects that did
    not exist before it. *)
Theorem retrieve_recipes_frame st query k :
  let st' := final_state (retrieve_recipes query k st) in
  self st' = self st ∧
  (∀ l d, objects st !! l = Some d → objects st' !! l = Some d) ∧
  ((∀ l, l ∈ recipes (self st) → is_Some (objects st !! l)) →
   contents (objects st') (recipes (self st')) =
     contents (objects st) (recipes (self st))) ∧
  (retriever_ok st →
   ∃ results,
     retrieve_recipes query k st = Return results st' ∧
     Forall (λ l, objects st !! l = None) results).
Proof.
  intros st'. destruct (frame_retrieve_recipes query k st) as [Hself Hsub].
  fold st' in Hself, Hsub.
  split; [done|]. split; [|split].
  - intros l d Hl. by eapply lookup_weaken.
  - intros Halloc. rewrite Hself. unfold contents. apply map_ext_in. intros l Hl.
    destruct (Halloc l) as [d Hd]; [by apply list_elem_of_In|].
    rewrite Hd. by eapply lookup_weaken.
  - intros Hok.
    destruct (retrieve_recipes_run st query k Hok)
      as (sims & results & st1 & _ & _ & Hrun & _ & _ & Hall).
    assert (st' = st1) as -> by (unfold st'; by rewrite Hrun).
    exists results. split; [done|].
    clear -Hall. induction Hall as [|? ? ? ? (? & ? & ? & ? & ? & ?)]; by constructor.
Qed.

(** C4.  On an initialised retriever, a query none of whose terms is in the
    fitted vocabulary is vectorised without an exception to a vector of
    zeros; the call returns, every returned record carries the relevance
    score 0.0 exactly, and for [k > 0] there are [min(k, corpus_size)] of them. *)
Theorem retrieve_recipes_zero_overlap st query k :
  retriever_ok st →
  (∀ t, t ∈ query_terms query → fitted_vocabulary (self st) !! t = None) →
  ∃ v query_vector zeros results st',
    vectorizer (self st) = Some v ∧
    transform v [VStr (str_lower query)] = Ok query_vector ∧
    rows query_vector = [zeros] ∧ all_zero zeros ∧
    retrieve_recipes query k st = Return results st' ∧
    Forall (λ l, relevance_score (objects st') l = Some (VFloat 0)) results ∧
    ((0 < k)%Z →
     length results = Z.to_nat (Z.min k (Z.of_nat (corpus_size st)))).
Proof.
  intros Hok Hno.
  destruct (zero_overlap_similarities st query Hok Hno)
    as (v & qv & zeros & sims & Hv & Hqv & Hrows & Hz & Hsims & Hzero).
  destruct (retrieve_recipes_run st query k Hok)
    as (sims' & results & st' & Hsims' & Hlen & Hrun & _ & _ & Hall).
  assert (sims' = sims) as -> by congruence.
  exists v, qv, zeros, results, st'. repeat split; try done.
  - apply scored_copies_scores in Hall.
    apply Forall_forall. intros l Hl.
    apply list_elem_of_lookup in Hl as [p Hp].
    apply (f_equal (λ xs, xs !! p)) in Hall.
    rewrite !list_lookup_map in Hall.
    rewrite Hp in Hall. simpl in Hall.
    destruct (top_k_indices sims k !! p) as [idx|]; [|done].
    simpl in Hall. injection Hall as ->. by rewrite key_all_zero.
  - intros Hk. apply Forall2_length in Hall.
    rewrite <- Hall, top_k_indices_length, Hlen.
    apply Z.ltb_lt in Hk. by rewrite Hk.
Qed.

(** C9.  Two calls with the same query and [k], made in two states of the
    process that hold the same retriever and the same stored recipes (such as
    one call after the other), both return, and the records they return are
    equal position by position: same fields, same order, same relevance
    scores. *)
Theorem retrieve_recipes_deterministic sa sb query k :
  retriever_ok sa →
  retriever_ok sb →
  self sa = self sb →
  contents (objects sa) (recipes (self sa)) = contents (objects sb) (recipes (self sb)) →
  ∃ ra sa' rb sb',
    retrieve_recipes query k sa = Return ra sa' ∧
    retrieve_recipes query k sb = Return rb sb' ∧
    contents (objects sa') ra = contents (objects sb') rb.
Proof.
  intros Hoka Hokb Hself Hstore.
  destruct (retrieve_recipes_run sa query k Hoka)
    as (sims & ra & sa' & Hsims & _ & Hruna & _ & _ & Halla).
  destruct (retrieve_recipes_run sb query k Hokb)
    as (sims' & rb & sb' & Hsims' & _ & Hrunb & _ & _ & Hallb).
  rewrite <- Hself in Hsims', Hallb.
  assert (sims' = sims) as -> by congruence.
  exists ra, sa', rb, sb'. repeat split; try done.
  rewrite <- Hself in Hstore. unfold contents in *.
  clear Hruna Hrunb. revert rb Hallb.
  induction Halla as [|idx la idxs ra (src & d & Hidx & Hd & _ & Hla) _ IH];
    intros rb Hallb; inversion Hallb as [|? lb ? rb' (src' & d' & Hidx' & Hd' & _ & Hlb)];
    subst; simpl; [done|].
  rewrite (IH rb') by done. f_equal. rewrite Hla, Hlb.
  assert (src' = src) as -> by congruence.
  apply (f_equal (λ xs, xs !! idx)) in Hstore.
  rewrite !list_lookup_map, Hidx in Hstore. simpl in Hstore.
  congruence.
Qed.

(** What a caller reads in the scored copies of one ranking, taken in two
    heaps that hold the same stored recipes. *)
Lemma scored_copies_same_contents s similarities ha ha' hb hb' idxs ra rb :
  contents ha (recipes s) = contents hb (recipes s) →
  Forall2 (scored_copy_of s similarities ha ha') idxs ra →
  Forall2 (scored_copy_of s similarities hb hb') idxs rb →
  contents ha' ra = contents hb' rb.
Proof.
  intros Hstore Halla. unfold contents in *. revert rb.
  induction Halla as [|idx la idxs ra (src & d & Hidx & Hd & _ & Hla) _ IH];
    intros rb Hallb; inversion Hallb as [|? lb ? rb' (src' & d' & Hidx' & Hd' & _ & Hlb)];
    subst; simpl; [done|].
  rewrite (IH rb') by done. f_equal. rewrite Hla, Hlb.
  assert (src' = src) as -> by congruence.
  apply (f_equal (λ xs, xs !! idx)) in Hstore.
  rewrite !list_lookup_map, Hidx in Hstore. simpl in Hstore.
  congruence.
Qed.

(** C2, as amended.  The code has no tie-break of its own: the ranking is
    the end of the ascending order of [np.argsort], read backwards.  On an
    initialised retriever, for every [argsort], query and [k], the call
    returns the scored copies of the ranked documents, [min(k, corpus_size)]
    of them for [k > 0], and
    - of two returned documents the later one has no higher score, and
      [np.argsort] placed it before the earlier one: documents with equal
      scores come in the reverse of the order [np.argsort] gave them;
    - a document that is not returned has no higher score than a returned
      one, and [np.argsort] placed it before that one: of tied documents at
      the cut, those that [np.argsort] placed last are returned;
    - a call with the same query and [k] in any state that holds the same
      retriever and the same stored recipes returns records that read the
      same, in the same order. *)
Theorem retrieve_recipes_ties_reversed st query k :
  retriever_ok st →
  ∃ similarities results st',
    query_similarities (self st) query = Ok similarities ∧
    retrieve_recipes query k st = Return results st' ∧
    Forall2 (scored_copy_of (self st) similarities (objects st) (objects st'))
            (top_k_indices similarities k) results ∧
    ((0 < k)%Z → length results = Z.to_nat (Z.min k (Z.of_nat (corpus_size st)))) ∧
    (∀ i j, precedes (top_k_indices similarities k) i j →
            (key similarities j <= key similarities i)%R ∧
            precedes (np_argsort similarities) j i) ∧
    (∀ i j, i ∈ top_k_indices similarities k →
            j < corpus_size st → j ∉ top_k_indices similarities k →
            (key similarities j <= key similarities i)%R ∧
            precedes (np_argsort similarities) j i) ∧
    (∀ sb, retriever_ok sb → self sb = self st →
           contents (objects sb) (recipes (self sb))
             = contents (objects st) (recipes (self st)) →
           ∃ rb sb',
             retrieve_recipes query k sb = Return rb sb' ∧
             contents (objects sb') rb = contents (objects st') results).
Proof.
  intros Hok.
  destruct (retrieve_recipes_run st query k Hok)
    as (sims & results & st' & Hsims & Hlen & Hrun & _ & _ & Hall).
  exists sims, results, st'.
  split; [done|]. split; [done|]. split; [done|]. split; [|split; [|split]].
  - intros Hk. rewrite <- (Forall2_length _ _ _ Hall), top_k_indices_length, Hlen.
    apply Z.ltb_lt in Hk. by rewrite Hk.
  - intros i j Hij. split; [|by apply (top_k_indices_reverses sims k)].
    destruct Hij as (p & q & Hpq & Hp & Hq).
    exact (StronglySorted_lookup _ _ p q i j (top_k_indices_descending sims k) Hpq Hp Hq).
  - intros i j Hi Hj Hout. split.
    + apply (top_k_indices_dominate sims k); [lia|done..].
    + apply (top_k_indices_cut sims k); [done|lia|done].
  - intros sb Hokb Hself Hstore.
    destruct (retrieve_recipes_run sb query k Hokb)
      as (sims' & rb & sb' & Hsims' & _ & Hrunb & _ & _ & Hallb).
    rewrite Hself in Hsims', Hallb, Hstore.
    assert (sims' = sims) as -> by congruence.
    exists rb, sb'. split; [done|].
    exact (scored_copies_same_contents _ _ _ _ _ _ _ _ _ Hstore Hallb Hall).
Qed.

End Contract.

(** ** The contract on the concrete corpus *)

Lemma all_zero_replicate x : all_zero x → x = replicate (length x) 0%R.
Proof. induction 1 as [|w x -> _ IH]; simpl; [done|]. by rewrite <- IH. Qed.

Lemma insertion_argsort_zeros_3 : insertion_argsort [0; 0; 0]%R = [0; 1; 2].
Proof.
  unfold insertion_argsort. simpl.
  repeat (cbn [insert_back key nth]; destruct (Rlt_dec _ _); [lra|]). done.
Qed.

Lemma demo_no_overlap_beef :
  ∀ t, t ∈ query_terms (H := ascii_text) "beef" →
       fitted_vocabulary (self demo_state) !! t = None.
Proof.
  intros t Ht. vm_compute in Ht.
  apply list_elem_of_singleton in Ht as ->. vm_compute. reflexivity.
Qed.

Lemma demo_similarities_beef :
  query_similarities (H := ascii_text) (self demo_state) "beef" = Ok [0; 0; 0]%R.
Proof.
  destruct (zero_overlap_similarities (H := ascii_text)
              demo_state "beef" demo_state_ok demo_no_overlap_beef)
    as (_ & _ & _ & sims & _ & _ & _ & _ & Hsims & Hzero).
  destruct (query_similarities_ok (H := ascii_text) demo_state "beef" demo_state_ok)
    as (sims' & Hsims' & Hlen).
  assert (sims' = sims) as -> by congruence.
  rewrite Hsims. f_equal. rewrite (all_zero_replicate sims Hzero), Hlen. done.
Qed.

(** C3, on the scenario's corpus: query "chicken", [k = 2], two records. *)
Lemma retrieve_recipes_top_k_witness :
  retriever_ok demo_state ∧ (0 < 2)%Z ∧
  ∃ similarities results st' scores lowest,
    query_similarities (H := ascii_text) (self demo_state) "chicken" = Ok similarities ∧
    retrieve_recipes (H := ascii_text) (H0 := insertion) "chicken" 2 demo_state
      = Return results st' ∧
    Forall2 (scored_copy_of (self demo_state) similarities
               (objects demo_state) (objects st'))
            (top_k_indices (H := insertion) similarities 2) results ∧
    length results = 2 ∧
    0 < length results ∧
    map (relevance_score (objects st')) results = map (λ x, Some (VFloat x)) scores ∧
    StronglySorted (λ x y, (y <= x)%R) scores ∧
    last scores = Some lowest ∧
    Forall (λ x, (lowest <= x)%R) scores ∧
    ∀ i, i < corpus_size demo_state →
         i ∉ top_k_indices (H := insertion) similarities 2 →
         (key similarities i <= lowest)%R.
Proof.
  split; [exact demo_state_ok|]. split; [lia|].
  apply (retrieve_recipes_top_k (H := ascii_text) (argsort := insertion)
           demo_state "chicken" 2 demo_state_ok).
  lia.
Defined.

(** C5, on the scenario's corpus. *)
Lemma retrieve_recipes_frame_witness :
  retriever_ok demo_state ∧
  ∃ results st',
    retrieve_recipes (H := ascii_text) (H0 := insertion) "chicken" 2 demo_state
      = Return results st' ∧
    self st' = self demo_state ∧
    contents (objects st') (recipes (self st')) =
      contents (objects demo_state) (recipes (self demo_state)) ∧
    Forall (λ l, objects demo_state !! l = None) results.
Proof.
  split; [exact demo_state_ok|].
  destruct (retrieve_recipes_frame (H := ascii_text) (argsort := insertion)
              demo_state "chicken" 2) as (Hself & _ & Hstore & Hrun).
  destruct (Hrun demo_state_ok) as (results & Hret & Hfresh).
  exists results, (final_state
                     (retrieve_recipes (H := ascii_text) (H0 := insertion)
                        "chicken" 2 demo_state)).
  split; [exact Hret|]. split; [exact Hself|].
  split; [|exact Hfresh]. apply Hstore.
  by destruct demo_state_ok as (_ & _ & _ & _ & _ & _ & _ & _ & _ & Halloc).
Defined.

(** C4, on the scenario's corpus: "beef" is no term of the vocabulary. *)
Lemma retrieve_recipes_zero_overlap_witness :
  retriever_ok demo_state ∧
  (∀ t, t ∈ query_terms (H := ascii_text) "beef" →
        fitted_vocabulary (self demo_state) !! t = None) ∧
  ∃ v query_vector zeros results st',
    vectorizer (self demo_state) = Some v ∧
    transform (H := ascii_text) v [VStr (str_lower (TextPrims := ascii_text) "beef")]
      = Ok query_vector ∧
    rows query_vector = [zeros] ∧ all_zero zeros ∧
    retrieve_recipes (H := ascii_text) (H0 := insertion) "beef" 2 demo_state
      = Return results st' ∧
    Forall (λ l, relevance_score (objects st') l = Some (VFloat 0)) results ∧
    ((0 < 2)%Z →
     length results = Z.to_nat (Z.min 2 (Z.of_nat (corpus_size demo_state)))).
Proof.
  split; [exact demo_state_ok|]. split; [exact demo_no_overlap_beef|].
  apply (retrieve_recipes_zero_overlap (H := ascii_text) (argsort := insertion)
           demo_state "beef" 2 demo_state_ok demo_no_overlap_beef).
Defined.

(** C9, on the scenario's corpus: one call after the other. *)
Lemma retrieve_recipes_deterministic_witness :
  ∃ r1 st1 r2 st2,
    retrieve_recipes (H := ascii_text) (H0 := insertion) "chicken" 2 demo_state
      = Return r1 st1 ∧
    retrieve_recipes (H := ascii_text) (H0 := insertion) "chicken" 2 st1
      = Return r2 st2 ∧
    contents (objects st1) r1 = contents (objects st2) r2.
Proof.
  destruct (retrieve_recipes_run (H := ascii_text) (H0 := insertion)
              demo_state "chicken" 2 demo_state_ok)
    as (sims & r1 & st1 & _ & _ & Hrun & Hself & Hsub & _).
  assert (retriever_ok st1) as Hok1.
  { by apply (retriever_ok_preserved demo_state); [exact demo_state_ok|exact Hself|]. }
  assert (contents (objects demo_state) (recipes (self demo_state)) =
          contents (objects st1) (recipes (self st1))) as Hstore.
  { rewrite Hself. unfold contents. apply map_ext_in. intros l Hl.
    destruct demo_state_ok as (_ & _ & _ & _ & _ & _ & _ & _ & _ & Halloc).
    destruct (Halloc l) as [d Hd]; [by apply list_elem_of_In|].
    rewrite Hd. symmetry. by eapply lookup_weaken. }
  destruct (retrieve_recipes_deterministic (H := ascii_text) (argsort := insertion)
              demo_state st1 "chicken" 2 demo_state_ok Hok1 (eq_sym Hself) Hstore)
    as (ra & sa' & rb & sb' & Hruna & Hrunb & Heq).
  assert (Return r1 st1 = Return ra sa') as Hsame by (rewrite <- Hrun; exact Hruna).
  injection Hsame as <- <-.
  exists r1, st1, rb, sb'. exact (conj Hrun (conj Hrunb Heq)).
Defined.

(** C1, at its failing inputs.  On the scenario's corpus of three recipes,
    [retrieve_recipes("chicken", 0)] returns three records and
    [retrieve_recipes("chicken", -1)] returns two, where the claim has none:
    [a[-k:]] is [a[0:]] for [k = 0] and [a[1:]] for [k = -1]. *)
Theorem retrieve_recipes_nonpositive_k :
  (∃ results st',
     retrieve_recipes (H := ascii_text) (H0 := insertion) "chicken" 0 demo_state
       = Return results st' ∧
     length results = 3) ∧
  (∃ results st',
     retrieve_recipes (H := ascii_text) (H0 := insertion) "chicken" (-1) demo_state
       = Return results st' ∧
     length results = 2).
Proof.
  split.
  - destruct (retrieve_recipes_length (H := ascii_text) (H0 := insertion)
                demo_state "chicken" 0 demo_state_ok) as (results & st' & Hrun & Hlen).
    exists results, st'. split; [exact Hrun|]. rewrite Hlen. reflexivity.
  - destruct (retrieve_recipes_length (H := ascii_text) (H0 := insertion)
                demo_state "chicken" (-1) demo_state_ok) as (results & st' & Hrun & Hlen).
    exists results, st'. split; [exact Hrun|]. rewrite Hlen. reflexivity.
Qed.

Lemma demo_object_1 : objects demo_state !! 1 = Some recipe_2.
Proof. unfold demo_state, objects. by rewrite lookup_insert_ne, lookup_insert_eq. Qed.

Lemma demo_object_2 : objects demo_state !! 2 = Some recipe_3.
Proof. unfold demo_state, objects. by rewrite lookup_insert_eq. Qed.

Lemma demo_object_0 : objects demo_state !! 0 = Some recipe_1.
Proof.
  unfold demo_state, objects. rewrite !lookup_insert_ne by done.
  apply lookup_insert_eq.
Qed.

Lemma demo_top_2_beef : top_k_indices (H := insertion) [0; 0; 0]%R 2 = [2; 1].
Proof.
  unfold top_k_indices. simpl np_argsort. by rewrite insertion_argsort_zeros_3.
Qed.

Lemma demo_top_2_chicken : top_k_indices (H := insertion) [1; 0; 1]%R 2 = [2; 0].
Proof.
  unfold top_k_indices. simpl np_argsort. by rewrite insertion_argsort_chicken.
Qed.

(** The records behind a ranking of two documents. *)
Lemma demo_two_results similarities st' i j di dj results :
  Forall2 (scored_copy_of (self demo_state) similarities (objects demo_state)
             (objects st')) [i; j] results →
  recipes (self demo_state) !! i = Some i →
  recipes (self demo_state) !! j = Some j →
  objects demo_state !! i = Some di →
  objects demo_state !! j = Some dj →
  contents (objects st') results =
    [Some (<["relevance_score" := VFloat (key similarities i)]> di);
     Some (<["relevance_score" := VFloat (key similarities j)]> dj)].
Proof.
  intros Hall Hi Hj Hdi Hdj.
  inversion Hall as [|? l1 ? rest (s1 & d1 & Hi1 & Hd1 & _ & Hl1) Hall']; subst.
  inversion Hall' as [|? l2 ? rest' (s2 & d2 & Hi2 & Hd2 & _ & Hl2) Hall'']; subst.
  inversion Hall''; subst.
  rewrite Hi in Hi1. injection Hi1 as <-. rewrite Hj in Hi2. injection Hi2 as <-.
  rewrite Hdi in Hd1. injection Hd1 as <-. rewrite Hdj in Hd2. injection Hd2 as <-.
  unfold contents. cbn [map]. rewrite Hl1, Hl2. reflexivity.
Qed.

(** C2, refuted on the corpus of the specification's scenario, with the
    insertion sort for [argsort].  The query "chicken" scores 1.0 against recipes
    1 and 3: [retrieve_recipes("chicken", 2)] returns recipe 3, then recipe 1.
    The query "beef" scores 0.0 against the three recipes:
    [retrieve_recipes("beef", 2)] returns recipe 3, then recipe 2.  A stable
    descending sort returns recipe 1 then recipe 3, and recipe 1 then recipe 2. *)
Lemma retrieve_recipes_ties_counterexample :
  (∃ results st',
     query_similarities (H := ascii_text) (self demo_state) "chicken"
       = Ok [1; 0; 1]%R ∧
     retrieve_recipes (H := ascii_text) (H0 := insertion) "chicken" 2 demo_state
       = Return results st' ∧
     contents (objects st') results =
       [Some (<["relevance_score" := VFloat 1]> recipe_3);
        Some (<["relevance_score" := VFloat 1]> recipe_1)] ∧
     ¬ ties_in_store_order [1; 0; 1]%R (top_k_indices (H := insertion) [1; 0; 1]%R 2)) ∧
  (∃ results st',
     query_similarities (H := ascii_text) (self demo_state) "beef"
       = Ok [0; 0; 0]%R ∧
     retrieve_recipes (H := ascii_text) (H0 := insertion) "beef" 2 demo_state
       = Return results st' ∧
     contents (objects st') results =
       [Some (<["relevance_score" := VFloat 0]> recipe_3);
        Some (<["relevance_score" := VFloat 0]> recipe_2)] ∧
     ¬ ties_in_store_order [0; 0; 0]%R (top_k_indices (H := insertion) [0; 0; 0]%R 2)).
Proof.
  split.
  - destruct (retrieve_recipes_run (H := ascii_text) (H0 := insertion)
                demo_state "chicken" 2 demo_state_ok)
      as (sims & results & st' & Hsims & _ & Hrun & _ & _ & Hall).
    rewrite demo_similarities_chicken in Hsims. injection Hsims as <-.
    rewrite demo_top_2_chicken in Hall.
    exists results, st'.
    split; [exact demo_similarities_chicken|]. split; [exact Hrun|]. split.
    + exact (demo_two_results _ _ 2 0 _ _ _ Hall eq_refl eq_refl
               demo_object_2 demo_object_0).
    + rewrite demo_top_2_chicken. intros Hties.
      assert (2 < 0) by (apply (Hties 0 1 2 0); [lia|reflexivity..]). lia.
  - destruct (retrieve_recipes_run (H := ascii_text) (H0 := insertion)
                demo_state "beef" 2 demo_state_ok)
      as (sims & results & st' & Hsims & _ & Hrun & _ & _ & Hall).
    rewrite demo_similarities_beef in Hsims. injection Hsims as <-.
    rewrite demo_top_2_beef in Hall.
    exists results, st'.
    split; [exact demo_similarities_beef|]. split; [exact Hrun|]. split.
    + exact (demo_two_results _ _ 2 1 _ _ _ Hall eq_refl eq_refl
               demo_object_2 demo_object_1).
    + rewrite demo_top_2_beef. intros Hties.
      assert (2 < 1) by (apply (Hties 0 1 2 1); [lia|reflexivity..]). lia.
Qed.

(** C2 as amended, on the scenario's corpus: query "chicken", [k = 2]. *)
Lemma retrieve_recipes_ties_reversed_witness :
  retriever_ok demo_state ∧
  ∃ similarities results st',
    query_similarities (H := ascii_text) (self demo_state) "chicken" = Ok similarities ∧
    retrieve_recipes (H := ascii_text) (H0 := insertion) "chicken" 2 demo_state
      = Return results st' ∧
    Forall2 (scored_copy_of (self demo_state) similarities
               (objects demo_state) (objects st'))
            (top_k_indices (H := insertion) similarities 2) results ∧
    length results = 2 ∧
    (∀ i j, precedes (top_k_indices (H := insertion) similarities 2) i j →
            (key similarities j <= key similarities i)%R ∧
            precedes (np_argsort (NpArgsort := insertion) similarities) j i) ∧
    (∀ i j, i ∈ top_k_indices (H := insertion) similarities 2 →
            j < corpus_size demo_state →
            j ∉ top_k_indices (H := insertion) similarities 2 →
            (key similarities j <= key similarities i)%R ∧
            precedes (np_argsort (NpArgsort := insertion) similarities) j i).
Proof.
  split; [exact demo_state_ok|].
  destruct (retrieve_recipes_ties_reversed (H := ascii_text) (argsort := insertion)
              demo_state "chicken" 2 demo_state_ok)
    as (sims & results & st' & Hsims & Hrun & Hall & Hlen & Horder & Hcut & _).
  exists sims, results, st'.
  split; [exact Hsims|]. split; [exact Hrun|]. split; [exact Hall|].
  split; [|exact (conj Horder Hcut)].
  rewrite Hlen by lia. reflexivity.
Defined.

(** * The health category *)

Ltac bucket :=
  unfold health_category, cut, searchsorted_left;
  rewrite ?filter_cons, ?filter_nil; simpl;
  repeat match goal with
         | |- context [@decide (Rlt ?a ?b) ?i] =>
             destruct (@decide (Rlt a b) i); try lra
         end;
  reflexivity.

(** C7, refuted at the edges.  [pd.cut] closes its bins on the right: 200
    calories are [low_calorie] where the claim has [moderate], and 0 calories
    fall in no bin where the claim has [low_calorie]. *)
Lemma health_category_counterexample :
  health_category (Some 200%R) = Some "low_calorie" ∧
  health_category (Some 0%R) = None ∧
  ¬ left_closed_buckets.
Proof.
  assert (health_category (Some 200%R) = Some "low_calorie") as H200 by bucket.
  assert (health_category (Some 0%R) = None) as H0 by bucket.
  repeat split; [done..|].
  intros Hclaim. destruct (Hclaim 200%R) as (_ & Hmod & _).
  rewrite H200 in Hmod. specialize (Hmod ltac:(lra)). discriminate.
Qed.

(** C7, as amended.  The bins are closed on the right: calories in (0, 200]
    are [low_calorie], in (200, 400] [moderate], in (400, 600] [high_calorie],
    above 600 [very_high_calorie]; a value of 0 or below falls in no bin, and
    the category is missing when the calories are. *)
Theorem health_category_buckets :
  (∀ c : R,
     ((0 < c <= 200)%R → health_category (Some c) = Some "low_calorie") ∧
     ((200 < c <= 400)%R → health_category (Some c) = Some "moderate") ∧
     ((400 < c <= 600)%R → health_category (Some c) = Some "high_calorie") ∧
     ((600 < c)%R → health_category (Some c) = Some "very_high_calorie") ∧
     ((c <= 0)%R → health_category (Some c) = None)) ∧
  health_category None = None.
Proof.
  split; [|done]. intros c. repeat split; intros Hc; bucket.
Qed.

(** C7 as amended, at 150, 200 and 650 calories. *)
Lemma health_category_buckets_witness :
  health_category (Some 150%R) = Some "low_calorie" ∧
  health_category (Some 200%R) = Some "low_calorie" ∧
  health_category (Some 650%R) = Some "very_high_calorie".
Proof.
  destruct health_category_buckets as [Hbuckets _].
  split; [|split].
  - destruct (Hbuckets 150%R) as (Hlow & _). apply Hlow. lra.
  - destruct (Hbuckets 200%R) as (Hlow & _). apply Hlow. lra.
  - destruct (Hbuckets 650%R) as (_ & _ & _ & Hvery & _). apply Hvery. lra.
Defined.

(** * The evaluation metrics *)

Section MetricsProperties.
Context `{Countable Id}.

(** C10.  [calculate_recall_at_k] returns for every relevant set, retrieved
    list and [k], and never divides by zero: on an empty relevant set it
    returns 0.0; otherwise the number of relevant items is not zero and it
    returns the number of relevant items among [retrieved_items[:k]] (the
    first [k] retrieved when [k >= 0]) over the number of relevant items. *)
Theorem calculate_recall_at_k_total (relevant_items : gset Id)
    (retrieved_items : list Id) (k : Z) :
  (relevant_items = ∅ →
   calculate_recall_at_k relevant_items retrieved_items k = Ok 0%R) ∧
  (relevant_items ≠ ∅ →
   size relevant_items ≠ 0 ∧
   calculate_recall_at_k relevant_items retrieved_items k =
     Ok (INR (size (relevant_in_top_k relevant_items retrieved_items k))
         / INR (size relevant_items))%R) ∧
  ((0 <= k)%Z → Py.slice_to retrieved_items k = take (Z.to_nat k) retrieved_items) ∧
  ∃ recall, calculate_recall_at_k relevant_items retrieved_items k = Ok recall ∧
            (0 <= recall <= 1)%R.
Proof.
  assert (relevant_items ∩ list_to_set (Py.slice_to retrieved_items k)
          = relevant_in_top_k relevant_items retrieved_items k) as Hinter.
  { apply set_eq. intros x. unfold relevant_in_top_k.
    rewrite elem_of_intersection, elem_of_filter, elem_of_list_to_set. tauto. }
  assert (relevant_in_top_k relevant_items retrieved_items k ⊆ relevant_items) as Hsub.
  { intros x. unfold relevant_in_top_k. rewrite elem_of_filter. tauto. }
  apply subseteq_size in Hsub.
  unfold calculate_recall_at_k, truediv. rewrite Hinter.
  destruct (decide (size relevant_items = 0)) as [Hz|Hnz].
  - apply size_empty_inv, leibniz_equiv in Hz. subst.
    split; [done|]. split; [done|]. split; [by apply slice_to_nonneg|].
    exists 0%R. split; [done|lra].
  - assert (0 < INR (size relevant_items))%R as Hpos.
    { apply lt_0_INR. lia. }
    split; [|split; [|split]].
    + intros ->. by rewrite size_empty in Hnz.
    + done.
    + by apply slice_to_nonneg.
    + eexists. split; [reflexivity|]. split.
      * apply Rmult_le_pos; [apply pos_INR|]. left. by apply Rinv_0_lt_compat.
      * apply (Rmult_le_reg_r (INR (size relevant_items))); [done|].
        unfold Rdiv. rewrite Rmult_assoc, Rinv_l, Rmult_1_r, Rmult_1_l by lra.
        by apply le_INR.
Qed.

End MetricsProperties.

(** C10, on the relevant set {5, 9} and on the empty one. *)
Lemma calculate_recall_at_k_total_witness :
  calculate_recall_at_k ({[5%Z; 9%Z]} : gset Z) [9; 1; 5]%Z 1 = Ok (1 / 2)%R ∧
  calculate_recall_at_k (∅ : gset Z) [9; 1; 5]%Z 3 = Ok 0%R.
Proof.
  split.
  - destruct (calculate_recall_at_k_total ({[5%Z; 9%Z]} : gset Z) [9; 1; 5]%Z 1)
      as (_ & Hsome & _).
    assert (({[5%Z; 9%Z]} : gset Z) ≠ ∅) as Hne.
    { intros Hempty. apply (f_equal size) in Hempty. vm_compute in Hempty. lia. }
    destruct (Hsome Hne) as [_ ->].
    replace (size (relevant_in_top_k _ _ _)) with 1 by (vm_compute; reflexivity).
    replace (size ({[5%Z; 9%Z]} : gset Z)) with 2 by (vm_compute; reflexivity).
    reflexivity.
  - destruct (calculate_recall_at_k_total (∅ : gset Z) [9; 1; 5]%Z 3) as (Hnone & _).
    by apply Hnone.
Defined.

(** ** NDCG *)

Lemma ln_2_pos : (0 < ln 2)%R.
Proof. rewrite <- ln_1. apply ln_increasing; lra. Qed.

Lemma log2_2 : log2 2 = 1%R.
Proof. unfold log2. field. pose proof ln_2_pos. lra. Qed.

Lemma log2_4 : log2 4 = 2%R.
Proof.
  unfold log2. replace 4%R with (2 * 2)%R by lra. rewrite ln_mult by lra.
  field. pose proof ln_2_pos. lra.
Qed.

(** [3^12 > 2^19] and [3^41 < 2^65]. *)
Lemma log2_3_bounds : (19 / 12 < log2 3 < 65 / 41)%R.
Proof.
  pose proof ln_2_pos as H2.
  assert (19 * ln 2 < 12 * ln 3)%R as Hlo.
  { replace 19%R with (INR 19) by (simpl; lra).
    replace 12%R with (INR 12) by (simpl; lra).
    rewrite <- !ln_pow by lra. apply ln_increasing; [apply pow_lt; lra|].
    simpl; lra. }
  assert (41 * ln 3 < 65 * ln 2)%R as Hhi.
  { replace 41%R with (INR 41) by (simpl; lra).
    replace 65%R with (INR 65) by (simpl; lra).
    rewrite <- !ln_pow by lra. apply ln_increasing; [apply pow_lt; lra|].
    simpl; lra. }
  unfold log2. split.
  - apply Rmult_lt_reg_r with (ln 2); [exact H2|]. field_simplify; lra.
  - apply Rmult_lt_reg_r with (ln 2); [exact H2|]. field_simplify; lra.
Qed.

Lemma scenario_dcg : dcg_at_k ({[5%Z; 9%Z]} : gset Z) [9; 1; 5]%Z 3 = (3 / 2)%R.
Proof.
  unfold dcg_at_k, Py.slice_to, Py.enumerate. simpl.
  rewrite (decide_True (P := 9%Z ∈ _)) by set_solver.
  rewrite (decide_False (P := 1%Z ∈ _))
    by (rewrite elem_of_union, !elem_of_singleton; lia).
  rewrite (decide_True (P := 5%Z ∈ _)) by set_solver.
  replace (1 + 1 + 1 + 1)%R with 4%R by lra.
  replace (1 + 1)%R with 2%R by lra.
  rewrite log2_2, log2_4. lra.
Qed.

Lemma scenario_idcg : idcg_at_k ({[5%Z; 9%Z]} : gset Z) 3 = (1 + 1 / log2 3)%R.
Proof.
  unfold idcg_at_k.
  replace (size ({[5%Z; 9%Z]} : gset Z)) with 2 by (vm_compute; reflexivity).
  simpl.
  change (1 + Z.of_nat 0 + 1)%Z with 2%Z. change (1 + Z.of_nat 1 + 1)%Z with 3%Z.
  rewrite log2_2. lra.
Qed.

Section IdealRanking.
Context `{Countable Id}.

Lemma dcg_loop_all_relevant (relevant_items : gset Id) (items : list Id) (s : nat) (acc : R) :
  Forall (λ x, x ∈ relevant_items) items →
  foldl (λ dcg '(i, item_id),
           if decide (item_id ∈ relevant_items)
           then (dcg + 1 / log2 (INR (i + 1)))%R
           else dcg)
        acc (zip (seq s (length items)) items)
  = foldl Rplus acc (map (λ i, (1 / log2 (INR (i + 1)))%R) (seq s (length items))).
Proof.
  intros Hall. revert s acc.
  induction Hall as [|x items Hx _ IH]; intros s acc; simpl; [done|].
  rewrite decide_True by done. apply IH.
Qed.

(** The ideal DCG is the DCG of a ranking that lists the relevant items first. *)
Lemma idcg_is_ideal_dcg (relevant_items : gset Id) (k : Z) :
  (0 <= k)%Z →
  idcg_at_k relevant_items k = dcg_at_k relevant_items (elements relevant_items) k.
Proof.
  intros Hk. unfold idcg_at_k, dcg_at_k, Py.enumerate.
  rewrite slice_to_nonneg by done.
  set (top := take (Z.to_nat k) (elements relevant_items)).
  assert (Forall (λ x, x ∈ relevant_items) top) as Hall.
  { apply Forall_forall. intros x Hx. apply elem_of_elements.
    unfold top in Hx. apply elem_of_take in Hx as (i & Hi & _).
    by eapply list_elem_of_lookup_2. }
  rewrite (dcg_loop_all_relevant _ _ _ _ Hall). f_equal.
  assert (length top = Z.to_nat (Z.min (Z.of_nat (size relevant_items)) k)) as ->.
  { unfold top. rewrite length_take. unfold size, set_size. simpl. lia. }
  unfold py_range.
  replace (Z.min (Z.of_nat (size relevant_items)) k + 1 - 1)%Z
    with (Z.min (Z.of_nat (size relevant_items)) k) by lia.
  generalize (Z.to_nat (Z.min (Z.of_nat (size relevant_items)) k)). intros m.
  rewrite map_map, <- seq_shift, map_map. apply map_ext. intros i.
  do 2 f_equal. rewrite INR_IZR_INZ. f_equal. lia.
Qed.

End IdealRanking.

(** C8.  NDCG at k has binary relevance and a log2 discount, and its ideal DCG
    is the DCG of a ranking with the [min(|relevant|, k)] relevant items on
    top.  For [relevant_items = {5, 9}], [retrieved_items = [9, 1, 5]] and
    [k = 3]: DCG is [1/log2(2) + 0 + 1/log2(4) = 1.5], IDCG is
    [1/log2(2) + 1/log2(3)], NDCG is [1.5 / (1 + 1/log2(3))], which lies
    between 0.919 and 0.920. *)
Theorem calculate_ndcg_at_k_scenario :
  (∀ `{Countable Id} (relevant_items : gset Id) (k : Z),
     (0 <= k)%Z →
     idcg_at_k relevant_items k = dcg_at_k relevant_items (elements relevant_items) k) ∧
  dcg_at_k ({[5%Z; 9%Z]} : gset Z) [9; 1; 5]%Z 3
    = (1 / log2 2 + 0 + 1 / log2 4)%R ∧
  dcg_at_k ({[5%Z; 9%Z]} : gset Z) [9; 1; 5]%Z 3 = 1.5%R ∧
  idcg_at_k ({[5%Z; 9%Z]} : gset Z) 3 = (1 / log2 2 + 1 / log2 3)%R ∧
  calculate_ndcg_at_k ({[5%Z; 9%Z]} : gset Z) [9; 1; 5]%Z 3
    = (1.5 / (1 + 1 / log2 3))%R ∧
  (0.919 < calculate_ndcg_at_k ({[5%Z; 9%Z]} : gset Z) [9; 1; 5]%Z 3 < 0.920)%R.
Proof.
  pose proof log2_3_bounds as [Hlo Hhi].
  assert (0 < log2 3)%R as Hpos by lra.
  assert (41 / 65 < 1 / log2 3 < 12 / 19)%R as [Hxlo Hxhi].
  { split.
    - apply Rmult_lt_reg_r with (log2 3); [exact Hpos|]. field_simplify; lra.
    - apply Rmult_lt_reg_r with (log2 3); [exact Hpos|]. field_simplify; lra. }
  assert (calculate_ndcg_at_k ({[5%Z; 9%Z]} : gset Z) [9; 1; 5]%Z 3
          = (1.5 / (1 + 1 / log2 3))%R) as Hndcg.
  { unfold calculate_ndcg_at_k. rewrite scenario_dcg, scenario_idcg.
    destruct (Req_dec_T _ _); [lra|]. f_equal. lra. }
  split; [intros; by apply idcg_is_ideal_dcg|].
  split; [rewrite scenario_dcg, log2_2, log2_4; lra|].
  split; [rewrite scenario_dcg; lra|].
  split; [rewrite scenario_idcg, log2_2; lra|].
  split; [exact Hndcg|].
  rewrite Hndcg. set (x := (1 / log2 3)%R) in *. split.
  - apply Rmult_lt_reg_r with (1 + x)%R; [lra|]. field_simplify; lra.
  - apply Rmult_lt_reg_r with (1 + x)%R; [lra|]. field_simplify; lra.
Qed.

(** C8, the ideal ranking of the scenario: the relevant items 5 and 9 first. *)
Lemma calculate_ndcg_at_k_scenario_witness :
  idcg_at_k ({[5%Z; 9%Z]} : gset Z) 3
  = dcg_at_k ({[5%Z; 9%Z]} : gset Z) (elements ({[5%Z; 9%Z]} : gset Z)) 3.
Proof.
  destruct calculate_ndcg_at_k_scenario as [Hideal _].
  apply Hideal. lia.
Defined.

(** * Further properties of the retriever *)

(** ** The results of a call *)

Section Results.
Context `{TextPrims} `{NpArgsort}.

Lemma __init___run (file : list dict) (h : heap) :
  ∃ loaded h',
    Forall2 (λ d l, h' !! l = Some d) file loaded ∧ h ⊆ h' ∧
    __init__ file h =
    match fit_transform (map (λ d, dict_get d "searchable_text" (VStr "")) file) with
    | Raise e =>
        Throw e {| self := {| recipes := loaded; vectorizer := Some Unfitted;
                              tfidf_matrix := None |};
                   objects := h' |}
    | Ok fitted =>
        Return () {| self := {| recipes := loaded; vectorizer := Some (fst fitted);
                                tfidf_matrix := Some (snd fitted) |};
                     objects := h' |}
    end.
Proof.
  unfold __init__. set (st0 := {| self := _; objects := h |}).
  destruct (load_run file st0) as (loaded & st1 & Hload & Hself & Hsub & Hall).
  exists loaded, (objects st1). split; [done|]. split; [done|].
  erewrite bind_Ok.
  2:{ unfold _load_recipes. erewrite bind_Ok; [|exact Hload].
      erewrite bind_Ok; reflexivity. }
  rewrite (_build_index_run file); [|done]. simpl. by rewrite Hself.
Qed.

(** X1.  On an initialised retriever [retrieve_recipes] returns, for every
    query and every [k]: [min(k, corpus_size)] records when [k > 0],
    [max(0, corpus_size + k)] records when [k <= 0] (the slice [a[-k:]] is
    [a[0:]] for [k = 0]), and never more records than there are recipes. *)
Theorem retrieve_recipes_count st query k :
  retriever_ok st →
  ∃ results st',
    retrieve_recipes query k st = Return results st' ∧
    ((0 < k)%Z → length results = Z.to_nat (Z.min k (Z.of_nat (corpus_size st)))) ∧
    ((k <= 0)%Z → length results = Z.to_nat (Z.max 0 (Z.of_nat (corpus_size st) + k))) ∧
    length results ≤ corpus_size st.
Proof.
  intros Hok.
  destruct (retrieve_recipes_length st query k Hok) as (results & st' & Hrun & Hlen).
  exists results, st'. split; [done|]. rewrite Hlen.
  destruct (0 <? k)%Z eqn:E; [apply Z.ltb_lt in E | apply Z.ltb_ge in E];
    repeat split; intros; lia.
Qed.

Lemma top_k_indices_NoDup similarities k : NoDup (top_k_indices similarities k).
Proof.
  unfold top_k_indices, Py.reversed, Py.slice_from.
  rewrite <- Permutation_rev.
  eapply sublist_NoDup; [|apply sublist_drop].
  rewrite np_argsort_perm. apply NoDup_seq.
Qed.

(** The objects the loop of [retrieve_recipes] returns are new and pairwise
    distinct. *)
Lemma scoring_loop_fresh (s : RecipeRetriever) (similarities : list R) idxs st results st' :
  (∀ src, src ∈ recipes s → is_Some (objects st !! src)) →
  (∀ idx, idx ∈ idxs → idx < length (recipes s)) →
  for_each idxs (λ idx,
    let* stored := lift (list_getitem (recipes s) idx) in
    let* recipe := dict_copy stored in
    let* _ := dict_setitem recipe "relevance_score"
                (VFloat (key similarities idx)) in
    ret recipe) st = Return results st' →
  NoDup results ∧ Forall (λ l, objects st !! l = None) results.
Proof.
  set (body := λ idx : nat, _).
  revert st results. induction idxs as [|idx idxs IH]; intros st results Hsrc Hidxs.
  - intros [= <- <-]. split; constructor.
  - destruct (lookup_lt_is_Some_2 (recipes s) idx) as [src Hidx].
    { apply Hidxs. by left. }
    destruct (Hsrc src) as [d Hd]; [by eapply list_elem_of_lookup_2|].
    set (l := fresh (dom (objects st))).
    assert (objects st !! l = None) as Hl.
    { apply not_elem_of_dom. apply is_fresh. }
    set (d' := <["relevance_score" := VFloat (key similarities idx)]> d).
    set (st1 := {| self := self st; objects := <[l := d']> (objects st) |}).
    simpl.
    erewrite bind_Ok; [|by apply (scored_copy_run s similarities idx st src d)].
    fold l d' st1. unfold bind at 1.
    destruct (for_each idxs body st1) as [rest st2|] eqn:Hrest; [|done].
    intros [= <- <-].
    destruct (IH st1 rest) as [Hnd Hnew]; [| |done|].
    { intros src' Hsrc'. destruct (Hsrc src' Hsrc') as [d0 Hd0].
      exists d0. simpl. rewrite lookup_insert_ne; [done|]. intros <-. congruence. }
    { intros i Hi. apply Hidxs. by right. }
    split.
    + constructor; [|done]. intros Hin.
      rewrite Forall_forall in Hnew. specialize (Hnew l Hin).
      simpl in Hnew. by rewrite lookup_insert_eq in Hnew.
    + constructor; [done|]. eapply Forall_impl; [exact Hnew|].
      intros l' Hl'. simpl in Hl'. apply lookup_insert_None in Hl'. tauto.
Qed.

(** X2.  On an initialised retriever no recipe is returned twice: the ranked
    indices are pairwise distinct, and the returned records are new objects,
    pairwise distinct and distinct from every stored recipe. *)
Theorem retrieve_recipes_distinct st query k :
  retriever_ok st →
  ∃ similarities results st',
    query_similarities (self st) query = Ok similarities ∧
    retrieve_recipes query k st = Return results st' ∧
    Forall2 (scored_copy_of (self st) similarities (objects st) (objects st'))
            (top_k_indices similarities k) results ∧
    NoDup (top_k_indices similarities k) ∧
    NoDup results ∧
    Forall (λ l, l ∉ recipes (self st)) results.
Proof.
  intros Hok.
  destruct (retrieve_recipes_run st query k Hok)
    as (sims & results & st' & Hsims & Hlen & Hrun & _ & _ & Hall).
  exists sims, results, st'. split; [done|]. split; [done|]. split; [done|].
  split; [apply top_k_indices_NoDup|].
  assert (∀ src, src ∈ recipes (self st) → is_Some (objects st !! src)) as Halloc.
  { by destruct Hok as (? & ? & ? & ? & ? & ? & ? & ? & ? & ?). }
  unfold retrieve_recipes in Hrun.
  erewrite bind_Ok in Hrun; [|reflexivity].
  erewrite bind_Ok in Hrun; [|unfold lift; by rewrite Hsims].
  apply scoring_loop_fresh in Hrun as [Hnd Hnew]; [|done|].
  - split; [done|]. eapply Forall_impl; [exact Hnew|].
    intros l Hl Hin. destruct (Halloc l Hin) as [d Hd]. congruence.
  - intros idx Hidx. apply elem_of_top_k_indices in Hidx.
    unfold corpus_size in Hlen. lia.
Qed.

Lemma top_k_indices_prefix similarities k k' :
  (0 < k <= k')%Z →
  top_k_indices similarities k
  = take (length (top_k_indices similarities k)) (top_k_indices similarities k').
Proof.
  intros Hk. unfold top_k_indices, Py.reversed, Py.slice_from.
  set (a := np_argsort similarities).
  destruct (- k <? 0)%Z eqn:E; [|apply Z.ltb_ge in E; lia].
  destruct (- k' <? 0)%Z eqn:E'; [|apply Z.ltb_ge in E'; lia].
  set (m := Z.to_nat (Z.max (- k + Z.of_nat (length a)) 0)).
  set (m' := Z.to_nat (Z.max (- k' + Z.of_nat (length a)) 0)).
  assert (m' ≤ m) as Hm by lia.
  assert (drop m' a = take (m - m') (drop m' a) ++ drop m a) as ->.
  { rewrite <- (take_drop (m - m') (drop m' a)) at 1.
    rewrite drop_drop. by replace (m' + (m - m')) with m by lia. }
  rewrite rev_app_distr. by rewrite take_app_length.
Qed.

Lemma top_k_indices_all similarities k :
  (Z.of_nat (length similarities) <= k)%Z → (0 < k)%Z →
  top_k_indices similarities k ≡ₚ seq 0 (length similarities).
Proof.
  intros Hk Hpos. unfold top_k_indices, Py.reversed, Py.slice_from.
  destruct (- k <? 0)%Z eqn:E; [|apply Z.ltb_ge in E; lia].
  rewrite np_argsort_length.
  replace (Z.to_nat _) with 0 by lia. rewrite drop_0, <- Permutation_rev.
  apply np_argsort_perm.
Qed.

(** What the caller reads in scored copies. *)
Lemma scored_copies_contents s similarities before after idxs results :
  Forall2 (scored_copy_of s similarities before after) idxs results →
  contents after results =
  map (λ idx, d ← (recipes s !! idx ≫= (before !!.));
              Some (<["relevance_score" := VFloat (key similarities idx)]> d)) idxs.
Proof.
  induction 1 as [|idx l idxs results (src & d & Hidx & Hd & _ & Hl) _ IH]; [done|].
  unfold contents in *. simpl. rewrite IH, Hl, Hidx. simpl. by rewrite Hd.
Qed.

(** X22.  Asking for more results extends the list: for [0 < k <= k'], what
    [retrieve_recipes(query, k)] returns reads the same as the first records
    of what [retrieve_recipes(query, k')] returns on the same retriever. *)
Theorem retrieve_recipes_prefix st query k k' :
  retriever_ok st → (0 < k <= k')%Z →
  ∃ short st1 long st2,
    retrieve_recipes query k st = Return short st1 ∧
    retrieve_recipes query k' st = Return long st2 ∧
    contents (objects st1) short = take (length short) (contents (objects st2) long).
Proof.
  intros Hok Hk.
  destruct (retrieve_recipes_run st query k Hok)
    as (sims & short & st1 & Hsims & _ & Hrun & _ & _ & Hall).
  destruct (retrieve_recipes_run st query k' Hok)
    as (sims' & long & st2 & Hsims' & _ & Hrun' & _ & _ & Hall').
  assert (sims' = sims) as -> by congruence.
  exists short, st1, long, st2. split; [done|]. split; [done|].
  rewrite (scored_copies_contents _ _ _ _ _ _ Hall),
          (scored_copies_contents _ _ _ _ _ _ Hall').
  rewrite <- (Forall2_length _ _ _ Hall).
  rewrite (top_k_indices_prefix sims k k' Hk) at 1.
  rewrite <- (firstn_map). done.
Qed.

(** X23.  For [k] at least the number of recipes, every stored recipe is
    returned exactly once: the ranked indices are a permutation of all the
    positions of the store. *)
Theorem retrieve_recipes_all st query k :
  retriever_ok st → (Z.of_nat (corpus_size st) <= k)%Z →
  ∃ similarities results st',
    query_similarities (self st) query = Ok similarities ∧
    retrieve_recipes query k st = Return results st' ∧
    Forall2 (scored_copy_of (self st) similarities (objects st) (objects st'))
            (top_k_indices similarities k) results ∧
    top_k_indices similarities k ≡ₚ seq 0 (corpus_size st).
Proof.
  intros Hok Hk.
  destruct (retrieve_recipes_run st query k Hok)
    as (sims & results & st' & Hsims & Hlen & Hrun & _ & _ & Hall).
  exists sims, results, st'. split; [done|]. split; [done|]. split; [done|].
  rewrite <- Hlen. apply top_k_indices_all; [lia|].
  destruct Hok as (? & ? & X & _ & _ & _ & _ & Hs0 & Hpos & _).
  unfold corpus_size in *. lia.
Qed.

End Results.

(** ** No cosine similarity is negative *)

Lemma sum_squares_nonneg x : (0 <= sum_squares x)%R.
Proof.
  unfold sum_squares. induction x as [|w x IH]; simpl; [lra|]. nra.
Qed.

Lemma l2_normalize_row_nonneg row : non_negative row → non_negative (l2_normalize_row row).
Proof.
  intros Hrow. unfold l2_normalize_row. fold (sum_squares row).
  pose proof (sum_squares_nonneg row) as Hs.
  destruct (Req_dec_T _ _) as [Hz|Hnz]; [done|].
  assert (0 < sqrt (sum_squares row))%R as Hroot by (apply sqrt_lt_R0; lra).
  unfold non_negative. rewrite Forall_map. eapply Forall_impl; [exact Hrow|].
  simpl. intros w Hw. apply Rmult_le_pos; [done|]. left. by apply Rinv_0_lt_compat.
Qed.

Lemma dot_nonneg x y : non_negative x → non_negative y → (0 <= dot x y)%R.
Proof.
  intros Hx. revert y. unfold dot.
  induction Hx as [|v x Hv _ IH]; intros y Hy; [simpl; lra|].
  destruct Hy as [|w y Hw Hy]; simpl; [lra|]. specialize (IH y Hy). nra.
Qed.

Lemma weighted_counts_nonneg (row : list nat) (idf : list R) :
  non_negative idf → non_negative (zip_with (λ (c : nat) w, INR c * w)%R row idf).
Proof.
  intros Hidf. revert row.
  induction Hidf as [|w idf Hw _ IH]; intros [|c row]; simpl; try constructor.
  - apply Rmult_le_pos; [apply pos_INR|done].
  - apply IH.
Qed.

Lemma tfidf_transform_nonneg n idf X :
  non_negative idf → Forall non_negative (rows (tfidf_transform n idf X)).
Proof.
  intros Hidf. unfold tfidf_transform, normalize. simpl.
  rewrite !Forall_map. apply Forall_forall. intros row _. simpl.
  by apply l2_normalize_row_nonneg, weighted_counts_nonneg.
Qed.

Lemma document_frequency_le X j : document_frequency X j ≤ length X.
Proof. unfold document_frequency. apply length_filter. Qed.

Lemma tfidf_fit_nonneg X n : non_negative (tfidf_fit X n).
Proof.
  unfold tfidf_fit, non_negative. rewrite Forall_map. apply Forall_forall. intros j _.
  simpl. left. apply smooth_idf_pos, document_frequency_le.
Qed.

Lemma cosine_similarity_nonneg X Y K :
  Forall non_negative (rows X) → Forall non_negative (rows Y) →
  cosine_similarity X Y = Ok K →
  Forall non_negative K.
Proof.
  intros HX HY. unfold cosine_similarity.
  destruct (check_array X); [|done]. destruct (check_array Y); [|done].
  destruct (decide _); [|done]. intros [= <-].
  unfold normalize. simpl. rewrite !Forall_map. eapply Forall_impl; [exact HX|].
  intros x Hx. simpl. unfold non_negative. rewrite !Forall_map.
  eapply Forall_impl; [exact HY|].
  intros y Hy. simpl. apply dot_nonneg; by apply l2_normalize_row_nonneg.
Qed.

Section NonNegative.
Context `{TextPrims} `{NpArgsort}.

Lemma fit_transform_nonneg raw v X :
  fit_transform raw = Ok (v, X) →
  ∃ vocabulary_ idf_, v = Fitted vocabulary_ idf_ ∧ non_negative idf_ ∧ Forall non_negative (rows X).
Proof.
  unfold fit_transform. destruct (count_fit_transform raw) as [[features C]|]; [|done].
  intros [= <- <-]. eexists _, _. split; [done|].
  split; [apply tfidf_fit_nonneg|apply tfidf_transform_nonneg, tfidf_fit_nonneg].
Qed.

Lemma query_similarities_nonneg s query similarities :
  index_non_negative s →
  query_similarities s query = Ok similarities →
  non_negative similarities.
Proof.
  intros (voc & idf & X & Hv & HX & Hidf & Hrows). unfold query_similarities.
  rewrite Hv, HX. simpl.
  destruct (cosine_similarity _ X) as [K|] eqn:HK; [|done]. intros [= <-].
  apply cosine_similarity_nonneg in HK; [|by apply tfidf_transform_nonneg|done].
  unfold flatten. apply Forall_concat. done.
Qed.

Lemma __init___nonneg file h st :
  __init__ file h = Return () st → index_non_negative (self st).
Proof.
  destruct (__init___run file h) as (loaded & h' & _ & _ & ->).
  destruct (fit_transform _) as [[v X]|] eqn:Hfit; [|done].
  intros [= <-]. apply fit_transform_nonneg in Hfit as (voc & idf & -> & Hidf & HX).
  by exists voc, idf, X.
Qed.

End NonNegative.

Section Scores.
Context `{TextPrims} `{NpArgsort}.

Lemma key_Forall (P : R → Prop) a i : Forall P a → i < length a → P (key a i).
Proof.
  intros Ha Hi. unfold key. destruct (lookup_lt_is_Some_2 a i Hi) as [x Hx].
  rewrite (nth_lookup_Some _ _ _ _ Hx). by eapply Forall_lookup_1.
Qed.

(** X3.  On a retriever that [__init__] returns, no similarity of a query to
    a recipe is negative; every call of [retrieve_recipes] returns, and every
    record it returns carries as relevance score the similarity of the
    recipe it copies, a float that is not negative. *)
Theorem relevance_scores_non_negative (file : list dict) (h : heap) st query k :
  __init__ file h = Return () st →
  ∃ similarities results st',
    query_similarities (self st) query = Ok similarities ∧
    Forall (λ x, 0 <= x)%R similarities ∧
    retrieve_recipes query k st = Return results st' ∧
    Forall2 (λ idx l, relevance_score (objects st') l
                        = Some (VFloat (key similarities idx)) ∧
                      (0 <= key similarities idx)%R)
            (top_k_indices similarities k) results.
Proof.
  intros Hinit.
  pose proof (__init___nonneg _ _ _ Hinit) as Hnonneg.
  apply __init___ok in Hinit as (Hok & _).
  destruct (retrieve_recipes_run st query k Hok)
    as (sims & results & st' & Hsims & Hlen & Hrun & _ & _ & Hall).
  pose proof (query_similarities_nonneg _ _ _ Hnonneg Hsims) as Hsign.
  exists sims, results, st'. split; [done|]. split; [done|]. split; [done|].
  apply Forall2_same_length_lookup. split; [by eapply Forall2_length|].
  intros p idx l Hidx Hp.
  destruct (Forall2_lookup_lr _ _ _ _ _ _ Hall Hidx Hp) as (src & d & _ & _ & _ & Hd).
  split.
  - unfold relevance_score. rewrite Hd. simpl. apply lookup_insert_eq.
  - apply key_Forall; [done|].
    apply (elem_of_top_k_indices sims k). by eapply list_elem_of_lookup_2.
Qed.

End Scores.

(** ** The vocabulary of the index *)

Lemma term_count_pos t terms : 0 < term_count t terms ↔ t ∈ terms.
Proof.
  unfold term_count. induction terms as [|u terms IH]; simpl.
  - split; [lia|]. by intros ?%elem_of_nil.
  - rewrite filter_cons, elem_of_cons. destruct (decide (u = t)) as [->|Hne]; simpl.
    + split; [by left|lia].
    + rewrite IH. split; [by right|]. intros [->|]; done.
Qed.

Lemma length_filter_ext {A} (P Q : A → Prop) `{∀ x, Decision (P x)} `{∀ x, Decision (Q x)}
    (l : list A) :
  (∀ x, x ∈ l → (P x ↔ Q x)) → length (filter P l) = length (filter Q l).
Proof.
  induction l as [|x l IH]; intros HPQ; [done|].
  rewrite !filter_cons. specialize (IH (λ y Hy, HPQ y (list_elem_of_further _ _ _ Hy))).
  destruct (decide (P x)) as [HP|HP], (decide (Q x)) as [HQ|HQ]; simpl; auto;
    exfalso; apply (HPQ x (list_elem_of_here _ _)) in HP || (apply HP, (HPQ x (list_elem_of_here _ _))); done.
Qed.

Lemma length_filter_map {A B} (f : A → B) (P : B → Prop) `{∀ y, Decision (P y)}
    (l : list A) :
  length (filter P (map f l)) = length (filter (λ x, P (f x)) l).
Proof.
  induction l as [|x l IH]; [done|]. simpl. rewrite !filter_cons.
  destruct (decide (P (f x))); simpl; by rewrite IH.
Qed.

(** The document frequency of a column of the count matrix is the number of
    documents in which its term occurs. *)
Lemma document_frequency_count_matrix features analysed j t :
  features !! j = Some t →
  document_frequency (count_matrix features analysed) j
  = length (filter (λ terms, t ∈ terms) analysed).
Proof.
  intros Hj. unfold document_frequency, count_matrix.
  rewrite length_filter_map. apply length_filter_ext. intros terms _.
  rewrite (nth_lookup_Some _ _ _ (term_count t terms)).
  - apply term_count_pos.
  - by rewrite list_lookup_map, Hj.
Qed.

Lemma filter_none {A} (P : A → Prop) `{∀ x, Decision (P x)} (l : list A) :
  (∀ x, x ∈ l → ¬ P x) → filter P l = [].
Proof.
  induction l as [|x l IH]; intros Hno; [done|].
  rewrite filter_cons, decide_False by (apply Hno; by left).
  apply IH. intros y Hy. apply Hno. by right.
Qed.

Lemma length_omap_le {A B} (f : A → option B) (l : list A) :
  length (omap f l) ≤ length l.
Proof.
  induction l as [|x l IH]; [done|]. cbn [omap list_omap length].
  change (list_omap _ _ f l) with (omap f l). destruct (f x); cbn [length]; lia.
Qed.

Section Vocabulary.
Context `{TextPrims} `{NpArgsort}.

Lemma limit_features_mask X n high low limit j :
  j ∈ limit_features X n high low limit →
  low ≤ document_frequency X j ∧ document_frequency X j ≤ high.
Proof.
  unfold limit_features. destruct (decide _); intros Hj.
  - apply list_elem_of_filter in Hj as [_ Hj].
    by apply list_elem_of_filter in Hj as [? _].
  - by apply list_elem_of_filter in Hj as [? _].
Qed.

Lemma limit_features_length X n high low limit :
  length (limit_features X n high low limit) ≤ limit.
Proof.
  unfold limit_features. destruct (decide _) as [Hlt|Hge]; [|lia].
  set (mask := filter _ (seq 0 n)) in *.
  set (chosen := omap _ _).
  assert (length chosen ≤ limit) as Hchosen.
  { unfold chosen. etrans; [apply length_omap_le|]. rewrite length_take. lia. }
  etrans; [|exact Hchosen]. apply submseteq_length, NoDup_submseteq.
  - apply NoDup_filter. unfold mask. apply NoDup_filter, NoDup_seq.
  - intros j Hj. by apply list_elem_of_filter in Hj as [? _].
Qed.

Lemma limit_features_empty X n high low limit :
  (∀ j, j < n → document_frequency X j < low) →
  limit_features X n high low limit = [].
Proof.
  intros Hlow. unfold limit_features.
  assert (filter (λ j, low ≤ document_frequency X j ∧ document_frequency X j ≤ high)
                 (seq 0 n) = []) as ->.
  { apply filter_none. intros j Hj.
    apply elem_of_seq in Hj. specialize (Hlow j ltac:(lia)). lia. }
  rewrite decide_False; [done|]. simpl. lia.
Qed.

Lemma elem_of_sort_features vocabulary t : t ∈ sort_features vocabulary ↔ t ∈ vocabulary.
Proof. unfold sort_features. by rewrite merge_sort_Permutation, elem_of_elements. Qed.

Lemma length_sort_features vocabulary : length (sort_features vocabulary) = size vocabulary.
Proof. unfold sort_features. by rewrite merge_sort_Permutation. Qed.

Lemma count_fit_transform_features raw docs features X :
  decode_all raw = Ok docs →
  count_fit_transform raw = Ok (features, X) →
  length features ≤ max_features ∧
  (∀ t, t ∈ features →
        min_df ≤ length (filter (λ terms, t ∈ terms) (map analyzer docs))) ∧
  (size (collect_vocabulary (map analyzer docs)) ≤ max_features →
   ∀ t, min_df ≤ length (filter (λ terms, t ∈ terms) (map analyzer docs)) →
        t ∈ features).
Proof.
  intros Hdocs. unfold count_fit_transform. rewrite Hdocs.
  set (analysed := map analyzer docs).
  destruct (decide (collect_vocabulary analysed = ∅)); [done|].
  destruct (decide (length docs < min_df)) as [|Hn]; [done|].
  set (features0 := sort_features _).
  set (X0 := count_matrix _ _).
  set (kept := limit_features _ _ _ _ _).
  destruct (decide (kept = [])) as [|Hkept]; [done|].
  intros [= <- <-]. split; [|split].
  - etrans; [apply length_omap_le|]. apply limit_features_length.
  - intros t Ht. apply list_elem_of_omap in Ht as (j & Hj & Ht).
    apply limit_features_mask in Hj as [Hlow _].
    unfold X0 in Hlow. by rewrite (document_frequency_count_matrix _ _ _ _ Ht) in Hlow.
  - intros Hsmall t Ht.
    assert (t ∈ features0) as Hin.
    { apply elem_of_sort_features. unfold collect_vocabulary.
      apply elem_of_list_to_set, list_elem_of_In, in_concat.
      destruct (filter (λ terms, t ∈ terms) analysed) as [|terms ?] eqn:Hf;
        [unfold min_df in Ht; simpl in Ht; lia|].
      assert (terms ∈ filter (λ terms, t ∈ terms) analysed) as Hterms
        by (rewrite Hf; by left).
      apply list_elem_of_filter in Hterms as [? ?].
      exists terms. by rewrite <- !list_elem_of_In. }
    apply list_elem_of_lookup in Hin as [j Hj].
    apply list_elem_of_omap. exists j. split; [|done].
    pose proof (lookup_lt_Some _ _ _ Hj) as Hlt.
    assert (j ∈ filter (λ j, min_df ≤ document_frequency X0 j ∧
                             document_frequency X0 j ≤ length docs)
                       (seq 0 (length features0))) as Hmask.
    { apply list_elem_of_filter. split; [|apply elem_of_seq; lia].
      split.
      - unfold X0. by rewrite (document_frequency_count_matrix _ _ _ _ Hj).
      - etrans; [apply document_frequency_le|].
        unfold X0, count_matrix, analysed. by rewrite !length_map. }
    unfold kept, limit_features. rewrite decide_False; [done|].
    pose proof (length_filter (λ j, min_df ≤ document_frequency X0 j ∧
                                    document_frequency X0 j ≤ length docs)
                  (seq 0 (length features0))) as Hle.
    rewrite length_seq in Hle. unfold features0 in Hle at 2.
    rewrite length_sort_features in Hle. lia.
Qed.

Lemma vocabulary_of_is_Some features t :
  is_Some (vocabulary_of features !! t) ↔ t ∈ features.
Proof.
  unfold vocabulary_of.
  assert ((zip features (seq 0 (length features))).*1 = features) as Hfst.
  { apply fst_zip. by rewrite length_seq. }
  rewrite <- not_eq_None_Some. split.
  - intros Hsome. destruct (decide (t ∈ features)) as [|Hout]; [done|].
    exfalso. apply Hsome, not_elem_of_list_to_map_1. by rewrite Hfst.
  - intros Hin Hnone. apply not_elem_of_list_to_map_2 in Hnone. by rewrite Hfst in Hnone.
Qed.

Lemma decode_all_texts (file : list dict) docs :
  decode_all (map (λ d, dict_get d "searchable_text" (VStr "")) file) = Ok docs →
  map analyzer docs = map recipe_terms file.
Proof.
  revert docs. induction file as [|d file IH]; intros docs; simpl.
  - by intros [= <-].
  - unfold recipe_terms at 1.
    destruct (dict_get d _ _) as [| | | |text]; simpl; try done.
    destruct (decode_all _) as [rest|]; [|done].
    intros [= <-]. simpl. f_equal. by apply IH.
Qed.

Lemma recipes_with_term_docs (file : list dict) t :
  length (filter (λ terms, t ∈ terms) (map recipe_terms file)) = recipes_with_term file t.
Proof. unfold recipes_with_term. apply length_filter_map. Qed.

(** X6.  The vocabulary of an index that [__init__] builds is not empty and
    has at most [max_features = 5000] terms; each of its terms occurs in at
    least [min_df = 2] recipes; and when the recipes hold at most 5000
    distinct terms, the vocabulary is exactly the set of the terms that occur
    in at least two recipes. *)
Theorem init_vocabulary (file : list dict) (h : heap) st :
  __init__ file h = Return () st →
  0 < size (fitted_vocabulary (self st)) ≤ max_features ∧
  (∀ t, is_Some (fitted_vocabulary (self st) !! t) → min_df ≤ recipes_with_term file t) ∧
  (size (list_to_set (concat (map recipe_terms file)) : gset string) ≤ max_features →
   ∀ t, is_Some (fitted_vocabulary (self st) !! t) ↔ min_df ≤ recipes_with_term file t).
Proof.
  intros Hinit.
  destruct (__init___ok _ _ _ Hinit) as ((voc & idf & X & Hv & _ & Hs1 & Hpos & _) & _).
  revert Hinit. destruct (__init___run file h) as (loaded & h' & _ & _ & ->).
  unfold fit_transform.
  destruct (count_fit_transform _) as [[features C]|] eqn:Hfit; [|done].
  intros [= <-]. unfold fitted_vocabulary in *. simpl in *.
  injection Hv as <- _.
  destruct (decode_all (map (λ d, dict_get d "searchable_text" (VStr "")) file))
    as [docs|] eqn:Hdocs.
  2:{ unfold count_fit_transform in Hfit. by rewrite Hdocs in Hfit. }
  destruct (count_fit_transform_shape _ _ _ Hfit) as (Hnd & _).
  destruct (count_fit_transform_features _ _ _ _ Hdocs Hfit) as (Hcap & Hlow & Hall).
  rewrite (decode_all_texts _ _ Hdocs) in Hlow, Hall.
  assert (size (vocabulary_of features) = length features) as Hsize.
  { unfold vocabulary_of. rewrite map_size_list_to_map.
    - by rewrite length_zip, length_seq, Nat.min_id.
    - rewrite fst_zip; [done|]. by rewrite length_seq. }
  split; [lia|]. split.
  - intros t Ht. rewrite <- recipes_with_term_docs.
    by apply Hlow, vocabulary_of_is_Some.
  - intros Hsmall t. rewrite vocabulary_of_is_Some, <- recipes_with_term_docs.
    split; [apply Hlow|by apply Hall].
Qed.

(** X7.  A file whose searchable texts are strings and in which no term
    occurs in two recipes cannot be indexed: [__init__] raises a
    [ValueError] and assigns no index.  A file of one recipe is such a
    file. *)
Theorem init_no_shared_term (file : list dict) (h : heap) :
  Forall (λ d, ∃ text, dict_get d "searchable_text" (VStr "") = VStr text) file →
  (∀ t, recipes_with_term file t < min_df) →
  ∃ msg st, __init__ file h = Throw (ValueError msg) st ∧
            tfidf_matrix (self st) = None.
Proof.
  intros Hstr Hrare.
  destruct (__init___run file h) as (loaded & h' & _ & _ & ->).
  assert (∃ docs, decode_all (map (λ d, dict_get d "searchable_text" (VStr "")) file)
                  = Ok docs) as [docs Hdocs].
  { clear Hrare. induction Hstr as [|d file [text Hd] _ [docs IH]]; [by exists []|].
    exists (text :: docs). simpl. by rewrite Hd, IH. }
  pose proof (decode_all_texts _ _ Hdocs) as Hterms.
  unfold fit_transform, count_fit_transform. rewrite Hdocs.
  destruct (decide (collect_vocabulary _ = ∅)); [by eexists _, _|].
  destruct (decide (length docs < min_df)); [by eexists _, _|].
  rewrite limit_features_empty.
  - rewrite decide_True by done. by eexists _, _.
  - intros j Hj. destruct (lookup_lt_is_Some_2 _ _ Hj) as [t Ht].
    rewrite (document_frequency_count_matrix _ _ _ _ Ht), Hterms, recipes_with_term_docs.
    apply Hrare.
Qed.

End Vocabulary.

(** ** A positive score is a shared term *)

Lemma dot_pos_iff x y :
  non_negative x → non_negative y →
  (0 < dot x y)%R ↔ ∃ j, (0 < nth j x 0 ∧ 0 < nth j y 0)%R.
Proof.
  intros Hx. revert y. induction Hx as [|v x Hv Hx IH]; intros y Hy.
  - unfold dot. simpl. split; [lra|]. intros [[|j] [? _]]; simpl in *; lra.
  - destruct Hy as [|w y Hw Hy].
    + unfold dot. simpl. split; [lra|]. intros [[|j] [_ ?]]; simpl in *; lra.
    + specialize (IH y Hy). pose proof (dot_nonneg x y Hx Hy) as Hrest.
      unfold dot in *. simpl. split.
      * intros Hpos. destruct (Rlt_dec 0 (v * w)) as [Hvw|Hvw].
        -- exists 0. simpl. split; nra.
        -- destruct IH as [IH _]. destruct IH as [j Hj]; [nra|]. by exists (S j).
      * intros [[|j] Hj]; simpl in Hj.
        -- nra.
        -- destruct IH as [_ IH]. specialize (IH (ex_intro _ j Hj)). nra.
Qed.

Lemma l2_normalize_row_pos row j :
  (0 < nth j (l2_normalize_row row) 0)%R ↔ (0 < nth j row 0)%R.
Proof.
  unfold l2_normalize_row. fold (sum_squares row).
  pose proof (sum_squares_nonneg row) as Hs.
  destruct (Req_dec_T _ _) as [Hz|Hnz]; [done|].
  assert (0 < sqrt (sum_squares row))%R as Hroot by (apply sqrt_lt_R0; lra).
  assert (nth j (map (λ w, w / sqrt (sum_squares row))%R row) 0%R
          = (nth j row 0 / sqrt (sum_squares row))%R) as ->.
  { rewrite <- (map_nth (λ w, w / sqrt (sum_squares row))%R). f_equal.
    unfold Rdiv. lra. }
  split; intros Hpos.
  - apply (Rmult_lt_compat_r (sqrt (sum_squares row))) in Hpos; [|done].
    unfold Rdiv in Hpos. rewrite Rmult_assoc, Rinv_l, Rmult_1_r, Rmult_0_l in Hpos by lra.
    done.
  - by apply Rdiv_lt_0_compat.
Qed.

Lemma weighted_counts_pos (row : list nat) (idf : list R) j :
  Forall (λ w, 0 < w)%R idf →
  (0 < nth j (zip_with (λ (c : nat) w, INR c * w)%R row idf) 0)%R ↔
  0 < nth j row 0 ∧ j < length idf.
Proof.
  intros Hidf. revert row j.
  induction Hidf as [|w idf Hw _ IH]; intros [|c row] [|j]; simpl;
    try (split; [lra|lia]).
  - split; [intros Hpos|intros [Hc _]].
    + split; [|lia]. destruct c; [simpl in Hpos; lra|lia].
    + apply Rmult_lt_0_compat; [|done]. apply lt_0_INR. lia.
  - rewrite IH. lia.
Qed.

Lemma nth_map_seq {A} (g : nat → A) (d : A) n j :
  nth j (map g (seq 0 n)) d = if decide (j < n) then g j else d.
Proof.
  destruct (decide (j < n)) as [Hlt|Hge].
  - rewrite (nth_lookup_Some _ _ _ (g j)); [done|].
    by rewrite list_lookup_map, lookup_seq_lt.
  - apply nth_overflow. rewrite length_map, length_seq. lia.
Qed.

Lemma length_filter_pos {A} (P : A → Prop) `{∀ x, Decision (P x)} (l : list A) :
  0 < length (filter P l) ↔ ∃ x, x ∈ l ∧ P x.
Proof.
  split.
  - destruct (filter P l) as [|x ?] eqn:Hf; [simpl; lia|]. intros _.
    assert (x ∈ filter P l) as Hx by (rewrite Hf; by left).
    apply list_elem_of_filter in Hx as [? ?]. by exists x.
  - intros (x & Hx & HP).
    assert (x ∈ filter P l) as Hin by by apply list_elem_of_filter.
    destruct (filter P l); [by apply elem_of_nil in Hin|simpl; lia].
Qed.

Lemma count_row_pos (vocabulary_ : gmap string nat) terms j :
  0 < nth j (count_row vocabulary_ terms) 0 ↔
  j < size vocabulary_ ∧ ∃ t, t ∈ terms ∧ vocabulary_ !! t = Some j.
Proof.
  unfold count_row. rewrite nth_map_seq.
  destruct (decide _) as [Hlt|Hge]; [|lia]. rewrite length_filter_pos. tauto.
Qed.

Lemma omap_lookup_total {A} (fs : list A) (kept : list nat) p :
  (∀ j, j ∈ kept → j < length fs) →
  omap (λ j, fs !! j) kept !! p = kept !! p ≫= (λ j, fs !! j).
Proof.
  revert p. induction kept as [|j kept IH]; intros p Hrange; [done|].
  destruct (lookup_lt_is_Some_2 fs j) as [x Hx]; [apply Hrange; by left|].
  cbn [omap list_omap]. rewrite Hx. change (list_omap _ _ (λ j, fs !! j) kept)
    with (omap (λ j, fs !! j) kept).
  destruct p as [|p]; simpl; [done|]. apply IH. intros; apply Hrange; by right.
Qed.

Lemma vocabulary_of_lookup features t j :
  NoDup features → vocabulary_of features !! t = Some j ↔ features !! j = Some t.
Proof.
  intros Hnd. unfold vocabulary_of.
  rewrite <- elem_of_list_to_map by (rewrite fst_zip; [done|by rewrite length_seq]).
  rewrite list_elem_of_lookup. split.
  - intros [p Hp]. apply lookup_zip_with_Some in Hp as (t' & j' & [= <- <-] & Ht & Hj).
    apply lookup_seq in Hj as [-> _]. done.
  - intros Hj. exists j. apply lookup_zip_with_Some. exists t, j.
    split; [done|]. split; [done|]. apply lookup_seq. split; [done|].
    by eapply lookup_lt_Some.
Qed.

Section Positive.
Context `{TextPrims} `{NpArgsort}.

(** A cell of the count matrix that [fit_transform] keeps is the number of
    times the term of its column occurs in the document of its row. *)
Lemma count_fit_transform_cell raw docs features X i doc row j t :
  decode_all raw = Ok docs →
  count_fit_transform raw = Ok (features, X) →
  docs !! i = Some doc → X !! i = Some row → features !! j = Some t →
  nth j row 0 = term_count t (analyzer doc).
Proof.
  intros Hdocs. unfold count_fit_transform. rewrite Hdocs.
  destruct (decide (collect_vocabulary _ = ∅)); [done|].
  destruct (decide (length docs < min_df)); [done|].
  set (features0 := sort_features _).
  set (kept := limit_features _ _ _ _ _).
  destruct (decide (kept = [])); [done|].
  intros [= <- <-] Hdoc Hrow Ht.
  unfold count_matrix in Hrow. rewrite !list_lookup_map, Hdoc in Hrow.
  injection Hrow as <-.
  rewrite omap_lookup_total in Ht by (intros ?; apply limit_features_range).
  destruct (kept !! j) as [j0|] eqn:Hj; [|done]. simpl in Ht.
  rewrite (nth_lookup_Some _ _ _ (term_count t (analyzer doc))); [done|].
  rewrite list_lookup_map, Hj. simpl. f_equal.
  apply nth_lookup_Some. by rewrite list_lookup_map, Ht.
Qed.

Lemma tfidf_fit_pos X n : Forall (λ w, 0 < w)%R (tfidf_fit X n).
Proof.
  unfold tfidf_fit. rewrite Forall_map. apply Forall_forall. intros j _.
  simpl. apply smooth_idf_pos, document_frequency_le.
Qed.

Lemma tfidf_row_pos (counts : list nat) X n j :
  (0 < nth j (l2_normalize_row
                (l2_normalize_row
                   (zip_with (λ (c : nat) w, INR c * w)%R counts (tfidf_fit X n)))) 0)%R ↔
  0 < nth j counts 0 ∧ j < n.
Proof.
  rewrite !l2_normalize_row_pos, weighted_counts_pos by apply tfidf_fit_pos.
  unfold tfidf_fit. by rewrite length_map, length_seq.
Qed.

Lemma tfidf_row_nonneg (counts : list nat) X n :
  non_negative (l2_normalize_row
            (l2_normalize_row
               (zip_with (λ (c : nat) w, INR c * w)%R counts (tfidf_fit X n)))).
Proof.
  do 2 apply l2_normalize_row_nonneg. apply weighted_counts_nonneg, tfidf_fit_nonneg.
Qed.

(** X4.  On a retriever that [__init__] returns, the similarity of a recipe
    to a query is above zero exactly when a term of the query occurs in the
    recipe's searchable text and is in the vocabulary. *)
Theorem relevance_score_positive (file : list dict) (h : heap) st query i recipe :
  __init__ file h = Return () st →
  file !! i = Some recipe →
  ∃ similarities,
    query_similarities (self st) query = Ok similarities ∧
    ((0 < key similarities i)%R ↔
     ∃ t, t ∈ query_terms query ∧ t ∈ recipe_terms recipe ∧
          is_Some (fitted_vocabulary (self st) !! t)).
Proof.
  intros Hinit Hrecipe.
  destruct (__init___ok _ _ _ Hinit) as (Hok & _).
  destruct (query_similarities_ok st query Hok) as (sims & Hsims & _).
  exists sims. split; [done|].
  revert Hinit Hsims. destruct (__init___run file h) as (loaded & h' & _ & _ & ->).
  unfold fit_transform.
  destruct (count_fit_transform _) as [[features C]|] eqn:Hfit; [|done].
  intros [= <-]. unfold fitted_vocabulary, query_similarities. simpl.
  destruct (decode_all (map (λ d, dict_get d "searchable_text" (VStr "")) file))
    as [docs|] eqn:Hdocs.
  2:{ unfold count_fit_transform in Hfit. by rewrite Hdocs in Hfit. }
  destruct (count_fit_transform_shape _ _ _ Hfit) as (Hnd & _ & HlenC & _).
  assert (size (vocabulary_of features) = length features) as Hsize.
  { unfold vocabulary_of. rewrite map_size_list_to_map.
    - by rewrite length_zip, length_seq, Nat.min_id.
    - rewrite fst_zip; [done|]. by rewrite length_seq. }
  pose proof (decode_all_texts _ _ Hdocs) as Hterms.
  assert (∃ doc, docs !! i = Some doc ∧ analyzer doc = recipe_terms recipe)
    as (doc & Hdoc & Hdoc_terms).
  { apply (f_equal (λ l, l !! i)) in Hterms.
    rewrite !list_lookup_map, Hrecipe in Hterms.
    destruct (docs !! i) as [doc|]; [|done]. exists doc. split; [done|].
    simpl in Hterms. by injection Hterms. }
  destruct (lookup_lt_is_Some_2 C i) as [row Hrow].
  { rewrite HlenC, length_map. by eapply lookup_lt_Some. }
  unfold cosine_similarity. destruct (check_array _); [|done].
  destruct (check_array _); [|done]. destruct (decide _); [|done].
  intros [= <-]. unfold flatten, normalize, tfidf_transform. simpl.
  rewrite app_nil_r, !map_map. unfold key.
  erewrite nth_lookup_Some; [|rewrite list_lookup_map, Hrow; reflexivity].
  rewrite dot_pos_iff by apply tfidf_row_nonneg.
  setoid_rewrite tfidf_row_pos. setoid_rewrite count_row_pos.
  unfold query_terms. split.
  - intros (j & [(_ & t & Ht & Hj) _] & [Hcell _]).
    exists t. split; [done|]. split; [|by eexists].
    apply (vocabulary_of_lookup _ _ _ Hnd) in Hj.
    rewrite (count_fit_transform_cell _ _ _ _ _ _ _ _ _ Hdocs Hfit Hdoc Hrow Hj) in Hcell.
    rewrite <- Hdoc_terms. by apply term_count_pos.
  - intros (t & Ht & Hin & [j Hj]). exists j.
    pose proof Hj as Hj'. apply (vocabulary_of_lookup _ _ _ Hnd) in Hj.
    pose proof (lookup_lt_Some _ _ _ Hj) as Hlt.
    split; (split; [|done]).
    + split; [lia|]. by exists t.
    + rewrite (count_fit_transform_cell _ _ _ _ _ _ _ _ _ Hdocs Hfit Hdoc Hrow Hj).
      apply term_count_pos. by rewrite Hdoc_terms.
Qed.

End Positive.

(** ** The module-level function *)

Section StandaloneFunction.
Context `{TextPrims} `{NpArgsort}.

(** X8.  The module-level [retrieve_recipes(query, k, recipes_path)] throws
    the exception of the index build when the build fails.  Otherwise it
    returns what the method returns on the retriever built from the file:
    [min(k, n)] records for [k > 0] on a file of [n] recipes
    ([max(0, n + k)] for [k <= 0]), new objects, which read, in the order of
    the ranking, as the record of the file at the ranked position with the
    similarity of that position as its relevance score; and it leaves every
    object that existed as it was. *)
Theorem standalone_retrieve_recipes (file : list dict) (h : heap) query k :
  match fit_transform (map (λ d, dict_get d "searchable_text" (VStr "")) file) with
  | Raise e => ∃ st, Standalone.retrieve_recipes query k file h = Throw e st
  | Ok _ =>
      ∃ built similarities results st,
        __init__ file h = Return () built ∧
        query_similarities (self built) query = Ok similarities ∧
        Standalone.retrieve_recipes query k file h = Return results st ∧
        h ⊆ objects st ∧
        length results =
          Z.to_nat (if (0 <? k)%Z then Z.min k (Z.of_nat (length file))
                    else Z.max 0 (Z.of_nat (length file) + k))%Z ∧
        Forall (λ l, h !! l = None) results ∧
        contents (objects st) results =
          map (λ idx, d ← file !! idx;
                      Some (<["relevance_score" := VFloat (key similarities idx)]> d))
              (top_k_indices similarities k)
  end.
Proof.
  unfold Standalone.retrieve_recipes.
  destruct (__init___run file h) as (loaded & h' & Hloaded & Hsub & Hinit).
  rewrite Hinit.
  destruct (fit_transform _) as [[v X]|e] eqn:Hfit; [|by eexists].
  set (st := {| self := _; objects := h' |}).
  destruct (__init___ok file h st) as (Hok & Hsize & _ & _); [done|].
  destruct (retrieve_recipes_run st query k Hok)
    as (sims & results & st' & Hsims & Hlen & Hrun & _ & Hsub' & Hall).
  exists st, sims, results, st'.
  split; [done|]. split; [done|]. split; [done|]. split; [by etrans|].
  split; [|split].
  - apply Forall2_length in Hall. rewrite <- Hall, top_k_indices_length, Hlen, Hsize. done.
  - apply Forall_forall. intros l Hl.
    apply list_elem_of_lookup in Hl as [p Hp].
    destruct (Forall2_lookup_r _ _ _ _ _ Hall Hp)
      as (idx & Hidx & src & d & Hsrc & Hd & Hnew & Hl).
    simpl in Hnew. by eapply lookup_weaken_None.
  - rewrite (scored_copies_contents _ _ _ _ _ _ Hall). apply map_ext. intros idx.
    simpl. assert (loaded !! idx ≫= (h' !!.) = file !! idx) as Hread; [|by rewrite Hread].
    clear -Hloaded. revert idx.
    induction Hloaded as [|d l file loaded Hd _ IH]; intros [|idx]; simpl; [done..|apply IH].
Qed.

End StandaloneFunction.

(** * Further properties of the metrics *)

Lemma foldl_Rplus acc xs : foldl Rplus acc xs = (acc + Rsum xs)%R.
Proof.
  revert acc. induction xs as [|x xs IH]; intros acc; simpl; [lra|].
  rewrite IH. lra.
Qed.

Lemma log2_pos x : (1 < x)%R → (0 < log2 x)%R.
Proof.
  intros Hx. unfold log2. pose proof ln_2_pos.
  apply Rdiv_lt_0_compat; [|done]. rewrite <- ln_1. apply ln_increasing; lra.
Qed.

Lemma log2_le x y : (0 < x)%R → (x <= y)%R → (log2 x <= log2 y)%R.
Proof.
  intros Hx Hxy. unfold log2. pose proof ln_2_pos.
  apply Rmult_le_compat_r; [left; by apply Rinv_0_lt_compat|].
  destruct Hxy as [Hlt| ->]; [left; by apply ln_increasing|right; done].
Qed.

Lemma discount_pos i : 1 ≤ i → (0 < discount i)%R.
Proof.
  intros Hi. unfold discount. apply Rdiv_lt_0_compat; [lra|].
  apply log2_pos. replace 1%R with (INR 1) by done. apply lt_INR. lia.
Qed.

Lemma discount_antitone i j : 1 ≤ i → i ≤ j → (discount j <= discount i)%R.
Proof.
  intros Hi Hij. unfold discount.
  assert (1 < INR (i + 1))%R as H1.
  { replace 1%R with (INR 1) by done. apply lt_INR. lia. }
  assert (INR (i + 1) <= INR (j + 1))%R as H2 by (apply le_INR; lia).
  pose proof (log2_pos _ H1). pose proof (log2_le (INR (i + 1)) (INR (j + 1)) ltac:(lra) H2).
  unfold Rdiv. rewrite !Rmult_1_l. apply Rinv_le_contravar; lra.
Qed.

Section Range.
Context `{Countable Id}.

Lemma dcg_loop_gains (relevant_items : gset Id) (items : list Id) (s : nat) (acc : R) :
  foldl (λ dcg '(i, item_id),
           if decide (item_id ∈ relevant_items)
           then (dcg + 1 / log2 (INR (i + 1)))%R
           else dcg)
        acc (zip (seq s (length items)) items)
  = (acc + Rsum (gains relevant_items s items))%R.
Proof.
  revert s acc. induction items as [|x items IH]; intros s acc; simpl; [lra|].
  rewrite IH. unfold gains. simpl. destruct (decide _); unfold discount; lra.
Qed.

Lemma dcg_at_k_gains (relevant_items : gset Id) (retrieved_items : list Id) (k : Z) :
  dcg_at_k relevant_items retrieved_items k
  = Rsum (gains relevant_items 1 (Py.slice_to retrieved_items k)).
Proof. unfold dcg_at_k, Py.enumerate. rewrite dcg_loop_gains. lra. Qed.

Lemma idcg_at_k_discounts (relevant_items : gset Id) (k : Z) :
  idcg_at_k relevant_items k
  = Rsum (map discount (seq 1 (Z.to_nat (Z.min (Z.of_nat (size relevant_items)) k)))).
Proof.
  unfold idcg_at_k, py_range. rewrite foldl_Rplus, Rplus_0_l.
  replace (Z.min (Z.of_nat (size relevant_items)) k + 1 - 1)%Z
    with (Z.min (Z.of_nat (size relevant_items)) k) by lia.
  generalize (Z.to_nat (Z.min (Z.of_nat (size relevant_items)) k)). intros m.
  f_equal. rewrite map_map, <- seq_shift, map_map. apply map_ext. intros i.
  unfold discount. do 2 f_equal. rewrite INR_IZR_INZ. f_equal. lia.
Qed.

Lemma Rsum_nonneg xs : Forall (λ x, 0 <= x)%R xs → (0 <= Rsum xs)%R.
Proof. induction 1; simpl; lra. Qed.

Lemma gains_nonneg (relevant_items : gset Id) s items :
  1 ≤ s → Forall (λ x, 0 <= x)%R (gains relevant_items s items).
Proof.
  revert s. induction items as [|x items IH]; intros s Hs; [constructor|].
  unfold gains. simpl. constructor; [|apply (IH (S s)); lia].
  destruct (decide _); [left; by apply discount_pos|lra].
Qed.

Lemma discounts_shift s c :
  1 ≤ s → (Rsum (map discount (seq (S s) c)) <= Rsum (map discount (seq s c)))%R.
Proof.
  revert s. induction c as [|c IH]; intros s Hs; simpl; [lra|].
  pose proof (discount_antitone s (S s) Hs ltac:(lia)).
  pose proof (IH (S s) ltac:(lia)). simpl in *. lra.
Qed.

Lemma discounts_nonneg s c : 1 ≤ s → (0 <= Rsum (map discount (seq s c)))%R.
Proof.
  revert s. induction c as [|c IH]; intros s Hs; simpl; [lra|].
  pose proof (discount_pos s Hs). pose proof (IH (S s) ltac:(lia)). lra.
Qed.

Lemma discounts_mono s c m :
  1 ≤ s → c ≤ m →
  (Rsum (map discount (seq s c)) <= Rsum (map discount (seq s m)))%R.
Proof.
  revert s m. induction c as [|c IH]; intros s m Hs Hcm; simpl.
  - by apply discounts_nonneg.
  - destruct m as [|m]; [lia|]. simpl.
    pose proof (IH (S s) m ltac:(lia) ltac:(lia)). lra.
Qed.

(** The hits of a ranking gain no more than as many items on top. *)
Lemma gains_le_discounts (relevant_items : gset Id) s items :
  1 ≤ s →
  (Rsum (gains relevant_items s items)
   <= Rsum (map discount (seq s (length (filter (λ x, x ∈ relevant_items) items)))))%R.
Proof.
  revert s. induction items as [|x items IH]; intros s Hs; [simpl; lra|].
  unfold gains. simpl. fold (gains relevant_items (S s) items).
  rewrite filter_cons. pose proof (IH (S s) ltac:(lia)) as IH'.
  destruct (decide (x ∈ relevant_items)); simpl; [lra|].
  etrans; [|by apply discounts_shift]. lra.
Qed.

Lemma relevant_hits_le_size (relevant_items : gset Id) items :
  NoDup items → length (filter (λ x, x ∈ relevant_items) items) ≤ size relevant_items.
Proof.
  intros Hnd.
  assert (NoDup (filter (λ x, x ∈ relevant_items) items)) as Hnd' by by apply NoDup_filter.
  rewrite <- (size_list_to_set (C := gset Id)) by done.
  apply subseteq_size. intros x. rewrite elem_of_list_to_set, list_elem_of_filter. tauto.
Qed.

Lemma dcg_le_idcg (relevant_items : gset Id) (retrieved_items : list Id) (k : Z) :
  (0 <= k)%Z → NoDup retrieved_items →
  (dcg_at_k relevant_items retrieved_items k <= idcg_at_k relevant_items k)%R.
Proof.
  intros Hk Hnd. rewrite dcg_at_k_gains, idcg_at_k_discounts, slice_to_nonneg by done.
  etrans; [by apply gains_le_discounts|]. apply discounts_mono; [done|].
  set (top := take (Z.to_nat k) retrieved_items).
  assert (length (filter (λ x, x ∈ relevant_items) top) ≤ size relevant_items).
  { apply relevant_hits_le_size. eapply sublist_NoDup; [exact Hnd|apply sublist_take]. }
  assert (length (filter (λ x, x ∈ relevant_items) top) ≤ length top)
    by apply length_filter.
  assert (length top ≤ Z.to_nat k) by (unfold top; rewrite length_take; lia).
  lia.
Qed.

Lemma dcg_nonneg (relevant_items : gset Id) (retrieved_items : list Id) (k : Z) :
  (0 <= dcg_at_k relevant_items retrieved_items k)%R.
Proof. rewrite dcg_at_k_gains. by apply Rsum_nonneg, gains_nonneg. Qed.

Lemma idcg_nonneg (relevant_items : gset Id) (k : Z) :
  (0 <= idcg_at_k relevant_items k)%R.
Proof. rewrite idcg_at_k_discounts. by apply discounts_nonneg. Qed.

Lemma idcg_pos (relevant_items : gset Id) (k : Z) :
  relevant_items ≠ ∅ → (0 < k)%Z → (0 < idcg_at_k relevant_items k)%R.
Proof.
  intros Hne Hk. rewrite idcg_at_k_discounts.
  assert (size relevant_items ≠ 0) as Hsz.
  { intros Hz. apply size_empty_inv in Hz. apply Hne. by apply leibniz_equiv. }
  destruct (Z.to_nat _) as [|m] eqn:Hm; [lia|]. simpl.
  pose proof (discount_pos 1 ltac:(lia)). pose proof (discounts_nonneg 2 m ltac:(lia)). lra.
Qed.

Lemma idcg_zero (relevant_items : gset Id) (k : Z) :
  relevant_items = ∅ ∨ (k <= 0)%Z → idcg_at_k relevant_items k = 0%R.
Proof.
  intros Hz. rewrite idcg_at_k_discounts.
  assert (Z.to_nat (Z.min (Z.of_nat (size relevant_items)) k) = 0) as ->; [|done].
  destruct Hz as [->|Hk]; [rewrite size_empty|]; lia.
Qed.

Lemma calculate_ndcg_at_k_range_lower (relevant_items : gset Id) (retrieved_items : list Id)
    (k : Z) :
  (0 <= calculate_ndcg_at_k relevant_items retrieved_items k)%R.
Proof.
  unfold calculate_ndcg_at_k. destruct (Req_dec_T _ _) as [Hz|Hnz]; [lra|].
  pose proof (idcg_nonneg relevant_items k).
  pose proof (dcg_nonneg relevant_items retrieved_items k).
  apply Rmult_le_pos; [done|]. left. apply Rinv_0_lt_compat. lra.
Qed.

Lemma ndcg_unit_interval (relevant_items : gset Id) (retrieved_items : list Id)
    (k : Z) :
  NoDup retrieved_items →
  (0 <= calculate_ndcg_at_k relevant_items retrieved_items k <= 1)%R.
Proof.
  intros Hnd. unfold calculate_ndcg_at_k.
  destruct (Req_dec_T _ _) as [Hz|Hnz]; [lra|].
  pose proof (idcg_nonneg relevant_items k).
  pose proof (dcg_nonneg relevant_items retrieved_items k).
  assert (0 <= k)%Z as Hk.
  { destruct (decide (0 <= k)%Z); [done|]. exfalso. apply Hnz, idcg_zero. right. lia. }
  pose proof (dcg_le_idcg relevant_items retrieved_items k Hk Hnd).
  split.
  - apply Rmult_le_pos; [done|]. left. apply Rinv_0_lt_compat. lra.
  - apply (Rmult_le_reg_r (idcg_at_k relevant_items k)); [lra|].
    unfold Rdiv. rewrite Rmult_assoc, Rinv_l, Rmult_1_r, Rmult_1_l by done. done.
Qed.

Lemma gains_app (relevant_items : gset Id) s a b :
  gains relevant_items s (a ++ b)
  = gains relevant_items s a ++ gains relevant_items (s + length a) b.
Proof.
  revert s. induction a as [|x a IH]; intros s; simpl.
  - by rewrite Nat.add_0_r.
  - unfold gains in *. simpl. f_equal. rewrite IH.
    by replace (s + S (length a)) with (S s + length a) by lia.
Qed.

Lemma Rsum_app xs ys : Rsum (xs ++ ys) = (Rsum xs + Rsum ys)%R.
Proof. induction xs as [|x xs IH]; simpl; [lra|]. rewrite IH. lra. Qed.

Lemma gains_all_relevant (relevant_items : gset Id) s items :
  Forall (λ x, x ∈ relevant_items) items →
  gains relevant_items s items = map discount (seq s (length items)).
Proof.
  intros Hall. revert s. induction Hall as [|x items Hx _ IH]; intros s; [done|].
  unfold gains in *. simpl. rewrite decide_True by done. f_equal. apply IH.
Qed.

Lemma gains_zero (relevant_items : gset Id) s items :
  1 ≤ s →
  Rsum (gains relevant_items s items) = 0%R ↔ Forall (λ x, x ∉ relevant_items) items.
Proof.
  revert s. induction items as [|x items IH]; intros s Hs.
  - split; [constructor|done].
  - unfold gains. simpl. fold (gains relevant_items (S s) items).
    pose proof (Rsum_nonneg _ (gains_nonneg relevant_items (S s) items ltac:(lia))) as Hrest.
    pose proof (discount_pos s Hs) as Hd.
    rewrite Forall_cons, <- (IH (S s)) by lia.
    destruct (decide (x ∈ relevant_items)) as [Hx|Hx]; split.
    + intros Hsum. exfalso. lra.
    + intros [Hnot _]. done.
    + intros Hsum. split; [done|lra].
    + intros [_ Hsum]. lra.
Qed.

(** X10.  [calculate_ndcg_at_k] returns 0.0 on an empty relevant set and for
    [k <= 0]; for a non-empty relevant set and [k > 0] the ideal DCG is
    positive, and the result is 0.0 exactly when none of the first [k]
    retrieved items is relevant. *)
Theorem calculate_ndcg_at_k_zero (relevant_items : gset Id) (retrieved_items : list Id)
    (k : Z) :
  (relevant_items = ∅ ∨ (k <= 0)%Z →
   calculate_ndcg_at_k relevant_items retrieved_items k = 0%R) ∧
  (relevant_items ≠ ∅ → (0 < k)%Z →
   (0 < idcg_at_k relevant_items k)%R ∧
   (calculate_ndcg_at_k relevant_items retrieved_items k = 0%R ↔
    Forall (λ x, x ∉ relevant_items) (take (Z.to_nat k) retrieved_items))).
Proof.
  unfold calculate_ndcg_at_k. split.
  - intros Hz. rewrite (idcg_zero _ _ Hz). by destruct (Req_dec_T _ _).
  - intros Hne Hk. pose proof (idcg_pos relevant_items k Hne Hk) as Hpos.
    split; [done|]. destruct (Req_dec_T _ _) as [Hz|_]; [lra|].
    rewrite <- (gains_zero relevant_items 1) by done.
    rewrite <- slice_to_nonneg by lia. rewrite <- dcg_at_k_gains.
    pose proof (dcg_nonneg relevant_items retrieved_items k) as Hdcg.
    split.
    + intros Hq. apply (f_equal (λ x, x * idcg_at_k relevant_items k)%R) in Hq.
      unfold Rdiv in Hq. rewrite Rmult_assoc, Rinv_l, Rmult_1_r, Rmult_0_l in Hq by lra.
      done.
    + intros ->. unfold Rdiv. lra.
Qed.

(** X11.  A ranking without repetition whose first [min(|relevant|, k)]
    items are relevant has NDCG 1.0 at [k], for [k > 0] and a non-empty
    relevant set. *)
Theorem calculate_ndcg_at_k_perfect (relevant_items : gset Id)
    (retrieved_items : list Id) (k : Z) :
  relevant_items ≠ ∅ → (0 < k)%Z → NoDup retrieved_items →
  Z.to_nat (Z.min (Z.of_nat (size relevant_items)) k) ≤ length retrieved_items →
  Forall (λ x, x ∈ relevant_items)
         (take (Z.to_nat (Z.min (Z.of_nat (size relevant_items)) k)) retrieved_items) →
  calculate_ndcg_at_k relevant_items retrieved_items k = 1%R.
Proof.
  intros Hne Hk Hnd Hlen Htop.
  pose proof (idcg_pos relevant_items k Hne Hk) as Hpos.
  pose proof (dcg_le_idcg relevant_items retrieved_items k ltac:(lia) Hnd) as Hle.
  assert (idcg_at_k relevant_items k <= dcg_at_k relevant_items retrieved_items k)%R as Hge.
  { rewrite dcg_at_k_gains, idcg_at_k_discounts, slice_to_nonneg by lia.
    set (m := Z.to_nat (Z.min (Z.of_nat (size relevant_items)) k)) in *.
    rewrite <- (take_drop m (take (Z.to_nat k) retrieved_items)).
    rewrite take_take, Nat.min_l by lia.
    rewrite gains_app, Rsum_app, (gains_all_relevant _ _ _ Htop).
    rewrite length_take, Nat.min_l by lia.
    pose proof (Rsum_nonneg _ (gains_nonneg relevant_items (1 + m)
                  (drop m (take (Z.to_nat k) retrieved_items)) ltac:(lia))).
    lra. }
  unfold calculate_ndcg_at_k. destruct (Req_dec_T _ _) as [Hz|_]; [lra|].
  replace (dcg_at_k relevant_items retrieved_items k)
    with (idcg_at_k relevant_items k) by lra.
  field. lra.
Qed.

Lemma recall_value (relevant_items : gset Id) (retrieved_items : list Id) (k : Z) :
  relevant_items ≠ ∅ →
  calculate_recall_at_k relevant_items retrieved_items k
  = Ok (INR (size (relevant_items ∩ list_to_set (Py.slice_to retrieved_items k)))
        / INR (size relevant_items))%R ∧
  (0 < INR (size relevant_items))%R.
Proof.
  intros Hne.
  assert (size relevant_items ≠ 0) as Hsz.
  { intros Hz. apply size_empty_inv in Hz. apply Hne. by apply leibniz_equiv. }
  unfold calculate_recall_at_k, truediv. rewrite !decide_False by done.
  split; [done|]. apply lt_0_INR. lia.
Qed.

(** X12.  Recall at [k] does not fall when [k] grows, from [k = 0] on. *)
Theorem calculate_recall_at_k_monotone (relevant_items : gset Id)
    (retrieved_items : list Id) (k k' : Z) :
  (0 <= k <= k')%Z →
  ∃ recall recall',
    calculate_recall_at_k relevant_items retrieved_items k = Ok recall ∧
    calculate_recall_at_k relevant_items retrieved_items k' = Ok recall' ∧
    (recall <= recall')%R.
Proof.
  intros Hk. destruct (decide (relevant_items = ∅)) as [->|Hne].
  - exists 0%R, 0%R. unfold calculate_recall_at_k. rewrite size_empty. simpl.
    repeat split; lra.
  - destruct (recall_value relevant_items retrieved_items k Hne) as [-> Hpos].
    destruct (recall_value relevant_items retrieved_items k' Hne) as [-> _].
    eexists _, _. split; [done|]. split; [done|].
    apply Rmult_le_compat_r; [left; by apply Rinv_0_lt_compat|].
    apply le_INR, subseteq_size. rewrite !slice_to_nonneg by lia.
    intros x. rewrite !elem_of_intersection, !elem_of_list_to_set.
    intros [Hx Hin]. split; [done|].
    apply elem_of_take in Hin as (i & Hi & Hlt).
    apply elem_of_take. exists i. split; [done|lia].
Qed.

(** X13.  On a non-empty relevant set, recall at [k] is 1.0 exactly when
    every relevant item is among [retrieved_items[:k]]. *)
Theorem calculate_recall_at_k_one (relevant_items : gset Id)
    (retrieved_items : list Id) (k : Z) :
  relevant_items ≠ ∅ →
  calculate_recall_at_k relevant_items retrieved_items k = Ok 1%R ↔
  ∀ x, x ∈ relevant_items → x ∈ Py.slice_to retrieved_items k.
Proof.
  intros Hne.
  destruct (recall_value relevant_items retrieved_items k Hne) as [-> Hpos].
  set (top := list_to_set (Py.slice_to retrieved_items k) : gset Id).
  assert (relevant_items ∩ top ⊆ relevant_items) as Hsub.
  { intros x. rewrite elem_of_intersection. tauto. }
  split.
  - intros [= Hq].
    apply (f_equal (λ x, x * INR (size relevant_items))%R) in Hq.
    unfold Rdiv in Hq. rewrite Rmult_assoc, Rinv_l, Rmult_1_r, Rmult_1_l in Hq by lra.
    apply INR_eq in Hq.
    assert (relevant_items ∩ top = relevant_items) as Heq.
    { apply set_subseteq_size_eq; [done|lia]. }
    intros x Hx. rewrite <- Heq in Hx. apply elem_of_intersection in Hx as [_ Hx].
    by apply elem_of_list_to_set in Hx.
  - intros Hall. assert (relevant_items ∩ top = relevant_items) as ->.
    { apply set_eq. intros x. rewrite elem_of_intersection. unfold top.
      rewrite elem_of_list_to_set. split; [tauto|]. intros Hx. split; [done|by apply Hall]. }
    f_equal. field. lra.
Qed.

End Range.

(** X9.  [calculate_ndcg_at_k] returns a value between 0 and 1 for every
    [k] when no id is retrieved twice.  With a repeated id it can exceed 1:
    for [relevant_items = {5}], [retrieved_items = [5, 5]] and [k = 2] the
    DCG counts the item twice and the ideal DCG once. *)
Theorem calculate_ndcg_at_k_range :
  (∀ `{Countable Id} (relevant_items : gset Id) (retrieved_items : list Id) (k : Z),
     NoDup retrieved_items →
     (0 <= calculate_ndcg_at_k relevant_items retrieved_items k <= 1)%R) ∧
  (1 < calculate_ndcg_at_k ({[5%Z]} : gset Z) [5; 5]%Z 2)%R.
Proof.
  split; [intros; by apply ndcg_unit_interval|].
  pose proof (discount_pos 1 ltac:(lia)) as H1.
  pose proof (discount_pos 2 ltac:(lia)) as H2.
  assert (dcg_at_k ({[5%Z]} : gset Z) [5; 5]%Z 2 = (discount 1 + discount 2)%R) as Hdcg.
  { rewrite dcg_at_k_gains. unfold gains, Py.slice_to. simpl.
    rewrite !decide_True by (by apply elem_of_singleton). lra. }
  assert (idcg_at_k ({[5%Z]} : gset Z) 2 = discount 1) as Hidcg.
  { rewrite idcg_at_k_discounts, size_singleton. simpl. lra. }
  unfold calculate_ndcg_at_k. rewrite Hdcg, Hidcg.
  destruct (Req_dec_T _ _); [lra|].
  apply (Rmult_lt_reg_r (discount 1)); [done|].
  unfold Rdiv. rewrite Rmult_assoc, Rinv_l, Rmult_1_r, Rmult_1_l by lra. lra.
Qed.

(** ** The relevance heuristic *)

Section RelevanceProperties.
Context `{TextPrims} `{PyStr} `{Countable Id} (set_key : value → Id).

Lemma relevant_loop_spec kws threshold recipes relevant result :
  relevant_loop set_key kws threshold recipes relevant = Done result →
  ∀ x, x ∈ result ↔
       x ∈ relevant ∨
       ∃ recipe v, recipe ∈ recipes ∧ counted_relevant kws threshold recipe ∧
                   recipe !! "recipe_id" = Some v ∧ set_key v = x.
Proof.
  revert relevant. induction recipes as [|recipe rest IH]; intros relevant; simpl.
  - intros [= <-] x. split; [by left|]. intros [?|(? & ? & []%elem_of_nil & _)]. done.
  - assert (∀ relevant',
              relevant_loop set_key kws threshold rest relevant' = Done result →
              (∀ x, x ∈ relevant' ↔ x ∈ relevant) →
              ¬ counted_relevant kws threshold recipe →
              ∀ x, x ∈ result ↔
                   x ∈ relevant ∨
                   ∃ recipe0 v, recipe0 ∈ recipe :: rest ∧
                                counted_relevant kws threshold recipe0 ∧
                                recipe0 !! "recipe_id" = Some v ∧ set_key v = x) as Hskip.
    { intros relevant' Hrun Hsame Hnot x. rewrite (IH _ Hrun x), Hsame.
      split; (intros [?|(r & v & Hr & Hc & Hv & Hx)]; [by left|right]).
      - exists r, v. split; [by right|done].
      - apply elem_of_cons in Hr as [->|Hr]; [done|]. by exists r, v. }
    unfold counted_relevant in *.
    destruct (decide (0 < matches kws (recipe_text recipe))) as [Hm|Hm].
    2:{ intros Hrun. apply (Hskip relevant); [done|done|tauto]. }
    destruct (ge_float _ threshold) as [[|]|] eqn:Hge; [| |done].
    2:{ intros Hrun. apply (Hskip relevant); [done|done|]. intros [_ ?]. done. }
    unfold dict_getitem. destruct (recipe !! "recipe_id") as [v|] eqn:Hv; [|done].
    intros Hrun x. rewrite (IH _ Hrun x), elem_of_union, elem_of_singleton.
    split.
    + intros [[->|?]|(r & v' & Hr & Hc & Hv' & Hx)].
      * right. exists recipe, v. split; [by left|done].
      * by left.
      * right. exists r, v'. split; [by right|done].
    + intros [?|(r & v' & Hr & Hc & Hv' & Hx)]; [left; by right|].
      apply elem_of_cons in Hr as [->|Hr].
      * left. left. congruence.
      * right. by exists r, v'.
Qed.

Lemma retrieved_ids_spec (retrieved_recipes : list dict) ids :
  retrieved_ids set_key retrieved_recipes = Done ids →
  length ids = length retrieved_recipes ∧
  ∀ recipe v, recipe ∈ retrieved_recipes → recipe !! "recipe_id" = Some v →
              set_key v ∈ ids.
Proof.
  revert ids. induction retrieved_recipes as [|r rest IH]; intros ids; simpl.
  - intros [= <-]. split; [done|]. by intros ? ? ?%elem_of_nil.
  - unfold dict_getitem. destruct (r !! "recipe_id") as [v|] eqn:Hv; [|done].
    destruct (retrieved_ids set_key rest) as [ids'|]; [|done].
    intros [= <-]. destruct (IH ids' eq_refl) as [Hlen Hin]. split; [simpl; lia|].
    intros recipe v' [->|Hr]%elem_of_cons Hv'.
    + assert (v' = v) as -> by congruence. by left.
    + right. by eapply Hin.
Qed.

Lemma keywords_stop_words query :
  (∀ w, w ∈ str_split (str_lower query) → w ∈ stop_words) → keywords query = ∅.
Proof.
  intros Hall. unfold keywords. apply set_eq. intros w.
  rewrite elem_of_difference, elem_of_list_to_set. split.
  - intros [Hw Hnot]. destruct Hnot. by apply Hall.
  - by intros ?%elem_of_empty.
Qed.

Lemma relevant_loop_no_keywords threshold recipes relevant :
  relevant_loop set_key ∅ threshold recipes relevant = Done relevant.
Proof.
  induction recipes as [|recipe rest IH]; simpl; [done|].
  rewrite decide_False; [exact IH|].
  unfold matches.
  assert (filter (λ kw, str_contains kw (recipe_text recipe) = true) (∅ : gset string) = ∅)
    as -> by (apply leibniz_equiv, filter_empty).
  rewrite size_empty. lia.
Qed.

(** X14.  The set that [identify_relevant_recipes] returns holds exactly the
    ids of the given recipes in whose title or tags a keyword of the query
    occurs and whose relevance score reaches the threshold. *)
Theorem identify_relevant_recipes_spec query recipes threshold relevant :
  identify_relevant_recipes set_key query recipes threshold = Done relevant →
  ∀ x, x ∈ relevant ↔
       ∃ recipe v, recipe ∈ recipes ∧
                   counted_relevant (keywords query) threshold recipe ∧
                   recipe !! "recipe_id" = Some v ∧ set_key v = x.
Proof.
  intros Hrun x. rewrite (relevant_loop_spec _ _ _ _ _ Hrun x).
  split; [|by right]. intros [?%elem_of_empty|?]; done.
Qed.

(** X15.  For a query whose words are all stop words of the heuristic,
    [identify_relevant_recipes] returns the empty set whatever the recipes
    hold, and the evaluation skips the query. *)
Theorem identify_relevant_recipes_stop_words query recipes threshold :
  (∀ w, w ∈ str_split (str_lower query) → w ∈ stop_words) →
  identify_relevant_recipes set_key query recipes threshold = Done ∅ ∧
  ∀ ids k, retrieved_ids set_key recipes = Done ids →
           query_scores set_key query recipes k = Done None.
Proof.
  intros Hstop.
  assert (∀ threshold, identify_relevant_recipes set_key query recipes threshold = Done ∅)
    as Hnone.
  { intros thr. unfold identify_relevant_recipes.
    rewrite keywords_stop_words by done. apply relevant_loop_no_keywords. }
  split; [apply Hnone|]. intros ids k Hids. unfold query_scores.
  rewrite Hids, Hnone. by rewrite size_empty.
Qed.

(** X16.  The evaluation takes the relevant set of a query from the
    retrieved recipes themselves.  So the recall it records lies between 0
    and 1 and the NDCG is not negative; and when [k] is at least the number
    of retrieved recipes, the recall is 1.0 and the NDCG is positive. *)
Theorem query_scores_recall query retrieved_recipes k ndcg recall :
  query_scores set_key query retrieved_recipes k = Done (Some (ndcg, recall)) →
  (0 <= recall <= 1)%R ∧ (0 <= ndcg)%R ∧
  ((Z.of_nat (length retrieved_recipes) <= k)%Z → recall = 1%R ∧ (0 < ndcg)%R).
Proof.
  unfold query_scores.
  destruct (retrieved_ids set_key retrieved_recipes) as [ids|] eqn:Hids; [|done].
  destruct (identify_relevant_recipes _ _ _ _) as [relevant|] eqn:Hrel; [|done].
  destruct (decide (0 < size relevant)) as [Hsize|]; [|done].
  assert (relevant ≠ ∅) as Hne by (intros ->; rewrite size_empty in Hsize; lia).
  destruct (recall_value relevant ids k Hne) as [-> Hpos].
  intros [= <- <-].
  destruct (retrieved_ids_spec _ _ Hids) as [Hlen Hin].
  assert (∀ x, x ∈ relevant → x ∈ ids) as Hsub.
  { intros x Hx. apply (relevant_loop_spec _ _ _ _ _ Hrel) in Hx
      as [?%elem_of_empty|(recipe & v & Hr & _ & Hv & <-)]; [done|]. by eapply Hin. }
  set (top := list_to_set (Py.slice_to ids k) : gset Id).
  assert (size (relevant ∩ top) ≤ size relevant) as Hle.
  { apply subseteq_size. intros x. rewrite elem_of_intersection. tauto. }
  split; [|split].
  - split.
    + apply Rmult_le_pos; [apply pos_INR|]. left. by apply Rinv_0_lt_compat.
    + apply (Rmult_le_reg_r (INR (size relevant))); [done|].
      unfold Rdiv. rewrite Rmult_assoc, Rinv_l, Rmult_1_r, Rmult_1_l by lra.
      by apply le_INR.
  - pose proof (calculate_ndcg_at_k_range_lower relevant ids k). done.
  - intros Hk.
    assert (Py.slice_to ids k = ids) as Hall.
    { rewrite slice_to_nonneg by lia. apply take_ge. lia. }
    split.
    + assert (relevant ∩ top = relevant) as ->.
      { apply set_eq. intros x. unfold top.
        rewrite elem_of_intersection, elem_of_list_to_set, Hall.
        split; [tauto|]. intros Hx. split; [done|by apply Hsub]. }
      field. lra.
    + assert (∃ x, x ∈ relevant) as [x Hx].
      { apply set_choose_L. done. }
      assert (0 < k)%Z as Hkpos.
      { pose proof (Hsub x Hx) as Hxin. destruct ids; [by apply elem_of_nil in Hxin|].
        simpl in Hlen. lia. }
      pose proof (idcg_pos relevant k Hne Hkpos) as Hidcg.
      pose proof (dcg_nonneg relevant ids k) as Hdcg.
      unfold calculate_ndcg_at_k. destruct (Req_dec_T _ _) as [|_]; [lra|].
      apply Rdiv_lt_0_compat; [|done].
      destruct Hdcg as [Hlt|Heq]; [done|]. exfalso.
      symmetry in Heq. rewrite dcg_at_k_gains, Hall in Heq.
      apply gains_zero in Heq; [|done].
      rewrite Forall_forall in Heq. by apply (Heq x (Hsub x Hx)).
Qed.

End RelevanceProperties.

(** * Data preparation *)

Section PrepareProperties.
Context `{TextPrims} `{PyStr}.

Lemma elem_of_selected (selected : list (string * string)) field :
  field ∈ selected.*1 ↔ is_Some ((list_to_map selected : gmap string string) !! field).
Proof.
  rewrite <- not_eq_None_Some, <- not_elem_of_list_to_map.
  destruct (decide (field ∈ selected.*1)); tauto.
Qed.

Lemma preprocess_row_text selected row field :
  field ∈ text_fields →
  preprocess_row selected row !! field = VStr <$> cleaned_cell selected row field.
Proof.
  intros Hfield. unfold text_fields in Hfield.
  assert (field = "title" ∨ field = "tags" ∨ field = "ingredients") as Hcases.
  { rewrite !elem_of_cons, elem_of_nil in Hfield. tauto. }
  unfold preprocess_row, cleaned_cell.
  destruct Hcases as [->|[->| ->]];
    (destruct (decide _); [rewrite lookup_insert_ne by done|]);
    cbn [foldr numeric_fields text_fields];
    rewrite ?lookup_alter_ne by done;
    rewrite lookup_alter_eq;
    rewrite ?lookup_alter_ne by done;
    rewrite lookup_fmap;
    destruct ((list_to_map selected : gmap string string) !! _); reflexivity.
Qed.

Lemma preprocess_row_recipe_id selected row :
  preprocess_row selected row !! "recipe_id"
  = (λ actual_name, dict_get row actual_name VNull) <$>
      (list_to_map selected : gmap string string) !! "recipe_id".
Proof.
  unfold preprocess_row.
  destruct (decide _); [rewrite lookup_insert_ne by done|];
    cbn [foldr numeric_fields text_fields];
    rewrite !lookup_alter_ne by done; by rewrite lookup_fmap.
Qed.

Lemma filter_map_comm {A B} (f : A → B) (P : B → Prop) `{∀ y, Decision (P y)}
    (l : list A) :
  filter P (map f l) = map f (filter (λ x, P (f x)) l).
Proof.
  induction l as [|x l IH]; [done|]. simpl. rewrite !filter_cons.
  destruct (decide (P (f x))); simpl; by rewrite IH.
Qed.

Lemma preprocess_recipes_records (df : DataFrame) :
  selected_cols (columns df) ≠ [] →
  records (preprocess_recipes df) =
  map (preprocess_row (selected_cols (columns df)))
      (filter (λ row, has_recipe_id df row = true) (records df)).
Proof.
  intros Hsel. unfold preprocess_recipes, has_recipe_id, recipe_id_column.
  destruct (selected_cols (columns df)) as [|col rest]; [done|].
  cbn [records]. set (selected := col :: rest). clearbody selected. clear Hsel.
  unfold dropna. rewrite filter_map_comm. f_equal.
  apply list_filter_iff. intros row.
  assert ("title" ∈ selected.*1 →
          isna (dict_get (preprocess_row selected row) "title" VNull) = false) as Htitle.
  { intros [actual_name Hcol]%elem_of_selected.
    unfold dict_get. rewrite preprocess_row_text by apply list_elem_of_here.
    unfold cleaned_cell. by rewrite Hcol. }
  assert (dict_get (preprocess_row selected row) "recipe_id" VNull
          = from_option (λ actual_name, dict_get row actual_name VNull) VNull
              ((list_to_map selected : gmap string string) !! "recipe_id")) as Hid.
  { unfold dict_get at 1. rewrite preprocess_row_recipe_id.
    by destruct (list_to_map selected !! "recipe_id"). }
  pose proof (elem_of_selected selected "recipe_id") as Hcol.
  unfold essential_cols. rewrite !filter_cons, filter_nil.
  destruct (list_to_map selected !! "recipe_id") as [actual_name|]; simpl in Hid.
  - rewrite decide_True by (apply Hcol; by eexists).
    destruct (decide ("title" ∈ selected.*1));
      rewrite ?Forall_cons, ?Forall_nil, Hid, negb_true_iff; tauto.
  - rewrite decide_False by (intros [? ?]%Hcol; done).
    destruct (decide ("title" ∈ selected.*1));
      rewrite ?Forall_cons, ?Forall_nil; tauto.
Qed.

(** X17.  Only a missing recipe id drops a row: the rows of the processed frame
    are the processed rows that have a recipe id, in order (every row when no
    column holds recipe ids).  A missing title drops no row: the title of a
    processed row is a string, the empty one for a missing cell. *)
Theorem preprocess_recipes_dropna (df : DataFrame) :
  selected_cols (columns df) ≠ [] →
  records (preprocess_recipes df) =
    map (preprocess_row (selected_cols (columns df)))
        (filter (λ row, has_recipe_id df row = true) (records df)) ∧
  ∀ row actual_name,
    (list_to_map (selected_cols (columns df)) : gmap string string) !! "title"
      = Some actual_name →
    (preprocess_row (selected_cols (columns df)) row !! "title"
       = Some (clean_text (dict_get row actual_name VNull))) ∧
    (dict_get row actual_name VNull = VNull →
     preprocess_row (selected_cols (columns df)) row !! "title"
       = Some (VStr (str_strip (str_lower "")))).
Proof.
  intros Hsel. split; [by apply preprocess_recipes_records|].
  intros row actual_name Hcol.
  rewrite preprocess_row_text by apply list_elem_of_here.
  unfold cleaned_cell. rewrite Hcol. simpl. split; [done|].
  intros ->. simpl. by rewrite py_str_str.
Qed.

Lemma create_recipe_text_processed selected row :
  create_recipe_text (preprocess_row selected row)
  = str_join " " (omap (cleaned_cell selected row) text_fields).
Proof.
  unfold create_recipe_text.
  rewrite !preprocess_row_text
    by (unfold text_fields; rewrite !elem_of_cons; tauto).
  unfold text_fields. cbn [omap list_omap].
  destruct (cleaned_cell selected row "title") as [t|],
           (cleaned_cell selected row "tags") as [g|],
           (cleaned_cell selected row "ingredients") as [i|];
    cbn [fmap option_fmap option_map isna app]; by rewrite ?py_str_str.
Qed.

(** X18.  The records that [save_recipes] returns for a preprocessed frame
    are the processed rows that have a recipe id, in order, each with a
    searchable text that joins with single spaces one part for each of the
    title, tags and ingredients columns of the data: a missing cell gives an
    empty part, not an omitted one. *)
Theorem save_recipes_searchable_text (df : DataFrame) recipes :
  save_recipes (preprocess_recipes df) = Ok recipes →
  recipes =
  map (λ row,
         <["searchable_text" :=
             VStr (str_join " " (omap (cleaned_cell (selected_cols (columns df)) row)
                                      text_fields))]>
           (preprocess_row (selected_cols (columns df)) row))
      (filter (λ row, has_recipe_id df row = true) (records df)).
Proof.
  unfold save_recipes.
  destruct (decide (selected_cols (columns df) = [])) as [Hnone|Hsel].
  { unfold preprocess_recipes. by rewrite Hnone. }
  rewrite (preprocess_recipes_records df Hsel), map_map.
  destruct (map _ _) as [|r rs] eqn:Hmap; [done|]. intros [= <-]. rewrite <- Hmap.
  apply map_ext. intros row. by rewrite create_recipe_text_processed.
Qed.

End PrepareProperties.

(** * The conversation *)

Section ConversationProperties.
Context `{TextPrims} `{PyStr} {Rag : Type}.
Context (answer_query : string → Z → Rag → Rag * attempt rag_result).

Lemma clarified_query_suffix (original_query clarification : string) :
  ∃ suffix, suffix ≠ "" ∧
            _build_clarified_query original_query clarification
            = original_query +:+ suffix.
Proof.
  unfold _build_clarified_query.
  repeat match goal with
         | |- context [if ?b then _ else _] => destruct b
         end;
    eexists; (split; [|reflexivity]); done.
Qed.

(** X19.  A clarified query is the original query with something appended,
    whatever the clarification.  The first test of the chain wins: a
    clarification that contains "with" or "instead" is appended after
    ", but ", also when it names calories or time. *)
Theorem build_clarified_query_extends (original_query clarification : string) :
  (∃ suffix, suffix ≠ "" ∧
             _build_clarified_query original_query clarification
             = original_query +:+ suffix) ∧
  (str_contains "with" (str_lower clarification) = true ∨
   str_contains "instead" (str_lower clarification) = true →
   _build_clarified_query original_query clarification
   = original_query +:+ ", but " +:+ clarification).
Proof.
  split; [apply clarified_query_suffix|].
  unfold _build_clarified_query. intros [-> | ->]; [|done].
  by rewrite orb_true_r.
Qed.

(** X20.  Once a question is answered, a question of at most three words is
    never sent on its own: what [ask] sends to the pipeline, and keeps as the
    last query when the pipeline answers, is the previous query with
    something appended. *)
Theorem ask_short_follow_up (a : ConversationalRecipeAssistant) previous query k :
  last_query a = Some previous → previous ≠ "" →
  length (str_split query) ≤ 3 →
  ∃ suffix, suffix ≠ "" ∧
    actual_query_of a query = previous +:+ suffix ∧
    (ask answer_query query k a).2 = (answer_query (previous +:+ suffix) k (rag a)).2 ∧
    ∀ result, (ask answer_query query k a).2 = Done result →
              last_query (ask answer_query query k a).1 = Some (previous +:+ suffix).
Proof.
  intros Hlast Hne Hshort.
  destruct (clarified_query_suffix previous query) as (suffix & Hsuffix & Hbuild).
  exists suffix. split; [done|].
  assert (actual_query_of a query = previous +:+ suffix) as Hactual.
  { unfold actual_query_of. rewrite Hlast.
    assert (String.eqb previous "" = false) as -> by by apply String.eqb_neq.
    unfold _is_clarification.
    assert ((length (str_split query) <=? 3) = true) as -> by by apply Nat.leb_le.
    by rewrite orb_true_r. }
  split; [done|]. unfold ask. rewrite Hactual.
  by destruct (answer_query _ _ _) as [pipeline [result|e]].
Qed.

(** X21.  In every state that the assistant reaches, the last results are
    set exactly when the last query is, and the last query is the query of
    the last entry of the history.  [reset] keeps the history.  [ask] sends
    to the pipeline, with its [k], the query that [actual_query_of] forms: a
    question that fails keeps the history, the last query and the last
    results; an answered question adds one entry, which holds the question
    as it was asked, the query as it was sent, the answer and the number of
    recipes of the result, and the query as it was sent becomes the last
    query, the recipes of the result the last results. *)
Theorem assistant_invariant (a : ConversationalRecipeAssistant) :
  reachable answer_query a →
  (last_query a = None ↔ last_results a = None) ∧
  (∀ q, last_query a = Some q →
        ∃ t, last (conversation_history a) = Some t ∧ actual_query t = q) ∧
  conversation_history (reset a) = conversation_history a ∧
  ∀ query k,
    let sent := actual_query_of a query in
    let a' := (ask answer_query query k a).1 in
    (ask answer_query query k a).2 = (answer_query sent k (rag a)).2 ∧
    rag a' = (answer_query sent k (rag a)).1 ∧
    match (answer_query sent k (rag a)).2 with
    | Failed _ => conversation_history a' = conversation_history a ∧
                  last_query a' = last_query a ∧
                  last_results a' = last_results a
    | Done result =>
        conversation_history a' =
          conversation_history a ++
          [{| user_input := query; actual_query := sent;
              turn_answer := answer result;
              num_recipes := length (retrieved_recipes result) |}] ∧
        last_query a' = Some sent ∧
        last_results a' = Some (retrieved_recipes result)
    end.
Proof.
  intros Hreach.
  assert ((last_query a = None ↔ last_results a = None) ∧
          (∀ q, last_query a = Some q →
                ∃ t, last (conversation_history a) = Some t ∧ actual_query t = q))
    as [Hboth Hlast].
  { induction Hreach as [pipeline|a query k _ [IHboth IHlast]|a _ [IHboth IHlast]].
    - by split.
    - unfold ask. destruct (answer_query _ _ _) as [pipeline [result|e]]; simpl.
      + split; [done|]. intros q [= <-]. eexists. by rewrite last_snoc.
      + by split.
    - by split. }
  split; [done|]. split; [done|]. split; [done|].
  intros query k sent a'. unfold a', ask. fold sent.
  by destruct (answer_query sent k (rag a)) as [pipeline [result|e]].
Qed.

End ConversationProperties.

(** * The further properties on the examples *)

(** ** The retriever on the concrete corpus *)

(** X1, on the scenario's corpus: two records for [k = 2]. *)
Lemma retrieve_recipes_count_witness :
  ∃ results st',
    retrieve_recipes (H := ascii_text) (H0 := insertion) "chicken" 2 demo_state
      = Return results st' ∧
    length results = 2.
Proof.
  destruct (retrieve_recipes_count (H := ascii_text) (H0 := insertion)
              demo_state "chicken" 2 demo_state_ok)
    as (results & st' & Hrun & Hpos & _).
  exists results, st'. split; [exact Hrun|]. rewrite Hpos by lia. reflexivity.
Defined.

(** X2, on the scenario's corpus. *)
Lemma retrieve_recipes_distinct_witness :
  ∃ similarities results st',
    retrieve_recipes (H := ascii_text) (H0 := insertion) "chicken" 2 demo_state
      = Return results st' ∧
    NoDup (top_k_indices (H := insertion) similarities 2) ∧
    NoDup results ∧
    Forall (λ l, l ∉ recipes (self demo_state)) results.
Proof.
  destruct (retrieve_recipes_distinct (H := ascii_text) (H0 := insertion)
              demo_state "chicken" 2 demo_state_ok)
    as (sims & results & st' & _ & Hrun & _ & Hidx & Hnd & Hnew).
  exists sims, results, st'. exact (conj Hrun (conj Hidx (conj Hnd Hnew))).
Defined.

(** X3, on the scenario's corpus. *)
Lemma relevance_scores_non_negative_witness :
  ∃ similarities results st',
    query_similarities (H := ascii_text) (self demo_state) "chicken" = Ok similarities ∧
    Forall (λ x, 0 <= x)%R similarities ∧
    retrieve_recipes (H := ascii_text) (H0 := insertion) "chicken" 2 demo_state
      = Return results st' ∧
    Forall2 (λ idx l, relevance_score (objects st') l
                        = Some (VFloat (key similarities idx)) ∧
                      (0 <= key similarities idx)%R)
            (top_k_indices (H := insertion) similarities 2) results.
Proof.
  exact (relevance_scores_non_negative (H := ascii_text) (H0 := insertion)
           demo_file ∅ demo_state "chicken" 2 demo_init).
Defined.

(** X4, on the scenario's corpus: the first recipe and the query "chicken". *)
Lemma relevance_score_positive_witness :
  ∃ similarities,
    query_similarities (H := ascii_text) (self demo_state) "chicken" = Ok similarities ∧
    ((0 < key similarities 0)%R ↔
     ∃ t, t ∈ query_terms (H := ascii_text) "chicken" ∧
          t ∈ recipe_terms (H := ascii_text) recipe_1 ∧
          is_Some (fitted_vocabulary (self demo_state) !! t)).
Proof.
  exact (relevance_score_positive (H := ascii_text) (H0 := insertion)
           demo_file ∅ demo_state "chicken" 0 recipe_1 demo_init eq_refl).
Defined.

(** X6, on the scenario's corpus. *)
Lemma init_vocabulary_witness :
  0 < size (fitted_vocabulary (self demo_state)) ≤ max_features ∧
  (∀ t, is_Some (fitted_vocabulary (self demo_state) !! t) →
        min_df ≤ recipes_with_term (H := ascii_text) demo_file t).
Proof.
  destruct (init_vocabulary (H := ascii_text) (H0 := insertion)
              demo_file ∅ demo_state demo_init) as (Hsize & Hlow & _).
  exact (conj Hsize Hlow).
Defined.

(** X7, on a file of one recipe. *)
Lemma init_no_shared_term_witness :
  ∃ msg st, __init__ (H := ascii_text) (H0 := insertion) [recipe_1] ∅
            = Throw (ValueError msg) st ∧
            tfidf_matrix (self st) = None.
Proof.
  apply (init_no_shared_term (H := ascii_text) (H0 := insertion) [recipe_1] ∅).
  - repeat constructor. eexists. vm_compute. reflexivity.
  - intros t. unfold recipes_with_term, min_df.
    pose proof (length_filter (λ recipe, t ∈ recipe_terms (H := ascii_text) recipe)
                  [recipe_1]) as Hle.
    change (length [recipe_1]) with 1 in Hle. lia.
Defined.

(** X8, on the file of the scenario's corpus: recipe 3, then recipe 1, both
    with the score 1.0. *)
Lemma standalone_retrieve_recipes_witness :
  ∃ results st,
    Standalone.retrieve_recipes (H := ascii_text) (H0 := insertion) "chicken" 2 demo_file ∅
      = Return results st ∧
    contents (objects st) results =
      [Some (<["relevance_score" := VFloat 1]> recipe_3);
       Some (<["relevance_score" := VFloat 1]> recipe_1)].
Proof.
  pose proof (standalone_retrieve_recipes (H := ascii_text) (H0 := insertion)
                demo_file ∅ "chicken" 2) as Hs.
  unfold fit_transform in Hs. rewrite demo_count_fit in Hs.
  destruct Hs as (built & sims & results & st & Hinit & Hsims & Hrun & _ & _ & _ & Hread).
  exists results, st. split; [exact Hrun|].
  assert (Return () built = Return () demo_state) as Hsame
    by (rewrite <- Hinit; exact demo_init).
  injection Hsame as ->.
  rewrite demo_similarities_chicken in Hsims. injection Hsims as <-.
  rewrite Hread, demo_top_2_chicken. reflexivity.
Defined.

(** X22, on the scenario's corpus: one result and two. *)
Lemma retrieve_recipes_prefix_witness :
  ∃ short st1 long st2,
    retrieve_recipes (H := ascii_text) (H0 := insertion) "chicken" 1 demo_state
      = Return short st1 ∧
    retrieve_recipes (H := ascii_text) (H0 := insertion) "chicken" 2 demo_state
      = Return long st2 ∧
    contents (objects st1) short = take (length short) (contents (objects st2) long).
Proof.
  apply (retrieve_recipes_prefix (H := ascii_text) (H0 := insertion)
           demo_state "chicken" 1 2 demo_state_ok).
  lia.
Defined.

(** X23, on the scenario's corpus: [k = 5] for three recipes. *)
Lemma retrieve_recipes_all_witness :
  ∃ similarities results st',
    retrieve_recipes (H := ascii_text) (H0 := insertion) "chicken" 5 demo_state
      = Return results st' ∧
    length results = 3 ∧
    top_k_indices (H := insertion) similarities 5 ≡ₚ [0; 1; 2].
Proof.
  destruct (retrieve_recipes_all (H := ascii_text) (H0 := insertion)
              demo_state "chicken" 5 demo_state_ok)
    as (sims & results & st' & _ & Hrun & Hall & Hperm).
  - vm_compute. discriminate.
  - exists sims, results, st'. split; [exact Hrun|]. split; [|exact Hperm].
    rewrite <- (Forall2_length _ _ _ Hall), Hperm. reflexivity.
Defined.

(** ** The metrics on the scenario *)

Lemma scenario_relevant_nonempty : ({[5%Z; 9%Z]} : gset Z) ≠ ∅.
Proof. intros Hempty. apply (f_equal size) in Hempty. vm_compute in Hempty. lia. Qed.

(** X9, on the ranking of the scenario. *)
Lemma calculate_ndcg_at_k_range_witness :
  (0 <= calculate_ndcg_at_k ({[5%Z; 9%Z]} : gset Z) [9; 1; 5]%Z 3 <= 1)%R.
Proof.
  destruct calculate_ndcg_at_k_range as [Hrange _].
  apply Hrange. apply (bool_decide_unpack _). vm_compute. exact I.
Defined.

(** X10, on an empty relevant set, for [k = 0], and on the scenario. *)
Lemma calculate_ndcg_at_k_zero_witness :
  calculate_ndcg_at_k (∅ : gset Z) [9; 1; 5]%Z 3 = 0%R ∧
  calculate_ndcg_at_k ({[5%Z; 9%Z]} : gset Z) [9; 1; 5]%Z 0 = 0%R ∧
  (0 < idcg_at_k ({[5%Z; 9%Z]} : gset Z) 3)%R.
Proof.
  destruct (calculate_ndcg_at_k_zero (∅ : gset Z) [9; 1; 5]%Z 3) as [Hempty _].
  destruct (calculate_ndcg_at_k_zero ({[5%Z; 9%Z]} : gset Z) [9; 1; 5]%Z 0) as [Hzero _].
  destruct (calculate_ndcg_at_k_zero ({[5%Z; 9%Z]} : gset Z) [9; 1; 5]%Z 3) as [_ Hpos].
  split; [|split].
  - apply Hempty. by left.
  - apply Hzero. right. lia.
  - apply Hpos; [exact scenario_relevant_nonempty|lia].
Defined.

(** X11, on the scenario's relevant set with the relevant items first. *)
Lemma calculate_ndcg_at_k_perfect_witness :
  calculate_ndcg_at_k ({[5%Z; 9%Z]} : gset Z) [9; 5; 1]%Z 3 = 1%R.
Proof.
  apply calculate_ndcg_at_k_perfect.
  - exact scenario_relevant_nonempty.
  - lia.
  - apply (bool_decide_unpack _). vm_compute. exact I.
  - vm_compute. lia.
  - apply (bool_decide_unpack _). vm_compute. exact I.
Defined.

(** X12, on the scenario: recall at 1 and at 2. *)
Lemma calculate_recall_at_k_monotone_witness :
  ∃ recall recall',
    calculate_recall_at_k ({[5%Z; 9%Z]} : gset Z) [9; 1; 5]%Z 1 = Ok recall ∧
    calculate_recall_at_k ({[5%Z; 9%Z]} : gset Z) [9; 1; 5]%Z 2 = Ok recall' ∧
    (recall <= recall')%R.
Proof.
  apply (calculate_recall_at_k_monotone ({[5%Z; 9%Z]} : gset Z) [9; 1; 5]%Z 1 2). lia.
Defined.

(** X13, on the scenario: the three retrieved items hold both relevant ones. *)
Lemma calculate_recall_at_k_one_witness :
  calculate_recall_at_k ({[5%Z; 9%Z]} : gset Z) [9; 1; 5]%Z 3 = Ok 1%R.
Proof.
  apply (calculate_recall_at_k_one ({[5%Z; 9%Z]} : gset Z) [9; 1; 5]%Z 3).
  - exact scenario_relevant_nonempty.
  - intros x Hx. apply elem_of_union in Hx as [Hx|Hx];
      apply elem_of_singleton in Hx; subst x;
      apply (bool_decide_unpack _); vm_compute; exact I.
Defined.

(** ** The heuristic on the scenario's results *)

Lemma demo_keywords :
  keywords (H := ascii_text) (H0 := ascii_str) "show me chicken" = {["chicken"]}.
Proof. vm_compute. reflexivity. Qed.

Lemma ge_float_VFloat (r threshold : R) :
  (threshold <= r)%R → ge_float (VFloat r) threshold = Done true.
Proof. intros Hle. simpl. by destruct (Rle_dec _ _). Qed.

(** The query "show me chicken" on what [retrieve_recipes("chicken", 3)]
    returns: recipes 3 and 1 are labelled, recipe 2 is not. *)
Lemma demo_identify :
  identify_relevant_recipes (H := ascii_text) (H0 := ascii_str) example_key
    "show me chicken" demo_retrieved 0.15
  = Done ({[inl 1%Z]} ∪ ({[inl 3%Z]} ∪ ∅)).
Proof.
  unfold identify_relevant_recipes. rewrite demo_keywords.
  unfold demo_retrieved. cbn [relevant_loop].
  rewrite decide_True by (vm_compute; lia).
  replace (dict_get (<["relevance_score" := VFloat 1]> recipe_3) "relevance_score" (VInt 0))
    with (VFloat 1) by (vm_compute; reflexivity).
  rewrite ge_float_VFloat by lra.
  replace (dict_getitem (<["relevance_score" := VFloat 1]> recipe_3) "recipe_id")
    with (Done (VInt 3)) by (vm_compute; reflexivity).
  rewrite decide_True by (vm_compute; lia).
  replace (dict_get (<["relevance_score" := VFloat 1]> recipe_1) "relevance_score" (VInt 0))
    with (VFloat 1) by (vm_compute; reflexivity).
  rewrite ge_float_VFloat by lra.
  replace (dict_getitem (<["relevance_score" := VFloat 1]> recipe_1) "recipe_id")
    with (Done (VInt 1)) by (vm_compute; reflexivity).
  rewrite decide_False by (vm_compute; lia).
  reflexivity.
Qed.

(** X14, on the scenario's results. *)
Lemma identify_relevant_recipes_spec_witness :
  ∃ relevant,
    identify_relevant_recipes (H := ascii_text) (H0 := ascii_str) example_key
      "show me chicken" demo_retrieved 0.15 = Done relevant ∧
    ∀ x, x ∈ relevant ↔
         ∃ recipe v, recipe ∈ demo_retrieved ∧
                     counted_relevant (H := ascii_text) (H0 := ascii_str)
                       (keywords (H := ascii_text) (H0 := ascii_str) "show me chicken")
                       0.15 recipe ∧
                     recipe !! "recipe_id" = Some v ∧ example_key v = x.
Proof.
  eexists. split; [exact demo_identify|].
  exact (identify_relevant_recipes_spec (H := ascii_text) (H0 := ascii_str) example_key
           "show me chicken" demo_retrieved 0.15 _ demo_identify).
Defined.

(** X15, on a query of stop words. *)
Lemma identify_relevant_recipes_stop_words_witness :
  identify_relevant_recipes (H := ascii_text) (H0 := ascii_str) example_key
    "Show me the list" demo_retrieved 0.15 = Done ∅.
Proof.
  apply (identify_relevant_recipes_stop_words (H := ascii_text) (H0 := ascii_str)
           example_key "Show me the list" demo_retrieved 0.15).
  intros w Hw.
  replace (str_split (PyStr := ascii_str) (str_lower (TextPrims := ascii_text)
                                             "Show me the list"))
    with ["show"; "me"; "the"; "list"] in Hw by (vm_compute; reflexivity).
  rewrite !elem_of_cons, elem_of_nil in Hw.
  destruct Hw as [->|[->|[->|[->|[]]]]];
    apply (bool_decide_unpack _); vm_compute; exact I.
Defined.

Lemma demo_query_scores :
  ∃ ndcg recall,
    query_scores (H := ascii_text) (H0 := ascii_str) example_key
      "show me chicken" demo_retrieved 3 = Done (Some (ndcg, recall)).
Proof.
  unfold query_scores.
  replace (retrieved_ids example_key demo_retrieved)
    with (Done [inl 3%Z; inl 1%Z; inl 2%Z] : attempt (list (Z + string)))
    by (vm_compute; reflexivity).
  rewrite demo_identify.
  rewrite decide_True by (vm_compute; lia).
  unfold calculate_recall_at_k, truediv.
  rewrite !decide_False by (vm_compute; lia).
  by eexists _, _.
Qed.

(** X16, on the scenario's results: with [k = 3] for three retrieved
    recipes the recall is 1.0. *)
Lemma query_scores_recall_witness :
  ∃ ndcg recall,
    query_scores (H := ascii_text) (H0 := ascii_str) example_key
      "show me chicken" demo_retrieved 3 = Done (Some (ndcg, recall)) ∧
    recall = 1%R ∧ (0 < ndcg)%R.
Proof.
  destruct demo_query_scores as (ndcg & recall & Hscores).
  exists ndcg, recall. split; [exact Hscores|].
  apply (query_scores_recall (H := ascii_text) (H0 := ascii_str) example_key
           "show me chicken" demo_retrieved 3 ndcg recall Hscores).
  vm_compute. discriminate.
Defined.

(** ** The preparation of a small frame *)

Lemma demo_selected_cols :
  selected_cols (columns demo_frame)
  = [("recipe_id", "id"); ("title", "Name"); ("tags", "Tags")].
Proof. vm_compute. reflexivity. Qed.

(** The second row, which has no id, is dropped; the first keeps an empty
    part for its missing tags, and with it a trailing space. *)
Lemma demo_saved :
  save_recipes (H0 := ascii_str)
    (preprocess_recipes (H := ascii_text) (H0 := ascii_str) demo_frame)
  = Ok [ {[ "recipe_id" := VStr "r1"; "title" := VStr "chicken pasta"; "tags" := VStr "";
            "searchable_text" := VStr "chicken pasta " ]} ].
Proof. vm_compute. reflexivity. Qed.

(** X17, on the small frame. *)
Lemma preprocess_recipes_dropna_witness :
  records (preprocess_recipes (H := ascii_text) (H0 := ascii_str) demo_frame) =
    map (preprocess_row (H := ascii_text) (H0 := ascii_str)
           (selected_cols (columns demo_frame)))
        (filter (λ row, has_recipe_id demo_frame row = true) (records demo_frame)).
Proof.
  apply (preprocess_recipes_dropna (H := ascii_text) (H0 := ascii_str) demo_frame).
  rewrite demo_selected_cols. discriminate.
Defined.

(** X18, on the small frame. *)
Lemma save_recipes_searchable_text_witness :
  [ {[ "recipe_id" := VStr "r1"; "title" := VStr "chicken pasta"; "tags" := VStr "";
       "searchable_text" := VStr "chicken pasta " ]} ] =
  map (λ row,
         <["searchable_text" :=
             VStr (str_join " "
                     (omap (cleaned_cell (H := ascii_text) (H0 := ascii_str)
                              (selected_cols (columns demo_frame)) row)
                           text_fields))]>
           (preprocess_row (H := ascii_text) (H0 := ascii_str)
              (selected_cols (columns demo_frame)) row))
      (filter (λ row, has_recipe_id demo_frame row = true) (records demo_frame)).
Proof.
  exact (save_recipes_searchable_text (H := ascii_text) (H0 := ascii_str)
           demo_frame _ demo_saved).
Defined.

(** ** A short conversation *)

(** X19, on a clarification that names calories after "with". *)
Lemma build_clarified_query_extends_witness :
  _build_clarified_query (H := ascii_text) "pasta" "with fewer calories"
  = "pasta, but with fewer calories".
Proof.
  destruct (build_clarified_query_extends (H := ascii_text)
              "pasta" "with fewer calories") as [_ Hwith].
  apply Hwith. left. vm_compute. reflexivity.
Defined.

(** X20, on the assistant that has answered "pasta": "vegan" is sent as
    "pasta" with something appended. *)
Lemma ask_short_follow_up_witness :
  ∃ suffix, suffix ≠ "" ∧
    actual_query_of (H := ascii_text) (H0 := ascii_str) demo_assistant "vegan"
      = "pasta" +:+ suffix ∧
    ∀ result,
      (ask (H := ascii_text) (H0 := ascii_str) echo_pipeline "vegan" 5 demo_assistant).2
        = Done result →
      last_query
        (ask (H := ascii_text) (H0 := ascii_str) echo_pipeline "vegan" 5 demo_assistant).1
        = Some ("pasta" +:+ suffix).
Proof.
  destruct (ask_short_follow_up (H := ascii_text) (H0 := ascii_str) echo_pipeline
              demo_assistant "pasta" "vegan" 5)
    as (suffix & Hsuffix & Hactual & _ & Hlast).
  - reflexivity.
  - discriminate.
  - vm_compute. lia.
  - exists suffix. exact (conj Hsuffix (conj Hactual Hlast)).
Defined.

(** X21, on a new assistant after its first question, "pasta", and on the
    follow-up "vegan", which is sent as "pasta, vegan". *)
Lemma assistant_invariant_witness :
  let a := (ask (H := ascii_text) (H0 := ascii_str) echo_pipeline "pasta" 5
              (new_assistant ())).1 in
  let a' := (ask (H := ascii_text) (H0 := ascii_str) echo_pipeline "vegan" 5 a).1 in
  (last_query a = None ↔ last_results a = None) ∧
  (∀ q, last_query a = Some q →
        ∃ t, last (conversation_history a) = Some t ∧ actual_query t = q) ∧
  conversation_history (reset a) = conversation_history a ∧
  conversation_history a' =
    conversation_history a ++
    [{| user_input := "vegan"; actual_query := "pasta, vegan";
        turn_answer := "pasta, vegan"; num_recipes := 0 |}] ∧
  last_query a' = Some "pasta, vegan" ∧
  last_results a' = Some [].
Proof.
  intros a a'.
  destruct (assistant_invariant (H := ascii_text) (H0 := ascii_str) echo_pipeline a)
    as (Hboth & Hlast & Hreset & Hask).
  - apply reachable_ask, reachable_new.
  - destruct (Hask "vegan" 5%Z) as (_ & _ & Hdone).
    exact (conj Hboth (conj Hlast (conj Hreset Hdone))).
Defined.
